(** * GTA text-editing tool: the codec layer, embedded and verified

    A shallow embedding of the parts of [GTA4_WHM_Text_Extractor.py] and
    [SAGXT.py] that the specification's testable properties talk about:
    the FNV-1a hash, the resource flags, tagged offsets into the arena,
    the HTML string walker, the editable ledger, the translation database
    and the San Andreas table writer.

    Conventions.  A byte is a [Z] in [0, 256); a byte string is a [list Z].
    A Python [str] is the list of its Unicode code points, also [list Z].
    Fixed-width integers are [Z] with the wrap-around written out. *)

From Stdlib Require Import ZArith List Lia Bool String Ascii Sorted Permutation.
From stdpp Require Import gmap list.

Import ListNotations.
Open Scope Z_scope.

(** ** Literals *)

(** The code points of an ASCII literal. *)
Definition codes (s : string) : list Z :=
  List.map (fun a => Z.of_nat (nat_of_ascii a)) (list_ascii_of_string s).

(** ** Hash suite: FNV-1a/32 *)

Definition FNV_PRIME_32 : Z := 0x01000193.
Definition FNV_OFFSET_BASIS_32 : Z := 0x811C9DC5.

(** [fnv1a_32]: one step of the loop body, then the loop. *)
Definition fnv1a_step (hash_val byte : Z) : Z :=
  Z.land (Z.lxor hash_val byte * FNV_PRIME_32) 0xFFFFFFFF.

Definition fnv1a_32 (data : list Z) : Z :=
  fold_left fnv1a_step data FNV_OFFSET_BASIS_32.

(** ** The windows-1252 codec of the Python standard library

    [str.encode('windows-1252')]: code points below 0x80 and from 0xA0 to
    0xFF encode to themselves; 27 further characters take the bytes 0x80 to
    0x9F; the bytes 0x81, 0x8D, 0x8F, 0x90 and 0x9D are undefined.  Any other
    code point raises [UnicodeEncodeError], modelled by [None]. *)

Definition cp1252_high : list (Z * Z) :=
  [ (0x20AC, 0x80); (0x201A, 0x82); (0x0192, 0x83); (0x201E, 0x84);
    (0x2026, 0x85); (0x2020, 0x86); (0x2021, 0x87); (0x02C6, 0x88);
    (0x2030, 0x89); (0x0160, 0x8A); (0x2039, 0x8B); (0x0152, 0x8C);
    (0x017D, 0x8E); (0x2018, 0x91); (0x2019, 0x92); (0x201C, 0x93);
    (0x201D, 0x94); (0x2022, 0x95); (0x2013, 0x96); (0x2014, 0x97);
    (0x02DC, 0x98); (0x2122, 0x99); (0x0161, 0x9A); (0x203A, 0x9B);
    (0x0153, 0x9C); (0x017E, 0x9E); (0x0178, 0x9F) ].

Fixpoint assoc_fst (k : Z) (l : list (Z * Z)) : option Z :=
  match l with
  | [] => None
  | (a, b) :: l' => if a =? k then Some b else assoc_fst k l'
  end.

Fixpoint assoc_snd (k : Z) (l : list (Z * Z)) : option Z :=
  match l with
  | [] => None
  | (a, b) :: l' => if b =? k then Some a else assoc_snd k l'
  end.

Definition encode_cp1252_char (c : Z) : option Z :=
  if (0 <=? c) && (c <? 0x80) then Some c
  else if (0xA0 <=? c) && (c <=? 0xFF) then Some c
  else assoc_fst c cp1252_high.

Fixpoint encode_cp1252 (s : list Z) : option (list Z) :=
  match s with
  | [] => Some []
  | c :: s' =>
      match encode_cp1252_char c, encode_cp1252 s' with
      | Some b, Some bs => Some (b :: bs)
      | _, _ => None
      end
  end.

(** ** The editable ledger: [CHtmlTextExport.LoadText] *)

Record ExportedTextEntry := mkEntry { hash : Z; str : list Z }.

(** [str.isspace] for one character: the characters [str.strip] removes. *)
Definition py_isspace (c : Z) : bool :=
  ((9 <=? c) && (c <=? 13)) || ((28 <=? c) && (c <=? 32))
  || (c =? 0x85) || (c =? 0xA0) || (c =? 0x1680)
  || ((0x2000 <=? c) && (c <=? 0x200A))
  || (c =? 0x2028) || (c =? 0x2029) || (c =? 0x202F)
  || (c =? 0x205F) || (c =? 0x3000).

Fixpoint lstrip (s : list Z) : list Z :=
  match s with
  | c :: s' => if py_isspace c then lstrip s' else s
  | [] => []
  end.

Definition strip (s : list Z) : list Z := rev (lstrip (rev (lstrip s))).

(** [IsBlankText]: every character is a space or a tab. *)
Definition IsBlankText (text : list Z) : bool :=
  forallb (fun c => (c =? 32) || (c =? 9)) text.

Definition is_hex_digit (c : Z) : bool :=
  ((48 <=? c) && (c <=? 57)) || ((97 <=? c) && (c <=? 102))
  || ((65 <=? c) && (c <=? 70)).

Definition hex_digit_value (c : Z) : Z :=
  if c <=? 57 then c - 48 else if c <=? 70 then c - 55 else c - 87.

(** [int(digits, 16)] on a run of hexadecimal digits. *)
Definition int16 (digits : list Z) : Z :=
  fold_left (fun acc c => 16 * acc + hex_digit_value c) digits 0.

(** The part of a string a regex [.*] takes: up to the first line feed. *)
Fixpoint dot_star (s : list Z) : list Z :=
  match s with
  | c :: s' => if c =? 10 then [] else c :: dot_star s'
  | [] => []
  end.

(** [entry_regex.match(line)]: the pattern is a zero, an x of either case
    and eight hexadecimal digits (group 1), an equals sign, and the rest of
    the line (group 2).  The result is the pair of [int(group 1, 16)] and
    group 2 when the line matches at its start. *)
Definition entry_regex_match (line : list Z) : option (Z * list Z) :=
  match line with
  | c0 :: cx :: rest =>
      let digits := firstn 8 rest in
      if (c0 =? 48) && ((cx =? 120) || (cx =? 88))
         && (Nat.eqb (List.length digits) 8) && forallb is_hex_digit digits
      then match skipn 8 rest with
           | ceq :: text =>
               if ceq =? 61 then Some (int16 digits, dot_star text) else None
           | [] => None
           end
      else None
  | _ => None
  end.

(** [s.replace(a ++ b, r)] for a two-character pattern, left to right. *)
Fixpoint replace2 (a b r : Z) (s : list Z) : list Z :=
  match s with
  | x :: s' =>
      match s' with
      | y :: s'' =>
          if (x =? a) && (y =? b) then r :: replace2 a b r s''
          else x :: replace2 a b r s'
      | [] => [x]
      end
  | [] => []
  end.

(** The two unescapes of [LoadText]: backslash-n, then backslash-r. *)
Definition unescape (text : list Z) : list Z :=
  replace2 92 114 13 (replace2 92 110 10 text).

(** [text_str.encode('windows-1252')] with the [except] branch. *)
Definition text_bytes (text_str : list Z) : list Z :=
  match encode_cp1252 text_str with
  | Some bs => bs
  | None => []
  end.

(** The test that guards [result.append]. *)
Definition accepts (hash_val : Z) (text_str : list Z) : bool :=
  negb (IsBlankText text_str)
  && negb (hash_val =? fnv1a_32 (text_bytes text_str)).

(** What one line of the file does: the entries it appends to [result] and
    the line numbers it reports as unrecognised. *)
Inductive line_outcome :=
| Skipped
| Unrecognised
| Matched (hash_val : Z) (text_str : list Z) (kept : bool).

Definition load_line (raw : list Z) : line_outcome :=
  let line := strip raw in
  match line with
  | [] => Skipped
  | c :: _ =>
      if c =? 59 then Skipped
      else match entry_regex_match line with
           | Some (hash_val, group2) =>
               let text_str := unescape group2 in
               Matched hash_val text_str (accepts hash_val text_str)
           | None => Unrecognised
           end
  end.

Definition line_entries (raw : list Z) : list ExportedTextEntry :=
  match load_line raw with
  | Matched hash_val text_str true => [mkEntry hash_val text_str]
  | _ => []
  end.

(** [LoadText] on the lines of an opened file. *)
Definition LoadText (lines : list (list Z)) : list ExportedTextEntry :=
  flat_map line_entries lines.

(** The ledger line [0xHHHHHHHH=text] for a key hash, as [ExportText] and a
    translator write it. *)
Definition hex_digit_char (d : Z) : Z := if d <? 10 then 48 + d else 55 + d.

Definition hex8 (h : Z) : list Z :=
  List.map (fun i => hex_digit_char (Z.land (Z.shiftr h (4 * i)) 15))
    [7; 6; 5; 4; 3; 2; 1; 0].

Definition ledger_line (h : Z) (text : list Z) : list Z :=
  codes "0x" ++ hex8 h ++ codes "=" ++ text.

(** ** Resource container: the packed flags of [rsc_flag]

    [rsc_flag_bits] is a little-endian bit-field structure over one
    [c_uint]: the fields are allocated from bit 0 upwards in declaration
    order.  [bits flags lo w] is the field of width [w] that starts at bit
    [lo]. *)

Definition bits (flags lo w : Z) : Z :=
  Z.land (Z.shiftr flags lo) (Z.shiftl 1 w - 1).

Definition virtual1xPageFlag (flags : Z) : Z := bits flags 0 1.
Definition virtual2xPageFlag (flags : Z) : Z := bits flags 1 1.
Definition virtual4xPageFlag (flags : Z) : Z := bits flags 2 1.
Definition virtual8xPageFlag (flags : Z) : Z := bits flags 3 1.
Definition virtual16xPageCount (flags : Z) : Z := bits flags 4 7.
Definition virtual1xPageSize (flags : Z) : Z := bits flags 11 4.
Definition physical1xPageFlag (flags : Z) : Z := bits flags 15 1.
Definition physical2xPageFlag (flags : Z) : Z := bits flags 16 1.
Definition physical4xPageFlag (flags : Z) : Z := bits flags 17 1.
Definition physical8xPageFlag (flags : Z) : Z := bits flags 18 1.
Definition physical16xPageCount (flags : Z) : Z := bits flags 19 7.
Definition physical1xPageSize (flags : Z) : Z := bits flags 26 4.
Definition useless (flags : Z) : Z := bits flags 30 2.

Definition GetVirtualPageSize (flags : Z) : Z :=
  Z.shiftl 1 (virtual1xPageSize flags + 8).

Definition GetPhysicalPageSize (flags : Z) : Z :=
  Z.shiftl 1 (physical1xPageSize flags + 8).

Definition GetVirtualSize (flags : Z) : Z :=
  GetVirtualPageSize flags *
  (virtual1xPageFlag flags * 1 + virtual2xPageFlag flags * 2
   + virtual4xPageFlag flags * 4 + virtual8xPageFlag flags * 8
   + virtual16xPageCount flags * 16).

Definition GetPhysicalSize (flags : Z) : Z :=
  GetPhysicalPageSize flags *
  (physical1xPageFlag flags * 1 + physical2xPageFlag flags * 2
   + physical4xPageFlag flags * 4 + physical8xPageFlag flags * 8
   + physical16xPageCount flags * 16).

(** [uncompressed_size] of [UnpackWhm]. *)
Definition uncompressed_size (flags : Z) : Z :=
  GetVirtualSize flags + GetPhysicalSize flags.

(** The arena [UnpackWhm] returns once zlib has inflated the payload: the
    inflated bytes, zero-padded or truncated to [uncompressed_size]. *)
Definition UnpackWhm_arena (flags : Z) (inflated : list Z) : list Z :=
  let expected := uncompressed_size flags in
  let actual := Z.of_nat (List.length inflated) in
  if actual =? expected then inflated
  else if actual <? expected
       then inflated ++ repeat 0 (Z.to_nat (expected - actual))
       else firstn (Z.to_nat expected) inflated.

(** ** Reading the arena *)

Definition len {A : Type} (block : list A) : Z := Z.of_nat (List.length block).

Definition byte_at (block : list Z) (i : Z) : Z :=
  nth (Z.to_nat i) block 0.

(** Little-endian fields, as [ctypes] and [struct.unpack_from] read them. *)
Definition read_u16 (block : list Z) (off : Z) : Z :=
  byte_at block off + 256 * byte_at block (off + 1).

Definition read_u32 (block : list Z) (off : Z) : Z :=
  byte_at block off + 256 * byte_at block (off + 1)
  + 65536 * byte_at block (off + 2) + 16777216 * byte_at block (off + 3).

(** ** Tagged offsets: [pgPtr] *)

Definition Cpu_Type : Z := 5.
Definition Gpu_Type : Z := 6.

(** [pgPtr.o] and [pgPtr.t] on the 32-bit [_value]. *)
Definition pgPtr_o (_value : Z) : Z := Z.land _value 0x0FFFFFFF.
Definition pgPtr_t (_value : Z) : Z := Z.land (Z.shiftr _value 28) 0xF.

(** What [locate] is asked for: [c_char] (a null-terminated string) or a
    [ctypes] structure, of which only [ctypes.sizeof] matters here. *)
Inductive struct_type :=
| c_char
| c_struct (sizeof : Z).

(** What [locate] returns: the bytes of the string, or the structure that
    [from_buffer] overlays on the block, known by its offset. *)
Inductive located :=
| LBytes (raw_bytes : list Z)
| LStruct (offset : Z).

(** The bytes before the first null byte; [None] when there is none. *)
Fixpoint until_null (bs : list Z) : option (list Z) :=
  match bs with
  | [] => None
  | b :: bs' =>
      if b =? 0 then Some []
      else match until_null bs' with
           | Some r => Some (b :: r)
           | None => None
           end
  end.

(** [struct_type.from_buffer(block, offset)]: [ValueError] ([None]) when
    the structure does not fit in the block from [offset] on. *)
Definition from_buffer (sizeof : Z) (block : list Z) (offset : Z) : option Z :=
  if (0 <=? offset) && (offset + sizeof <=? len block) then Some offset
  else None.

Definition locate (_value : Z) (block : list Z) (st : struct_type)
  : option located :=
  if (len block =? 0) || negb (pgPtr_t _value =? Cpu_Type) then None
  else if len block <=? pgPtr_o _value then None
  else match st with
       | c_char =>
           match until_null (skipn (Z.to_nat (pgPtr_o _value)) block) with
           | Some raw => Some (LBytes raw)
           | None => None
           end
       | c_struct sizeof =>
           match from_buffer sizeof block (pgPtr_o _value) with
           | Some off => Some (LStruct off)
           | None => None
           end
       end.

(** ** Counted arrays: [pgObjectArray] *)

Record pgObjectArray := mkArray { _ptr_value : Z; count : Z; size_ : Z }.

Definition pgObjectArray_o (a : pgObjectArray) : Z :=
  Z.land (_ptr_value a) 0x0FFFFFFF.
Definition pgObjectArray_t (a : pgObjectArray) : Z :=
  Z.land (Z.shiftr (_ptr_value a) 28) 0xF.

(** Messages written to standard error. *)
Inductive diagnostic :=
| ArrayOutOfBounds (offset count size element_size block_len : Z)
| ArrayElementError (index : Z)
| UnknownNodeType (m_eNodeType : Z)
| NoBodyNode
| DocumentError
| DataNodeError.

(** The element loop of [get_span]: element [i] is overlaid at
    [offset + i * element_size]; a failing overlay stops the loop. *)
Fixpoint span_loop (block : list Z) (offset element_size i : Z) (n : nat)
  : list Z * list diagnostic :=
  match n with
  | O => ([], [])
  | S n' =>
      match from_buffer element_size block (offset + i * element_size) with
      | Some element =>
          let '(span, msgs) :=
            span_loop block offset element_size (i + 1) n' in
          (element :: span, msgs)
      | None => ([], [ArrayElementError i])
      end
  end.

(** [get_span]: the offsets of the elements, and the warnings printed. *)
Definition get_span (a : pgObjectArray) (block : list Z) (element_size : Z)
  : list Z * list diagnostic :=
  if (len block =? 0) || negb (pgObjectArray_t a =? Cpu_Type) then ([], [])
  else
    let offset := pgObjectArray_o a in
    let num_elements := Z.max (count a) (size_ a) in
    if len block <? offset + num_elements * element_size then
      let num_elements := count a in
      if len block <? offset + num_elements * element_size then
        ([], [ArrayOutOfBounds offset (count a) (size_ a) element_size
                (len block)])
      else span_loop block offset element_size 0 (Z.to_nat num_elements)
    else span_loop block offset element_size 0 (Z.to_nat num_elements).

(** ** Structure layouts

    [ctypes.sizeof] and the field offsets of the structures the walker
    overlays on the arena.  Every field is 4-byte aligned except the two
    [c_bool] and the [c_ubyte] arrays of [HtmlRenderState], which pack into
    one word. *)

Definition sizeof_pgPtr : Z := 4.
Definition sizeof_pgObjectArray : Z := 4 + 2 + 2.

(** 46 four-byte fields, then [hasBackground], [isLink], [_BA] (one word),
    [dwLinkColor] and [_fC0]. *)
Definition sizeof_HtmlRenderState : Z := 46 * 4 + (1 + 1 + 2) + 4 + 4.

(** [CHtmlNode]: [vtbl], [m_eNodeType], [m_pParentNode], [m_children],
    [m_renderState]. *)
Definition offset_m_eNodeType : Z := 4.
Definition offset_m_children : Z := 4 + 4 + sizeof_pgPtr.
Definition sizeof_CHtmlNode : Z :=
  4 + 4 + sizeof_pgPtr + sizeof_pgObjectArray + sizeof_HtmlRenderState.

(** [CHtmlDataNode]: [node_base], [m_pData]. *)
Definition offset_m_pData : Z := sizeof_CHtmlNode.
Definition sizeof_CHtmlDataNode : Z := sizeof_CHtmlNode + sizeof_pgPtr.

(** [CHtmlDocument]: [m_pRootElement], [m_pBody], [m_pszTitle], [m_pTxd],
    three arrays, [pad] and [_f2B]. *)
Definition offset_m_pBody : Z := sizeof_pgPtr.
Definition sizeof_CHtmlDocument : Z :=
  4 * sizeof_pgPtr + 3 * sizeof_pgObjectArray + 3 + 1.

(** The [pgObjectArray] overlaid at [off]. *)
Definition read_array (block : list Z) (off : Z) : pgObjectArray :=
  {| _ptr_value := read_u32 block off;
     count := read_u16 block (off + 4);
     size_ := read_u16 block (off + 6) |}.

(** [HtmlNodeType(value)]: the four members of the enumeration. *)
Inductive HtmlNodeType :=
| Node_HtmlNode
| Node_HtmlDataNode
| Node_HtmlTableNode
| Node_HtmlTableElementNode.

Definition HtmlNodeType_of (value : Z) : option HtmlNodeType :=
  if value =? 0 then Some Node_HtmlNode
  else if value =? 1 then Some Node_HtmlDataNode
  else if value =? 2 then Some Node_HtmlTableNode
  else if value =? 3 then Some Node_HtmlTableElementNode
  else None.

(** ** The string filter: [CHtmlTextExport.TryAppendString] *)

Definition validate_digit_char (c : Z) : bool := (48 <=? c) && (c <=? 57).

Definition validate_english_char (c : Z) : bool :=
  ((97 <=? c) && (c <=? 122)) || ((65 <=? c) && (c <=? 90)).

Definition validate_efigs_char (c : Z) : bool :=
  validate_english_char c || (0xC0 <=? c).

Definition validate_url_char (c : Z) : bool :=
  validate_english_char c || validate_digit_char c
  || (c =? 46) || (c =? 37) || (c =? 64) || (c =? 45) || (c =? 95).

(** [view.find(b'.')] and [view.rfind(b'.')]: an index, or -1. *)
Fixpoint find_from (c i : Z) (view : list Z) : Z :=
  match view with
  | [] => -1
  | b :: view' => if b =? c then i else find_from c (i + 1) view'
  end.

Definition find (view : list Z) (c : Z) : Z := find_from c 0 view.

Fixpoint rfind_from (c i : Z) (view : list Z) : Z :=
  match view with
  | [] => -1
  | b :: view' =>
      let later := rfind_from c (i + 1) view' in
      if later =? -1 then (if b =? c then i else -1) else later
  end.

Definition rfind (view : list Z) (c : Z) : Z := rfind_from c 0 view.

Definition validate_url (view : list Z) : bool :=
  match view with
  | [] => false
  | _ =>
      if negb (forallb validate_url_char view) then false
      else
        let first_dot_pos := find view 46 in
        let last_dot_pos := rfind view 46 in
        negb (first_dot_pos =? -1) && negb (first_dot_pos =? 0)
        && negb (last_dot_pos =? len view - 1)
  end.

Definition validate_string (view : list Z) : bool :=
  existsb validate_efigs_char view && negb (validate_url view).

(** The state a run of the exporter threads through the walk: the
    [container] of one file, the [hashes] shared by all files of the run,
    and what was printed to standard error. *)
Record walk_state := mkWalk {
  container : list ExportedTextEntry;
  hashes : gset Z;
  stderr : list diagnostic
}.

Definition warn (msgs : list diagnostic) (s : walk_state) : walk_state :=
  {| container := container s; hashes := hashes s;
     stderr := stderr s ++ msgs |}.

Definition TryAppendString (ptr : list Z) (s : walk_state) : walk_state :=
  match ptr with
  | [] => s
  | _ =>
      if validate_string ptr then
        let hash_val := fnv1a_32 ptr in
        if decide (hash_val ∈ hashes s) then s
        else {| container := container s ++ [mkEntry hash_val ptr];
                hashes := hashes s ∪ {[hash_val]};
                stderr := stderr s |}
      else s
  end.

(** ** The interpreter's recursion limit

    Python raises [RecursionError] when a call would nest deeper than the
    interpreter allows.  The walk is given the number of nested calls still
    allowed; how deep the helpers nest below the frame of
    [ExtractNodeStrings] depends on the interpreter (property getters,
    generator expressions and the like are calls too) and is given with it:
    [frames_helpers] for [get_span] and [locate], which reach their deepest
    nesting in the same test of their first line, before they print or
    return anything; [frames_cast] for [ctypes.cast]; and
    [frames_TryAppendString] for [TryAppendString] on given bytes, which
    calls its validators and the hash before it stores anything, so that
    when it raises, the set and the container are as they were.  The lookup
    of the node kind is taken to nest no deeper than [get_span]. *)
Record interpreter := mkInterpreter {
  frames_helpers : nat;
  frames_cast : nat;
  frames_TryAppendString : list Z -> nat
}.

(** ** The tree walk: [CHtmlTextExport.ExtractNodeStrings] *)

(** How a walk ends.  [Raised]: an exception left [ExtractNodeStrings]; the
    only one the walk itself produces is [RecursionError], when the nesting
    exceeds the interpreter's limit outside the [try] of the data node.
    [Unmodelled]: the walk read the [m_pData] word of a data node lying
    closer than [sizeof_CHtmlDataNode] to the end of the arena; the source
    reads it through a raw pointer cast with no bounds check, so what it
    obtains is not determined by the arena. *)
Inductive outcome :=
| Done (s : walk_state)
| Raised (s : walk_state)
| Unmodelled.

(** The [HtmlDataNode] branch, for the node overlaid at [node], with
    [depth] nested calls left: the [try] block and its [except Exception],
    which swallows a [RecursionError] raised by the cast, by [locate] or by
    [TryAppendString], prints a message and lets the walk go on. *)
Definition extract_data_node (py : interpreter) (depth : nat) (node : Z)
  (block : list Z) (s : walk_state) : outcome :=
  if (depth <? frames_cast py)%nat then Done (warn [DataNodeError] s)
  else if node + sizeof_CHtmlDataNode <=? len block then
    if (depth <? frames_helpers py)%nat then Done (warn [DataNodeError] s)
    else
      match locate (read_u32 block (node + offset_m_pData)) block c_char with
      | Some (LBytes []) => Done s
      | Some (LBytes data_bytes) =>
          if (depth <? frames_TryAppendString py data_bytes)%nat
          then Done (warn [DataNodeError] s)
          else Done (TryAppendString data_bytes s)
      | _ => Done s
      end
  else Unmodelled.

(** [depth] is the number of nested calls the interpreter still allows when
    [ExtractNodeStrings] is called.  The call takes one of them; [get_span],
    the first call of the body, raises when its own calls do not fit. *)
Fixpoint ExtractNodeStrings (py : interpreter) (depth : nat) (node : Z)
  (block : list Z) (s : walk_state) : outcome :=
  match depth with
  | O => Raised s
  | S depth' =>
      if (depth' <? frames_helpers py)%nat then Raised s
      else
        let '(span, msgs) :=
          get_span (read_array block (node + offset_m_children)) block
            sizeof_pgPtr in
        let after_children :=
          fold_left
            (fun acc element_ptr =>
               match acc with
               | Done s1 =>
                   match locate (read_u32 block element_ptr) block
                           (c_struct sizeof_CHtmlNode) with
                   | Some (LStruct child_node) =>
                       ExtractNodeStrings py depth' child_node block s1
                   | _ => Done s1
                   end
               | _ => acc
               end)
            span (Done (warn msgs s)) in
        match after_children with
        | Done s1 =>
            let m_eNodeType := read_u32 block (node + offset_m_eNodeType) in
            match HtmlNodeType_of m_eNodeType with
            | None => Done (warn [UnknownNodeType m_eNodeType] s1)
            | Some Node_HtmlDataNode =>
                extract_data_node py depth' node block s1
            | Some _ => Done s1
            end
        | _ => after_children
        end
  end.

(** [ExtractWhmStrings] on the arena of one file, with [depth] nested calls
    left: the entries of the file, the updated hash set and the messages, or
    [None] when the walk left the model.  Its [except Exception] catches
    what [locate] or the walk raises. *)
Definition ExtractWhmStrings (py : interpreter) (depth : nat)
  (block : list Z) (hashes0 : gset Z) : option walk_state :=
  let s0 := {| container := []; hashes := hashes0; stderr := [] |} in
  if len block =? 0 then Some s0
  else
    match from_buffer sizeof_CHtmlDocument block 0 with
    | None => Some (warn [DocumentError] s0)
    | Some p_doc =>
        if (depth <? frames_helpers py)%nat
        then Some (warn [DocumentError] s0)
        else
          match locate (read_u32 block (p_doc + offset_m_pBody)) block
                  (c_struct sizeof_CHtmlNode) with
          | Some (LStruct body_node) =>
              match ExtractNodeStrings py depth body_node block s0 with
              | Done s => Some s
              | Raised s => Some (warn [DocumentError] s)
              | Unmodelled => None
              end
          | _ => Some (warn [NoBodyNode] s0)
          end
    end.

(** ** The UTF-8 codec of the Python standard library *)

Definition is_surrogate (c : Z) : bool := (0xD800 <=? c) && (c <=? 0xDFFF).

(** A code point a decoded file can hold: a Unicode scalar value. *)
Definition is_scalar (c : Z) : bool :=
  (0 <=? c) && (c <=? 0x10FFFF) && negb (is_surrogate c).

(** The bytes of one scalar value. *)
Definition utf8_char (c : Z) : list Z :=
  if c <? 0x80 then [c]
  else if c <? 0x800 then
    [Z.lor 0xC0 (Z.shiftr c 6); Z.lor 0x80 (Z.land c 0x3F)]
  else if c <? 0x10000 then
    [Z.lor 0xE0 (Z.shiftr c 12); Z.lor 0x80 (Z.land (Z.shiftr c 6) 0x3F);
     Z.lor 0x80 (Z.land c 0x3F)]
  else
    [Z.lor 0xF0 (Z.shiftr c 18); Z.lor 0x80 (Z.land (Z.shiftr c 12) 0x3F);
     Z.lor 0x80 (Z.land (Z.shiftr c 6) 0x3F); Z.lor 0x80 (Z.land c 0x3F)].

(** [s.encode('utf-8')]: [UnicodeEncodeError] ([None]) on a surrogate. *)
Fixpoint utf8_encode (s : list Z) : option (list Z) :=
  match s with
  | [] => Some []
  | c :: s' =>
      if is_surrogate c then None
      else match utf8_encode s' with
           | Some bs => Some (utf8_char c ++ bs)
           | None => None
           end
  end.

(** [s.encode('utf-8', errors='replace')]: a question mark for each
    character that cannot be encoded. *)
Fixpoint utf8_encode_replace (s : list Z) : list Z :=
  match s with
  | [] => []
  | c :: s' =>
      (if is_surrogate c then [63] else utf8_char c) ++ utf8_encode_replace s'
  end.

Definition is_cont (b : Z) : bool := (0x80 <=? b) && (b <=? 0xBF).

(** [bts.decode('utf-8')]: strict; [None] on an invalid start byte, a
    missing or invalid continuation byte, an overlong form, a surrogate or a
    value beyond U+10FFFF. *)
Fixpoint utf8_decode (bs : list Z) : option (list Z) :=
  match bs with
  | [] => Some []
  | b0 :: r0 =>
      if (0 <=? b0) && (b0 <? 0x80) then
        match utf8_decode r0 with Some s => Some (b0 :: s) | None => None end
      else if (0xC2 <=? b0) && (b0 <=? 0xDF) then
        match r0 with
        | b1 :: r1 =>
            if is_cont b1 then
              match utf8_decode r1 with
              | Some s =>
                  Some (Z.lor (Z.shiftl (Z.land b0 0x1F) 6) (Z.land b1 0x3F)
                        :: s)
              | None => None
              end
            else None
        | _ => None
        end
      else if (0xE0 <=? b0) && (b0 <=? 0xEF) then
        match r0 with
        | b1 :: b2 :: r2 =>
            let c := Z.lor (Z.shiftl (Z.land b0 0x0F) 12)
                       (Z.lor (Z.shiftl (Z.land b1 0x3F) 6)
                          (Z.land b2 0x3F)) in
            if is_cont b1 && is_cont b2 && (0x800 <=? c)
               && negb (is_surrogate c) then
              match utf8_decode r2 with
              | Some s => Some (c :: s)
              | None => None
              end
            else None
        | _ => None
        end
      else if (0xF0 <=? b0) && (b0 <=? 0xF4) then
        match r0 with
        | b1 :: b2 :: b3 :: r3 =>
            let c := Z.lor (Z.shiftl (Z.land b0 0x07) 18)
                       (Z.lor (Z.shiftl (Z.land b1 0x3F) 12)
                          (Z.lor (Z.shiftl (Z.land b2 0x3F) 6)
                             (Z.land b3 0x3F))) in
            if is_cont b1 && is_cont b2 && is_cont b3 && (0x10000 <=? c)
               && (c <=? 0x10FFFF) then
              match utf8_decode r3 with
              | Some s => Some (c :: s)
              | None => None
              end
            else None
        | _ => None
        end
      else None
  end.

(** [bts.decode('cp1252')]: the inverse table; [None] on an undefined
    byte. *)
Definition decode_cp1252_char (b : Z) : option Z :=
  if (0 <=? b) && (b <? 0x80) then Some b
  else if (0xA0 <=? b) && (b <=? 0xFF) then Some b
  else assoc_snd b cp1252_high.

Fixpoint decode_cp1252 (bs : list Z) : option (list Z) :=
  match bs with
  | [] => Some []
  | b :: bs' =>
      match decode_cp1252_char b, decode_cp1252 bs' with
      | Some c, Some s => Some (c :: s)
      | _, _ => None
      end
  end.

(** [decode_bytes]: UTF-8, then cp1252, then latin-1, which maps every byte
    to the code point of the same value and so ends the search. *)
Definition decode_bytes (bts : list Z) : list Z :=
  match utf8_decode bts with
  | Some s => s
  | None =>
      match decode_cp1252 bts with
      | Some s => s
      | None => bts
      end
  end.

(** ** The translation database: [whm_table.dat] *)

(** [struct.pack("<I", x)]: [struct.error] ([None]) outside 32 bits. *)
Definition pack_u32 (x : Z) : option (list Z) :=
  if (0 <=? x) && (x <? 0x100000000) then
    Some [Z.land x 0xFF; Z.land (Z.shiftr x 8) 0xFF;
          Z.land (Z.shiftr x 16) 0xFF; Z.land (Z.shiftr x 24) 0xFF]
  else None.

(** What a [c_uint] field of a [ctypes] structure holds after a Python
    integer is assigned to it: the integer modulo 2^32, with no check. *)
Definition c_uint (x : Z) : Z := x mod 2 ^ 32.

(** [WhmTextData]: one row of the entry table, two [c_uint] fields. *)
Record WhmTextData := mkRow { row_hash : Z; row_offset : Z }.

(** The first loop of [GenerateDataBase]: the rows and the data block, from
    the rows and data block built so far. *)
Fixpoint build_blob (texts : list ExportedTextEntry)
  (text_table : list WhmTextData) (text_data : list Z)
  : list WhmTextData * list Z :=
  match texts with
  | [] => (text_table, text_data)
  | entry :: texts' =>
      let encoded_str :=
        match utf8_encode (str entry) with
        | Some bs => bs
        | None => utf8_encode_replace (str entry)
        end in
      let offset := len text_data in
      build_blob texts'
        (text_table ++ [mkRow (c_uint (hash entry)) (c_uint offset)])
        (text_data ++ encoded_str ++ [0])
  end.

(** The rows as they are written: [struct.pack("<II", hash, offset)] on the
    two fields of each row. *)
Fixpoint pack_rows (text_table : list WhmTextData) : option (list Z) :=
  match text_table with
  | [] => Some []
  | bin_entry :: rest =>
      match pack_u32 (row_hash bin_entry), pack_u32 (row_offset bin_entry),
            pack_rows rest with
      | Some h, Some o, Some bs => Some (h ++ o ++ bs)
      | _, _, _ => None
      end
  end.

(** [GenerateDataBase] from the entries [LoadText] returned for all files:
    the bytes of the output file; [None] when [struct.pack] raises, which
    the count and the size of the data block can cause and the rows, held
    in [c_uint] fields, cannot. *)
Definition GenerateDataBase (texts : list ExportedTextEntry)
  : option (list Z) :=
  let '(text_table, text_data) := build_blob texts [] [] in
  match pack_u32 (len text_table), pack_rows text_table,
        pack_u32 (len text_data) with
  | Some n, Some rows, Some sz => Some (n ++ rows ++ sz ++ text_data)
  | _, _, _ => None
  end.

(** The upper-case hexadecimal digits of a number that is not negative, the
    most significant first. *)
Fixpoint hex_upper_from (fuel : nat) (n : Z) (acc : list Z) : list Z :=
  match fuel with
  | O => acc
  | S fuel' =>
      let acc' := hex_digit_char (n mod 16) :: acc in
      if n <? 16 then acc' else hex_upper_from fuel' (n / 16) acc'
  end.

Definition hex_upper (n : Z) : list Z :=
  hex_upper_from (S (Z.to_nat (Z.log2 n))) n [].

(** The format [08X] of an integer: the sign if negative, then zeros up to
    the width of eight characters, then the digits. *)
Definition format_08X (n : Z) : list Z :=
  if n <? 0 then
    let digits := hex_upper (- n) in
    45 :: repeat 48 (7 - List.length digits) ++ digits
  else
    let digits := hex_upper n in
    repeat 48 (8 - List.length digits) ++ digits.

(** Why [ParseWhmTable] gives up. *)
Inductive parse_error :=
| FileTooSmall
| TruncatedEntryTable
| TruncatedBlobSize.

(** The entry-table loop of [ParseWhmTable]: [n] rows from [off] on. *)
Fixpoint read_rows (n : nat) (data : list Z) (off : Z)
  : option (list (Z * Z) * Z) :=
  match n with
  | O => Some ([], off)
  | S n' =>
      if len data <? off + 8 then None
      else
        match read_rows n' data (off + 8) with
        | Some (entries, off') =>
            Some ((read_u32 data off, read_u32 data (off + 4)) :: entries,
                  off')
        | None => None
        end
  end.

(** The bytes the scan [while j < blob_size and blob[j] != 0] passes. *)
Fixpoint scan_string (bs : list Z) : list Z :=
  match bs with
  | [] => []
  | b :: bs' => if b =? 0 then [] else b :: scan_string bs'
  end.

(** The marker written for an offset outside the data block. *)
Definition binary_marker : list Z := [91; 0x4E8C; 0x8FDB; 0x5236; 0x6570; 0x636E; 93].

(** The [results] list that [ParseWhmTable] builds from the bytes of the
    input file before it writes anything: hash and text of each row. *)
Definition ParseWhmTable_results (data : list Z)
  : parse_error + list (Z * list Z) :=
  if len data <? 4 then inl FileTooSmall
  else
    let count := read_u32 data 0 in
    match read_rows (Z.to_nat count) data 4 with
    | None => inl TruncatedEntryTable
    | Some (entries, off) =>
        if len data <? off + 4 then inl TruncatedBlobSize
        else
          let blob_size := read_u32 data off in
          let blob_start := off + 4 in
          let blob_size :=
            if len data <? blob_start + blob_size
            then len data - blob_start else blob_size in
          let blob :=
            firstn (Z.to_nat blob_size) (skipn (Z.to_nat blob_start) data) in
          inr (List.map
                 (fun '(h, off) =>
                    if off <? blob_size then
                      (h, decode_bytes
                            (scan_string (skipn (Z.to_nat off) blob)))
                    else (h, binary_marker))
                 entries)
    end.

(** What the last loop writes for one item: the hash in the format [08X]
    after [0x], the equals sign, the text as it is, and a line feed. *)
Definition result_line (item : Z * list Z) : list Z :=
  codes "0x" ++ format_08X (fst item) ++ codes "=" ++ snd item ++ [10].

(** [ParseWhmTable] on the bytes of the input file.  The function returns
    nothing: what it produces is the text it writes to the output file, one
    line for each item of [results], or the error it prints. *)
Definition ParseWhmTable (data : list Z) : parse_error + list Z :=
  match ParseWhmTable_results data with
  | inl e => inl e
  | inr results => inr (flat_map result_line results)
  end.

(** ** San Andreas tables: [SAGXT.py] *)

Definition CRC32_TABLE : list Z :=
  [
    0x00000000; 0x77073096; 0xEE0E612C; 0x990951BA; 0x076DC419; 0x706AF48F;
    0xE963A535; 0x9E6495A3; 0x0EDB8832; 0x79DCB8A4; 0xE0D5E91E; 0x97D2D988;
    0x09B64C2B; 0x7EB17CBD; 0xE7B82D07; 0x90BF1D91; 0x1DB71064; 0x6AB020F2;
    0xF3B97148; 0x84BE41DE; 0x1ADAD47D; 0x6DDDE4EB; 0xF4D4B551; 0x83D385C7;
    0x136C9856; 0x646BA8C0; 0xFD62F97A; 0x8A65C9EC; 0x14015C4F; 0x63066CD9;
    0xFA0F3D63; 0x8D080DF5; 0x3B6E20C8; 0x4C69105E; 0xD56041E4; 0xA2677172;
    0x3C03E4D1; 0x4B04D447; 0xD20D85FD; 0xA50AB56B; 0x35B5A8FA; 0x42B2986C;
    0xDBBBC9D6; 0xACBCF940; 0x32D86CE3; 0x45DF5C75; 0xDCD60DCF; 0xABD13D59;
    0x26D930AC; 0x51DE003A; 0xC8D75180; 0xBFD06116; 0x21B4F4B5; 0x56B3C423;
    0xCFBA9599; 0xB8BDA50F; 0x2802B89E; 0x5F058808; 0xC60CD9B2; 0xB10BE924;
    0x2F6F7C87; 0x58684C11; 0xC1611DAB; 0xB6662D3D; 0x76DC4190; 0x01DB7106;
    0x98D220BC; 0xEFD5102A; 0x71B18589; 0x06B6B51F; 0x9FBFE4A5; 0xE8B8D433;
    0x7807C9A2; 0x0F00F934; 0x9609A88E; 0xE10E9818; 0x7F6A0DBB; 0x086D3D2D;
    0x91646C97; 0xE6635C01; 0x6B6B51F4; 0x1C6C6162; 0x856530D8; 0xF262004E;
    0x6C0695ED; 0x1B01A57B; 0x8208F4C1; 0xF50FC457; 0x65B0D9C6; 0x12B7E950;
    0x8BBEB8EA; 0xFCB9887C; 0x62DD1DDF; 0x15DA2D49; 0x8CD37CF3; 0xFBD44C65;
    0x4DB26158; 0x3AB551CE; 0xA3BC0074; 0xD4BB30E2; 0x4ADFA541; 0x3DD895D7;
    0xA4D1C46D; 0xD3D6F4FB; 0x4369E96A; 0x346ED9FC; 0xAD678846; 0xDA60B8D0;
    0x44042D73; 0x33031DE5; 0xAA0A4C5F; 0xDD0D7CC9; 0x5005713C; 0x270241AA;
    0xBE0B1010; 0xC90C2086; 0x5768B525; 0x206F85B3; 0xB966D409; 0xCE61E49F;
    0x5EDEF90E; 0x29D9C998; 0xB0D09822; 0xC7D7A8B4; 0x59B33D17; 0x2EB40D81;
    0xB7BD5C3B; 0xC0BA6CAD; 0xEDB88320; 0x9ABFB3B6; 0x03B6E20C; 0x74B1D29A;
    0xEAD54739; 0x9DD277AF; 0x04DB2615; 0x73DC1683; 0xE3630B12; 0x94643B84;
    0x0D6D6A3E; 0x7A6A5AA8; 0xE40ECF0B; 0x9309FF9D; 0x0A00AE27; 0x7D079EB1;
    0xF00F9344; 0x8708A3D2; 0x1E01F268; 0x6906C2FE; 0xF762575D; 0x806567CB;
    0x196C3671; 0x6E6B06E7; 0xFED41B76; 0x89D32BE0; 0x10DA7A5A; 0x67DD4ACC;
    0xF9B9DF6F; 0x8EBEEFF9; 0x17B7BE43; 0x60B08ED5; 0xD6D6A3E8; 0xA1D1937E;
    0x38D8C2C4; 0x4FDFF252; 0xD1BB67F1; 0xA6BC5767; 0x3FB506DD; 0x48B2364B;
    0xD80D2BDA; 0xAF0A1B4C; 0x36034AF6; 0x41047A60; 0xDF60EFC3; 0xA867DF55;
    0x316E8EEF; 0x4669BE79; 0xCB61B38C; 0xBC66831A; 0x256FD2A0; 0x5268E236;
    0xCC0C7795; 0xBB0B4703; 0x220216B9; 0x5505262F; 0xC5BA3BBE; 0xB2BD0B28;
    0x2BB45A92; 0x5CB36A04; 0xC2D7FFA7; 0xB5D0CF31; 0x2CD99E8B; 0x5BDEAE1D;
    0x9B64C2B0; 0xEC63F226; 0x756AA39C; 0x026D930A; 0x9C0906A9; 0xEB0E363F;
    0x72076785; 0x05005713; 0x95BF4A82; 0xE2B87A14; 0x7BB12BAE; 0x0CB61B38;
    0x92D28E9B; 0xE5D5BE0D; 0x7CDCEFB7; 0x0BDBDF21; 0x86D3D2D4; 0xF1D4E242;
    0x68DDB3F8; 0x1FDA836E; 0x81BE16CD; 0xF6B9265B; 0x6FB077E1; 0x18B74777;
    0x88085AE6; 0xFF0F6A70; 0x66063BCA; 0x11010B5C; 0x8F659EFF; 0xF862AE69;
    0x616BFFD3; 0x166CCF45; 0xA00AE278; 0xD70DD2EE; 0x4E048354; 0x3903B3C2;
    0xA7672661; 0xD06016F7; 0x4969474D; 0x3E6E77DB; 0xAED16A4A; 0xD9D65ADC;
    0x40DF0B66; 0x37D83BF0; 0xA9BCAE53; 0xDEBB9EC5; 0x47B2CF7F; 0x30B5FFE9;
    0xBDBDF21C; 0xCABAC28A; 0x53B39330; 0x24B4A3A6; 0xBAD03605; 0xCDD70693;
    0x54DE5729; 0x23D967BF; 0xB3667A2E; 0xC4614AB8; 0x5D681B02; 0x2A6F2B94;
    0xB40BBE37; 0xC30C8EA1; 0x5A05DF1B; 0x2D02EF8D ].

(** What [load_text] prints. *)
Inductive message :=
| NoTableWarning (line_no : Z)
| CollisionWarning (line_no : Z) (raw_key : list Z) (hash_key : Z)
    (existing new_value : list Z)
| UnrecognisedLine (line_no : Z) (line : list Z).

(** The state [load_text] works on: the two attributes of the [SAGXT]
    object, the table [current_table] refers to (it is always one of the
    dictionaries held in [m_GxtData], so its name stands for it), and the
    lines printed. *)
Record loader := mkLoader {
  m_GxtData : gmap (list Z) (gmap Z (list Z));
  m_WideCharCollection : gset Z;
  current_table : option (list Z);
  stdout : list message
}.

Definition MAIN : list Z := codes "MAIN".

(** [str.splitlines] breaks at these characters, and at CR LF once. *)
Definition is_linebreak (c : Z) : bool :=
  ((10 <=? c) && (c <=? 13)) || ((28 <=? c) && (c <=? 30))
  || (c =? 0x85) || (c =? 0x2028) || (c =? 0x2029).

Fixpoint splitlines_from (cur : list Z) (s : list Z) : list (list Z) :=
  match s with
  | [] => match cur with [] => [] | _ => [rev cur] end
  | c :: s' =>
      if c =? 13 then
        match s' with
        | d :: s'' =>
            if d =? 10 then rev cur :: splitlines_from [] s''
            else rev cur :: splitlines_from [] s'
        | [] => [rev cur]
        end
      else if is_linebreak c then rev cur :: splitlines_from [] s'
      else splitlines_from (c :: cur) s'
  end.

Definition splitlines (s : list Z) : list (list Z) := splitlines_from [] s.

Fixpoint take_while (p : Z -> bool) (s : list Z) : list Z :=
  match s with
  | c :: s' => if p c then c :: take_while p s' else []
  | [] => []
  end.

Fixpoint drop_while (p : Z -> bool) (s : list Z) : list Z :=
  match s with
  | c :: s' => if p c then drop_while p s' else s
  | [] => []
  end.

Definition is_name_char (c : Z) : bool :=
  validate_digit_char c || validate_english_char c || (c =? 95).

(** [table_format.match(line)]: a bracket, one to seven characters of
    digits, letters and underscore (group 1), a closing bracket, white space
    to the end. *)
Definition table_format_match (line : list Z) : option (list Z) :=
  match line with
  | c :: rest =>
      let name := take_while is_name_char rest in
      match drop_while is_name_char rest with
      | d :: tail =>
          if (c =? 91) && (d =? 93)
             && (1 <=? len name) && (len name <=? 7)
             && forallb py_isspace tail
          then Some name else None
      | [] => None
      end
  | [] => None
  end.

Definition is_key_char (c : Z) : bool := negb (c =? 61) && negb (py_isspace c).

(** [entry_format.match(line)] on a line without line breaks: white space,
    a run of characters other than the equals sign and white space
    (group 1), white space, the equals sign, white space, the rest
    (group 2). *)
Definition entry_format_match (line : list Z) : option (list Z * list Z) :=
  let body := lstrip line in
  let raw_key := take_while is_key_char body in
  match raw_key, lstrip (drop_while is_key_char body) with
  | _ :: _, c :: rest => if c =? 61 then Some (raw_key, lstrip rest) else None
  | _, _ => None
  end.

(** [hex_check.match(raw_key)]: one to eight hexadecimal digits. *)
Definition hex_check (raw_key : list Z) : bool :=
  (1 <=? len raw_key) && (len raw_key <=? 8) && forallb is_hex_digit raw_key.

(** [str.upper] on the characters a table name can hold. *)
Definition ascii_upper (c : Z) : Z :=
  if (97 <=? c) && (c <=? 122) then c - 32 else c.

Section SAGXT_load.

(** [str.upper] on one character, a table of the Unicode database that the
    interpreter supplies.  It may return several characters. *)
Variable upper : Z -> list Z.

(** [gta_sa_hash] from a running value.  [ord] raises [TypeError] ([None])
    when the upper-cased character is not a single character. *)
Fixpoint gta_sa_hash_from (hash_val : Z) (key : list Z) : option Z :=
  match key with
  | [] => Some hash_val
  | char :: key' =>
      match upper char with
      | [c_upper] =>
          let c_byte := Z.land c_upper 0xFF in
          let idx := Z.land (Z.lxor hash_val c_byte) 0xFF in
          gta_sa_hash_from
            (Z.lxor (nth (Z.to_nat idx) CRC32_TABLE 0) (Z.shiftr hash_val 8))
            key'
      | _ => None
      end
  end.

Definition gta_sa_hash (key : list Z) : option Z :=
  gta_sa_hash_from 0xFFFFFFFF key.

(** The hash logic of an entry line. *)
Definition entry_hash_key (raw_key : list Z) : option Z :=
  if hex_check raw_key then Some (int16 raw_key) else gta_sa_hash raw_key.

(** The table a name refers to. *)
Definition table_of (data : gmap (list Z) (gmap Z (list Z)))
  (name : list Z) : gmap Z (list Z) :=
  default ∅ (data !! name).

(** The [elif entry_match] branch.  The flag is [false] when an exception
    leaves it; the state is the one reached by then. *)
Definition load_entry (line_no : Z) (raw_key text_value : list Z)
  (st : loader) : bool * loader :=
  let '(data, name, out) :=
    match current_table st with
    | Some name => (m_GxtData st, name, stdout st)
    | None =>
        (match m_GxtData st !! MAIN with
         | Some _ => m_GxtData st
         | None => <[MAIN := ∅]> (m_GxtData st)
         end,
         MAIN, stdout st ++ [NoTableWarning line_no])
    end in
  match entry_hash_key raw_key with
  | None =>
      (false,
       {| m_GxtData := data;
          m_WideCharCollection := m_WideCharCollection st;
          current_table := Some name;
          stdout := out |})
  | Some hash_key =>
      let table := table_of data name in
      let out :=
        match table !! hash_key with
        | Some existing =>
            if decide (existing = text_value) then out
            else out ++ [CollisionWarning line_no raw_key hash_key
                           existing text_value]
        | None => out
        end in
      (true,
       {| m_GxtData := <[name := <[hash_key := text_value]> table]> data;
          m_WideCharCollection :=
            m_WideCharCollection st ∪ list_to_set text_value;
          current_table := Some name;
          stdout := out |})
  end.

(** The [if table_match] branch. *)
Definition load_table_header (group1 : list Z) (st : loader) : loader :=
  let table_name := List.map ascii_upper group1 in
  {| m_GxtData :=
       match m_GxtData st !! table_name with
       | Some _ => m_GxtData st
       | None => <[table_name := ∅]> (m_GxtData st)
       end;
     m_WideCharCollection := m_WideCharCollection st;
     current_table := Some table_name;
     stdout := stdout st |}.

(** One iteration of the loop over the lines. *)
Definition load_text_line (line_no : Z) (raw_line : list Z) (st : loader)
  : bool * loader :=
  let line := strip raw_line in
  match line with
  | [] => (true, st)
  | c :: _ =>
      if c =? 59 then (true, st)
      else
        match table_format_match line, entry_format_match line with
        | Some group1, _ => (true, load_table_header group1 st)
        | None, Some (raw_key, text_value) =>
            load_entry line_no raw_key text_value st
        | None, None =>
            (true,
             {| m_GxtData := m_GxtData st;
                m_WideCharCollection := m_WideCharCollection st;
                current_table := current_table st;
                stdout := stdout st ++ [UnrecognisedLine line_no line] |})
        end
  end.

(** The loop over the lines, stopped by the first exception. *)
Fixpoint load_text_lines (line_no : Z) (lines : list (list Z)) (st : loader)
  : bool * loader :=
  match lines with
  | [] => (true, st)
  | line :: lines' =>
      match load_text_line line_no line st with
      | (true, st') => load_text_lines (line_no + 1) lines' st'
      | (false, st') => (false, st')
      end
  end.

(** [load_text] on the decoded content of an existing file: the value
    returned and the state of the object. *)
Definition load_text (raw_content : list Z) : bool * loader :=
  let raw_content :=
    match raw_content with
    | c :: rest => if c =? 0xFEFF then rest else raw_content
    | [] => raw_content
    end in
  load_text_lines 1 (splitlines raw_content)
    {| m_GxtData := ∅; m_WideCharCollection := ∅;
       current_table := None; stdout := [] |}.

End SAGXT_load.

(** ** Writing the San Andreas file: [SAGXT.save_as_gxt] *)

(** A binary file open for writing: the position and the bytes. *)
Record file := mkFile { fpos : Z; fbytes : list Z }.

Definition seek (offset : Z) (f : file) : file :=
  {| fpos := offset; fbytes := fbytes f |}.

Definition tell (f : file) : Z := fpos f.

(** [f.write(bs)]: the bytes replace what is at the position and extend the
    file; a gap left by a seek beyond the end reads as zeros. *)
Definition write (bs : list Z) (f : file) : file :=
  match bs with
  | [] => f
  | _ =>
      let p := Z.to_nat (fpos f) in
      let padded := fbytes f ++ repeat 0 (p - List.length (fbytes f)) in
      {| fpos := fpos f + len bs;
         fbytes := firstn p padded ++ bs
                   ++ skipn (p + List.length bs) padded |}
  end.

(** Python's order on [str]: lexicographic on the code points. *)
Fixpoint str_ltb (a b : list Z) : bool :=
  match a, b with
  | _, [] => false
  | [], _ :: _ => true
  | x :: a', y :: b' => (x <? y) || ((x =? y) && str_ltb a' b')
  end.

(** Python's order on the pairs [(hash_key, value)] of [entries.items()]. *)
Definition item_ltb (a b : Z * list Z) : bool :=
  (fst a <? fst b) || ((fst a =? fst b) && str_ltb (snd a) (snd b)).

Definition str_eqb (a b : list Z) : bool :=
  if decide (a = b) then true else false.

(** The order of the keys [_table_sort] returns: the pair of
    [name != 'MAIN'] and the name. *)
Definition table_ltb {V : Type} (a b : list Z * V) : bool :=
  let ka := negb (str_eqb (fst a) MAIN) in
  let kb := negb (str_eqb (fst b) MAIN) in
  (negb ka && kb) || (Bool.eqb ka kb && str_ltb (fst a) (fst b)).

(** [sorted]: a stable sort.  Each element goes before the first element
    that is greater than it. *)
Fixpoint insert_sorted {A : Type} (ltb : A -> A -> bool) (x : A)
  (l : list A) : list A :=
  match l with
  | [] => [x]
  | y :: l' => if ltb x y then x :: l else y :: insert_sorted ltb x l'
  end.

Definition py_sorted {A : Type} (ltb : A -> A -> bool) (l : list A)
  : list A :=
  fold_left (fun acc x => insert_sorted ltb x acc) l [].

Definition SizeOfTABL : Z := 12.
Definition SizeOfTKEY : Z := 8.

(** [_get_data_block_size]: [None] when a value cannot be encoded. *)
Fixpoint data_block_size_of (values : list (list Z)) : option Z :=
  match values with
  | [] => Some 0
  | v :: values' =>
      match utf8_encode v, data_block_size_of values' with
      | Some bs, Some n => Some (len bs + 1 + n)
      | _, _ => None
      end
  end.

Definition _get_data_block_size (table : gmap Z (list Z)) : option Z :=
  data_block_size_of (snd <$> map_to_list table).

(** [name_bytes.ljust(8, b'\x00')] for the ASCII part of the name cut to
    seven bytes. *)
Definition padded_name (table_name : list Z) : list Z :=
  let name_bytes := firstn 7 (List.filter (fun c => c <? 128) table_name) in
  name_bytes ++ repeat 0 (8 - List.length name_bytes).

(** The loop over the sorted entries of one table.  It carries the file,
    [current_tdat_data_pos] and [current_tkey_data_pos]; [None] when
    [encode] or [struct.pack] raises. *)
Fixpoint save_entries (tdat_offset : Z) (items : list (Z * list Z))
  (f : file) (current_tdat_data_pos current_tkey_data_pos : Z)
  : option (file * Z * Z) :=
  match items with
  | [] => Some (f, current_tdat_data_pos, current_tkey_data_pos)
  | (hash_key, value) :: items' =>
      match utf8_encode value with
      | None => None
      | Some encoded =>
          let text_bytes := encoded ++ [0] in
          let f := write text_bytes (seek current_tdat_data_pos f) in
          let data_offset := current_tdat_data_pos - tdat_offset - 8 in
          let current_tdat_data_pos := tell f in
          let f := seek current_tkey_data_pos f in
          match pack_u32 data_offset, pack_u32 hash_key with
          | Some o, Some h =>
              save_entries tdat_offset items' (write (o ++ h) f)
                current_tdat_data_pos (current_tkey_data_pos + SizeOfTKEY)
          | _, _ => None
          end
      end
  end.

(** The body of the loop over the tables.  It carries the file,
    [fo_table_block], [fo_key_block] and [key_block_offset]. *)
Definition save_table (table_name : list Z) (entries : gmap Z (list Z))
  (f : file) (fo_table_block fo_key_block key_block_offset : Z)
  : option (file * Z * Z * Z) :=
  let key_block_size := Z.of_nat (size entries) * SizeOfTKEY in
  match _get_data_block_size entries, pack_u32 key_block_offset,
        pack_u32 key_block_size with
  | Some data_block_size, Some kbo, Some kbs =>
      match pack_u32 data_block_size with
      | None => None
      | Some dbs =>
          let f := seek fo_table_block f in
          let f := write (padded_name table_name) f in
          let f := write kbo f in
          let fo_table_block := fo_table_block + SizeOfTABL in
          let f := seek fo_key_block f in
          let f := if str_eqb table_name MAIN then f
                   else write (padded_name table_name) f in
          let f := write (codes "TKEY") f in
          let f := write kbs f in
          let current_tkey_data_pos := tell f in
          let fo_key_block := current_tkey_data_pos + key_block_size in
          let f := seek fo_key_block f in
          let tdat_offset := tell f in
          let f := write (codes "TDAT") f in
          let f := write dbs f in
          let current_tdat_data_pos := tell f in
          match save_entries tdat_offset
                  (py_sorted item_ltb (map_to_list entries)) f
                  current_tdat_data_pos current_tkey_data_pos with
          | Some (f, current_tdat_data_pos, _) =>
              Some (f, fo_table_block, current_tdat_data_pos,
                    current_tdat_data_pos)
          | None => None
          end
      end
  | _, _, _ => None
  end.

Fixpoint save_tables (sorted_tables : list (list Z * gmap Z (list Z)))
  (f : file) (fo_table_block fo_key_block key_block_offset : Z)
  : option file :=
  match sorted_tables with
  | [] => Some f
  | (table_name, entries) :: rest =>
      match save_table table_name entries f fo_table_block fo_key_block
              key_block_offset with
      | Some (f, fo_table_block, fo_key_block, key_block_offset) =>
          save_tables rest f fo_table_block fo_key_block key_block_offset
      | None => None
      end
  end.

Definition sorted_tables (data : gmap (list Z) (gmap Z (list Z)))
  : list (list Z * gmap Z (list Z)) :=
  py_sorted table_ltb (map_to_list data).

(** [save_as_gxt] on [m_GxtData]: the bytes of the file written; [None]
    when an exception stops the writing. *)
Definition save_as_gxt (data : gmap (list Z) (gmap Z (list Z)))
  : option (list Z) :=
  let f := write [4; 0] {| fpos := 0; fbytes := [] |} in
  let f := write [8; 0] f in
  let f := write (codes "TABL") f in
  let table_block_size := Z.of_nat (size data) * SizeOfTABL in
  match pack_u32 table_block_size with
  | None => None
  | Some tbs =>
      let f := write tbs f in
      let fo_table_block := 12 in
      let fo_key_block := 12 + table_block_size in
      let key_block_offset := fo_key_block in
      match save_tables (sorted_tables data) f fo_table_block fo_key_block
              key_block_offset with
      | Some f => Some (fbytes f)
      | None => None
      end
  end.

(** * Further code of the two modules *)

(** ** Writing a ledger: [CHtmlTextExport.ExportText] *)

(** [str_bytes.decode('windows-1252', errors='replace')]: U+FFFD for each
    undefined byte. *)
Definition decode_cp1252_replace (str_bytes : list Z) : list Z :=
  List.map
    (fun b => match decode_cp1252_char b with Some c => c | None => 0xFFFD end)
    str_bytes.

(** [Windows1252ToUtf8]: the strict decoding, and the replacing one when it
    raises. *)
Definition Windows1252ToUtf8 (str_bytes : list Z) : list Z :=
  match decode_cp1252 str_bytes with
  | Some s => s
  | None => decode_cp1252_replace str_bytes
  end.

(** [s.replace(a, r)] for a one-character pattern. *)
Fixpoint replace1 (a : Z) (r : list Z) (s : list Z) : list Z :=
  match s with
  | [] => []
  | x :: s' => (if x =? a then r else [x]) ++ replace1 a r s'
  end.

(** The two escapes of [ExportText]: the line feed, then the carriage
    return, each to a backslash and a letter. *)
Definition escape (text : list Z) : list Z :=
  replace1 13 [92; 114] (replace1 10 [92; 110] text).

(** What [ExportText] writes for one entry: the commented original line,
    the editable line and an empty line. *)
Definition export_entry (entry : ExportedTextEntry) : list Z :=
  let utf8_str_escaped := escape (Windows1252ToUtf8 (str entry)) in
  (codes ";0x" ++ format_08X (hash entry) ++ codes "="
   ++ utf8_str_escaped ++ [10])
  ++ (codes "0x" ++ format_08X (hash entry) ++ codes "=" ++ [10; 10]).

(** [ExportText]: the text of the file written, the byte-order mark first;
    [None] when the container is empty and no file is written. *)
Definition ExportText (container : list ExportedTextEntry)
  : option (list Z) :=
  match container with
  | [] => None
  | _ => Some (0xFEFF :: flat_map export_entry container)
  end.

(** The lines a text file yields when it is opened for reading with the
    encoding [utf-8-sig] and iterated: a leading byte-order mark is dropped;
    a line ends at a line feed, at a carriage return or at the pair of
    them, read as one line feed that stays at the end of the line. *)
Fixpoint stream_lines_from (cur : list Z) (s : list Z) : list (list Z) :=
  match s with
  | [] => match cur with [] => [] | _ => [rev cur] end
  | c :: s' =>
      if c =? 13 then
        match s' with
        | d :: s'' =>
            if d =? 10 then rev (10 :: cur) :: stream_lines_from [] s''
            else rev (10 :: cur) :: stream_lines_from [] s'
        | [] => [rev (10 :: cur)]
        end
      else if c =? 10 then rev (10 :: cur) :: stream_lines_from [] s'
      else stream_lines_from (c :: cur) s'
  end.

Definition stream_lines (content : list Z) : list (list Z) :=
  match content with
  | c :: rest =>
      if c =? 0xFEFF then stream_lines_from [] rest
      else stream_lines_from [] content
  | [] => []
  end.

(** ** A run over several files: [CHtmlTextExport.ExportHtml] *)

(** The loop of [ExportHtml] over the arenas of the files found, an
    unreadable file being an empty arena: the container of each file, with
    the set of hashes carried from file to file.  [None] when a walk leaves
    the model. *)
Fixpoint ExportHtml_from (py : interpreter) (depth : nat)
  (blocks : list (list Z)) (hashes0 : gset Z)
  : option (list (list ExportedTextEntry)) :=
  match blocks with
  | [] => Some []
  | block :: blocks' =>
      match ExtractWhmStrings py depth block hashes0 with
      | None => None
      | Some s =>
          match ExportHtml_from py depth blocks' (hashes s) with
          | Some rest => Some (container s :: rest)
          | None => None
          end
      end
  end.

Definition ExportHtml (py : interpreter) (depth : nat)
  (blocks : list (list Z)) : option (list (list ExportedTextEntry)) :=
  ExportHtml_from py depth blocks ∅.

(** ** The font table: [SAGXT.generate_qcjw_stuff] *)

(** The loop of [generate_qcjw_stuff] over the sorted characters: the
    character, row and column that each line of [TABLE.txt] carries.  The
    line is written before the character is encoded for [CHARACTERS.txt];
    [encode('utf-16le')] raises on a code point that is not a scalar value,
    which ends the loop. *)
Fixpoint qcjw_table (chars : list Z) (row column : Z)
  : list (Z * Z * Z) :=
  match chars with
  | [] => []
  | char :: chars' =>
      if char <=? 0x7F then qcjw_table chars' row column
      else
        (char, row, column)
        :: (if is_scalar char then
              if column <? 63 then qcjw_table chars' row (column + 1)
              else qcjw_table chars' (row + 1) 0
            else [])
  end.

Definition generate_qcjw_stuff (m_WideCharCollection : gset Z)
  : list (Z * Z * Z) :=
  qcjw_table (py_sorted Z.ltb (elements m_WideCharCollection)) 0 0.

(** ** The hash of [SAGXT.py] without its table *)

(** One step of the reflected CRC-32 register with the polynomial
    [0xEDB88320], and [k] steps. *)
Definition crc_step (x : Z) : Z :=
  if Z.testbit x 0 then Z.lxor (Z.shiftr x 1) 0xEDB88320 else Z.shiftr x 1.

Fixpoint crc_steps (k : nat) (x : Z) : Z :=
  match k with
  | O => x
  | S k' => crc_steps k' (crc_step x)
  end.

(** The register after the bytes of a message, eight steps for each. *)
Definition crc_bytes (init : Z) (msg : list Z) : Z :=
  fold_left (fun h b => crc_steps 8 (Z.lxor h b)) msg init.

(** ** What a walk may do to the state *)

(** [grows s s']: the state [s'] is [s] with entries appended whose hashes
    are new and pairwise distinct, each the FNV-1a hash of an accepted
    string, with these hashes added to the set and messages appended. *)
Definition grows (s s' : walk_state) : Prop :=
  exists added : list ExportedTextEntry,
    container s' = container s ++ added
    /\ hashes s' = hashes s ∪ list_to_set (List.map hash added)
    /\ List.NoDup (List.map hash added)
    /\ (forall e, In e added ->
          (hash e ∉ hashes s) /\ hash e = fnv1a_32 (str e)
          /\ validate_string (str e) = true)
    /\ exists msgs, stderr s' = stderr s ++ msgs.

Definition outcome_grows (s : walk_state) (o : outcome) : Prop :=
  match o with
  | Done s' => grows s s'
  | Raised s' => grows s s'
  | Unmodelled => True
  end.


(** What the two escapes of [ExportText] do to one character. *)
Definition escape_char (x : Z) : list Z :=
  if x =? 10 then [92; 110] else if x =? 13 then [92; 114] else [x].

(** The [k] hexadecimal digits of a number from the most significant down,
    in upper case. *)
Definition hex_digits (k : nat) (n : Z) : list Z :=
  List.map (fun i => hex_digit_char ((n / 16 ^ Z.of_nat i) mod 16))
    (rev (seq 0 k)).

(** ** What [load_text] keeps true of the object *)

(** A table name as [load_text] stores it: one to seven characters, each a
    digit, an upper-case letter or the underscore. *)
Definition table_name_ok (name : list Z) : Prop :=
  1 <= len name <= 7
  /\ Forall (fun c => 48 <= c <= 57 \/ 65 <= c <= 90 \/ c = 95) name.

(** The tables have such names and keys of 32 bits, every character of a
    stored value is in the collection, and the current table is one of the
    tables. *)
Definition loader_ok (st : loader) : Prop :=
  (forall name table,
     m_GxtData st !! name = Some table ->
     table_name_ok name
     /\ forall h v,
          table !! h = Some v ->
          0 <= h < 2 ^ 32
          /\ Forall (fun c => c ∈ m_WideCharCollection st) v)
  /\ forall name,
       current_table st = Some name -> is_Some (m_GxtData st !! name).

(** ** The order of the tables in the file *)

(** The order of the keys of [_table_sort] on names: [MAIN] before every
    other name, the other names in the order of Python's strings. *)
Definition name_before (a b : list Z) : Prop :=
  b <> MAIN /\ (a = MAIN \/ str_ltb a b = true).

(** Every character of every value of the tables satisfies [P]. *)
Definition values_from (P : Z -> Prop)
  (data : gmap (list Z) (gmap Z (list Z))) : Prop :=
  forall name table h v,
    data !! name = Some table -> table !! h = Some v -> Forall P v.

(** * Properties and examples

    The rules of the specification in its own words, the rules the code
    follows, and the concrete inputs the theorems are tried on. *)

(** The specification's rule, in its words: when the nominal count, the
    larger of count and capacity, would overrun the arena, the number of
    elements read is the smaller of the two, here whenever that many
    elements do stay within bounds. *)
Definition clamps_to_smaller : Prop :=
  forall (a : pgObjectArray) (block : list Z) (element_size : Z),
    0 < element_size ->
    0 <= count a < 65536 -> 0 <= size_ a < 65536 ->
    pgObjectArray_t a = Cpu_Type ->
    len block <
      pgObjectArray_o a + Z.max (count a) (size_ a) * element_size ->
    pgObjectArray_o a + Z.min (count a) (size_ a) * element_size
      <= len block ->
    len (fst (get_span a block element_size)) = Z.min (count a) (size_ a).

(** The character classes of the specification. *)
Definition efigs_letter (c : Z) : Prop :=
  65 <= c <= 90 \/ 97 <= c <= 122 \/ 0xC0 <= c.

Definition url_byte (c : Z) : Prop :=
  65 <= c <= 90 \/ 97 <= c <= 122 \/ 48 <= c <= 57
  \/ c = 46 \/ c = 37 \/ c = 64 \/ c = 45 \/ c = 95.

(** The URL rule in the specification's words: every byte is a URL byte and
    some full stop is neither the first nor the last character. *)
Definition spec_url (view : list Z) : Prop :=
  (forall c, In c view -> url_byte c)
  /\ exists i : nat,
       nth_error view i = Some 46 /\ (0 < i)%nat
       /\ (S i < List.length view)%nat.

(** The URL rule of the code: every byte is a URL byte, there is a full
    stop, and neither the first nor the last character is a full stop. *)
Definition code_url (view : list Z) : Prop :=
  (forall c, In c view -> url_byte c)
  /\ In 46 view /\ hd_error view <> Some 46 /\ List.last view 0 <> 46.

Definition has_efigs (view : list Z) : Prop :=
  exists c, In c view /\ efigs_letter c.

(** The acceptance rule with the specification's URL rule. *)
Definition accepted_iff_specified : Prop :=
  forall view : list Z,
    view <> [] ->
    (validate_string view = true <-> has_efigs view /\ ~ spec_url view).

(** A text is blank when every character is a space or a tab. *)
Definition blank (text : list Z) : Prop :=
  forall c, In c text -> c = 32 \/ c = 9.

(** The specification's rule, in its words: an entry line whose key
    resolves to a hash that the current table already holds with a
    different text is rejected, and the existing entry stays. *)
Definition collision_rejected : Prop :=
  forall (upper : Z -> list Z) (line_no : Z) (raw_key text_value : list Z)
         (st : loader) (name : list Z) (hash_key : Z) (existing : list Z),
    current_table st = Some name ->
    entry_hash_key upper raw_key = Some hash_key ->
    table_of (m_GxtData st) name !! hash_key = Some existing ->
    existing <> text_value ->
    table_of
      (m_GxtData (snd (load_entry upper line_no raw_key text_value st)))
      name !! hash_key = Some existing.

(** The file of three lines [[MAIN]], [FACE=one], [0000FACE=two]. *)
Definition colliding_file : list Z :=
  codes "[MAIN]" ++ [10] ++ codes "FACE=one" ++ [10] ++ codes "0000FACE=two".

(** The state after the first two lines: the table [MAIN] holds the hash
    [0xFACE] with the text [one]. *)
Definition colliding_state : loader :=
  {| m_GxtData := {[ MAIN := {[ 0xFACE := codes "one" ]} ]};
     m_WideCharCollection := ∅;
     current_table := Some MAIN;
     stdout := [] |}.

(** The call of [get_span] and the loop over the children of a node, as
    [ExtractNodeStrings] runs them with [depth] nested calls left. *)
Definition walk_children (py : interpreter) (depth : nat) (node : Z)
  (block : list Z) (s : walk_state) : outcome :=
  if (depth <? frames_helpers py)%nat then Raised s
  else
    let '(span, msgs) :=
      get_span (read_array block (node + offset_m_children)) block
        sizeof_pgPtr in
    fold_left
      (fun acc element_ptr =>
         match acc with
         | Done s1 =>
             match locate (read_u32 block element_ptr) block
                     (c_struct sizeof_CHtmlNode) with
             | Some (LStruct child_node) =>
                 ExtractNodeStrings py depth child_node block s1
             | _ => Done s1
             end
         | _ => acc
         end)
      span (Done (warn msgs s)).

(** Little-endian bytes, for building arenas. *)
Definition le16 (x : Z) : list Z := [x mod 256; x / 256 mod 256].
Definition le32 (x : Z) : list Z :=
  [x mod 256; x / 256 mod 256; x / 65536 mod 256; x / 16777216 mod 256].

(** The bytes of a [CHtmlNode] with a zeroed render state. *)
Definition node_bytes (m_eNodeType children count size : Z) : list Z :=
  le32 0 ++ le32 m_eNodeType ++ le32 0
  ++ le32 children ++ le16 count ++ le16 size
  ++ repeat 0 (Z.to_nat sizeof_HtmlRenderState).

(** An arena: the document at 0 with its body at 48; the body, of the
    unknown kind 7, with one child; the child array at 264; the child, a
    data node, at 268; its text [Hello] at 488. *)
Definition unknown_kind_arena : list Z :=
  le32 0 ++ le32 (0x50000000 + 48) ++ repeat 0 36 ++ repeat 0 4
  ++ node_bytes 7 (0x50000000 + 264) 1 1
  ++ le32 (0x50000000 + 268)
  ++ node_bytes 1 0 0 0 ++ le32 (0x50000000 + 488)
  ++ codes "Hello" ++ [0].

Definition empty_walk : walk_state :=
  {| container := []; hashes := ∅; stderr := [] |}.

(** The specification's rule, in its words: a node of unknown kind aborts
    the extraction of its whole subtree, so a walk from it that ends
    normally emits no string. *)
Definition unknown_kind_skips_subtree : Prop :=
  forall (py : interpreter) (depth : nat) (node : Z) (block : list Z)
    (s s' : walk_state),
    HtmlNodeType_of (read_u32 block (node + offset_m_eNodeType)) = None ->
    ExtractNodeStrings py depth node block s = Done s' ->
    container s' = container s.

(** An interpreter for the examples: [get_span] and [locate] nest three
    calls deep, the cast one, and [TryAppendString] seven. *)
Definition example_interpreter : interpreter :=
  {| frames_helpers := 3; frames_cast := 1;
     frames_TryAppendString := fun _ => 7%nat |}.

Definition utf8_bytes (s : list Z) : list Z := flat_map utf8_char s.

(** The bytes [GenerateDataBase] stores for the text of one entry. *)
Definition encoded_str (entry : ExportedTextEntry) : list Z :=
  match utf8_encode (str entry) with
  | Some bs => bs
  | None => utf8_encode_replace (str entry)
  end.

(** The data block: the strings in insertion order, a null after each. *)
Fixpoint blob_of (texts : list ExportedTextEntry) : list Z :=
  match texts with
  | [] => []
  | entry :: texts' => encoded_str entry ++ 0 :: blob_of texts'
  end.

(** The rows: each hash with the offset at which its string starts, for a
    data block that already holds [base] bytes. *)
Fixpoint rows_of (base : Z) (texts : list ExportedTextEntry)
  : list WhmTextData :=
  match texts with
  | [] => []
  | entry :: texts' =>
      mkRow (hash entry) base
      :: rows_of (base + len (encoded_str entry) + 1) texts'
  end.

Definition row_bytes (rows : list WhmTextData) : list Z :=
  flat_map (fun r => le32 (row_hash r) ++ le32 (row_offset r)) rows.

(** A text of the ledger that the database can hold: Unicode scalar values,
    none of them the null character. *)
Definition storable (text : list Z) : Prop :=
  Forall (fun c => is_scalar c = true /\ c <> 0) text.

(** An entry with its hash as the [c_uint] field of its row holds it. *)
Definition stored_entry (entry : ExportedTextEntry) : ExportedTextEntry :=
  mkEntry (c_uint (hash entry)) (str entry).

(** Two lists of entries that [LoadText] can return: one entry whose text
    holds a line feed, and two entries. *)
Definition one_entry_two_lines : list ExportedTextEntry :=
  [mkEntry 1 (codes "a" ++ [10] ++ codes "0x00000002=b")].

Definition two_plain_entries : list ExportedTextEntry :=
  [mkEntry 1 (codes "a"); mkEntry 2 (codes "b")].

Definition two_entries : list ExportedTextEntry :=
  [mkEntry 0x11223344 (codes "Hi");
   mkEntry 5 (codes "Caf" ++ [0xE9; 0x4E2D; 0x1F600])].

(** The byte of a file at an offset; zero beyond the end. *)
Definition fbyte (f : file) (j : Z) : Z := byte_at (fbytes f) j.

(** A 32-bit field of a file. *)
Definition fword (f : file) (off : Z) : Z := read_u32 (fbytes f) off.

(** The hashes of a list of items, in order. *)
Definition hashes_of (items : list (Z * list Z)) : list Z :=
  List.map fst items.

(** The offset of the [TKEY] tag from the start of a table's block: tables
    other than [MAIN] repeat their name first. *)
Definition tkey_skip (table_name : list Z) : Z :=
  if str_eqb table_name MAIN then 0 else 8.

(** The file when the header of a table has been written and the entry loop
    is about to start. *)
Definition table_header (table_name : list Z) (K kbs dbs : Z) (f : file)
  (T S : Z) : file :=
  let f := write (padded_name table_name) (seek T f) in
  let f := write (le32 K) f in
  let f := seek S f in
  let f := if str_eqb table_name MAIN then f
           else write (padded_name table_name) f in
  let f := write (codes "TKEY") f in
  let f := write (le32 kbs) f in
  let f := seek (S + tkey_skip table_name + 8 + kbs) f in
  let f := write (codes "TDAT") f in
  write (le32 dbs) f.

(** What the file holds for the table whose directory entry is at [T]. *)
Definition table_at (out : file) (T : Z) (table_name : list Z)
  (entries : gmap Z (list Z)) : Prop :=
  let key_block_offset := fword out (T + 8) in
  let tkey := key_block_offset + tkey_skip table_name in
  (forall k, 0 <= k < 4 -> fbyte out (tkey + k) = byte_at (codes "TKEY") k)
  /\ fword out (tkey + 4) = 8 * Z.of_nat (size entries)
  /\ forall (i : nat) (item : Z * list Z),
       nth_error (py_sorted item_ltb (map_to_list entries)) i = Some item ->
       fword out (tkey + 8 + 8 * Z.of_nat i + 4) = fst item.

(** A document of one table with two entries, and the file written. *)
Definition example_main : gmap Z (list Z) :=
  <[0xAAAA := codes "one"]> (<[1 := codes "two"]> ∅).

Definition example_tables : gmap (list Z) (gmap Z (list Z)) :=
  <[MAIN := example_main]> ∅.

Definition example_gxt : list Z :=
  Eval vm_compute in default [] (save_as_gxt example_tables).

(** What the file holds of the values of the table whose directory entry is
    at [T]: after the key records the tag [TDAT] and the size of the data
    block; and for each entry, in the order of the records, an offset in
    its record that leads, from the start of the data, to the UTF-8 bytes
    of its value and a null byte, inside the data block. *)
Definition table_data_at (out : file) (T : Z) (table_name : list Z)
  (entries : gmap Z (list Z)) : Prop :=
  let key_block_offset := fword out (T + 8) in
  let tkey := key_block_offset + tkey_skip table_name in
  let tdat := tkey + 8 + 8 * Z.of_nat (size entries) in
  (forall k, 0 <= k < 4 -> fbyte out (tdat + k) = byte_at (codes "TDAT") k)
  /\ Some (fword out (tdat + 4)) = _get_data_block_size entries
  /\ forall (i : nat) (item : Z * list Z),
       nth_error (py_sorted item_ltb (map_to_list entries)) i = Some item ->
       exists encoded,
         utf8_encode (snd item) = Some encoded
         /\ let data_offset := fword out (tkey + 8 + 8 * Z.of_nat i) in
            0 <= data_offset
            /\ data_offset + len encoded + 1 <= fword out (tdat + 4)
            /\ (forall j, 0 <= j < len encoded ->
                fbyte out (tdat + 8 + data_offset + j) = byte_at encoded j)
            /\ fbyte out (tdat + 8 + data_offset + len encoded) = 0.

(** Where the blocks of the tables end, from the offset [S] of the first
    key block: each table takes its name unless it is [MAIN], the header of
    the key block, a record of 8 bytes for each entry, the header of the
    data block and the data block. *)
Fixpoint tables_end (tables : list (list Z * gmap Z (list Z))) (S : Z) : Z :=
  match tables with
  | [] => S
  | (table_name, entries) :: rest =>
      tables_end rest
        (S + tkey_skip table_name + 8 + 8 * Z.of_nat (size entries) + 8
         + default 0 (_get_data_block_size entries))
  end.

(** The length of the file [save_as_gxt] writes: the header and the table
    directory of 12 bytes each entry, then the blocks of the tables. *)
Definition gxt_length (data : gmap (list Z) (gmap Z (list Z))) : Z :=
  tables_end (sorted_tables data) (12 + 12 * Z.of_nat (size data)).

(** A table [save_as_gxt] can write: keys of 32 bits and values without
    surrogate code points. *)
Definition table_writable (entries : gmap Z (list Z)) : Prop :=
  forall h v,
    entries !! h = Some v ->
    0 <= h < 2 ^ 32 /\ Forall (fun c => is_surrogate c = false) v.

(** * Theorems *)

(** ** Bit fields as quotients and remainders *)

Lemma bits_div_mod (flags lo w : Z) :
  0 <= lo -> 0 <= w -> bits flags lo w = (flags / 2 ^ lo) mod 2 ^ w.
Proof.
  intros Hlo Hw. unfold bits.
  rewrite Z.shiftr_div_pow2 by assumption.
  replace (Z.shiftl 1 w - 1) with (Z.ones w).
  - apply Z.land_ones; assumption.
  - rewrite Z.ones_equiv, Z.shiftl_1_l. lia.
Qed.

Lemma bits_range (flags lo w : Z) :
  0 <= lo -> 0 <= w -> 0 <= bits flags lo w < 2 ^ w.
Proof.
  intros Hlo Hw. rewrite bits_div_mod by assumption.
  apply Z.mod_pos_bound. apply Z.pow_pos_nonneg; lia.
Qed.

(** ** The resource size formula *)

(** C9.  For every 32-bit flags word, the thirteen fields are the bit
    groups 0, 1, 2, 3, 4-10, 11-14 (virtual) and 15, 16, 17, 18, 19-25,
    26-29 (physical); a page size is 1 shifted left by the exponent plus 8,
    a region size is the page size times the sum of the four flags weighted
    1, 2, 4, 8 and of 16 times the 7-bit count, and the expected
    decompressed size is the sum of the two region sizes.  When
    [virtual1xPageFlag] is 1 and every other virtual and physical field,
    both exponents included, is 0, the virtual size is 256, the physical
    size is 0 and the expected size is 256. *)
Theorem rsc_flag_size_formula (flags : Z) :
  0 <= flags < 2 ^ 32 ->
  (virtual1xPageSize flags = (flags / 2 ^ 11) mod 16
   /\ physical1xPageSize flags = (flags / 2 ^ 26) mod 16
   /\ virtual16xPageCount flags = (flags / 2 ^ 4) mod 128
   /\ physical16xPageCount flags = (flags / 2 ^ 19) mod 128
   /\ virtual1xPageFlag flags = flags mod 2
   /\ virtual2xPageFlag flags = (flags / 2) mod 2
   /\ virtual4xPageFlag flags = (flags / 4) mod 2
   /\ virtual8xPageFlag flags = (flags / 8) mod 2
   /\ physical1xPageFlag flags = (flags / 2 ^ 15) mod 2
   /\ physical2xPageFlag flags = (flags / 2 ^ 16) mod 2
   /\ physical4xPageFlag flags = (flags / 2 ^ 17) mod 2
   /\ physical8xPageFlag flags = (flags / 2 ^ 18) mod 2)
  /\ GetVirtualPageSize flags = 2 ^ (virtual1xPageSize flags + 8)
  /\ GetPhysicalPageSize flags = 2 ^ (physical1xPageSize flags + 8)
  /\ GetVirtualSize flags =
       GetVirtualPageSize flags *
       (1 * virtual1xPageFlag flags + 2 * virtual2xPageFlag flags
        + 4 * virtual4xPageFlag flags + 8 * virtual8xPageFlag flags
        + 16 * virtual16xPageCount flags)
  /\ GetPhysicalSize flags =
       GetPhysicalPageSize flags *
       (1 * physical1xPageFlag flags + 2 * physical2xPageFlag flags
        + 4 * physical4xPageFlag flags + 8 * physical8xPageFlag flags
        + 16 * physical16xPageCount flags)
  /\ uncompressed_size flags = GetVirtualSize flags + GetPhysicalSize flags
  /\ (virtual1xPageFlag flags = 1 -> virtual1xPageSize flags = 0 ->
      virtual2xPageFlag flags = 0 -> virtual4xPageFlag flags = 0 ->
      virtual8xPageFlag flags = 0 -> virtual16xPageCount flags = 0 ->
      physical1xPageFlag flags = 0 -> physical2xPageFlag flags = 0 ->
      physical4xPageFlag flags = 0 -> physical8xPageFlag flags = 0 ->
      physical16xPageCount flags = 0 -> physical1xPageSize flags = 0 ->
      GetVirtualSize flags = 256 /\ GetPhysicalSize flags = 0
      /\ uncompressed_size flags = 256).
Proof.
  intros Hflags.
  split.
  { unfold virtual1xPageSize, physical1xPageSize, virtual16xPageCount,
      physical16xPageCount, virtual1xPageFlag, virtual2xPageFlag,
      virtual4xPageFlag, virtual8xPageFlag, physical1xPageFlag,
      physical2xPageFlag, physical4xPageFlag, physical8xPageFlag.
    rewrite !bits_div_mod by lia.
    change (2 ^ 0) with 1. rewrite Z.div_1_r.
    repeat split; reflexivity. }
  assert (Hv := bits_range flags 11 4 ltac:(lia) ltac:(lia)).
  assert (Hp := bits_range flags 26 4 ltac:(lia) ltac:(lia)).
  fold (virtual1xPageSize flags) in Hv. fold (physical1xPageSize flags) in Hp.
  split; [unfold GetVirtualPageSize; apply Z.shiftl_1_l|].
  split; [unfold GetPhysicalPageSize; apply Z.shiftl_1_l|].
  split; [unfold GetVirtualSize; f_equal; lia|].
  split; [unfold GetPhysicalSize; f_equal; lia|].
  split; [reflexivity|].
  intros V1 VS V2 V4 V8 VC P1 P2 P4 P8 PC PS.
  unfold uncompressed_size, GetVirtualSize, GetPhysicalSize,
    GetVirtualPageSize, GetPhysicalPageSize.
  rewrite V1, VS, V2, V4, V8, VC, P1, P2, P4, P8, PC, PS.
  repeat split; reflexivity.
Qed.

Lemma rsc_flag_size_formula_witness :
  GetVirtualSize 1 = 256 /\ GetPhysicalSize 1 = 0
  /\ uncompressed_size 1 = 256.
Proof.
  apply (rsc_flag_size_formula 1); [lia | reflexivity ..].
Defined.

(** ** Tagged offsets *)

Lemma pgPtr_t_div (v : Z) : 0 <= v < 2 ^ 32 -> pgPtr_t v = v / 2 ^ 28.
Proof.
  intros Hv. unfold pgPtr_t.
  rewrite Z.shiftr_div_pow2 by lia.
  change 0xF with (Z.ones 4). rewrite Z.land_ones by lia.
  apply Z.mod_small. split.
  - apply Z.div_pos; lia.
  - apply Z.div_lt_upper_bound; lia.
Qed.

Lemma pgPtr_o_mod (v : Z) : pgPtr_o v = v mod 2 ^ 28.
Proof.
  unfold pgPtr_o. change 0x0FFFFFFF with (Z.ones 28).
  apply Z.land_ones. lia.
Qed.

Lemma locate_wrong_tag (v : Z) (block : list Z) (st : struct_type) :
  pgPtr_t v <> Cpu_Type -> locate v block st = None.
Proof.
  intros Ht. unfold locate.
  destruct (pgPtr_t v =? Cpu_Type) eqn:E; [apply Z.eqb_eq in E; contradiction|].
  now rewrite orb_true_r.
Qed.

Lemma locate_beyond (v : Z) (block : list Z) (st : struct_type) :
  len block <= pgPtr_o v -> locate v block st = None.
Proof.
  intros Ho. unfold locate.
  destruct ((len block =? 0) || negb (pgPtr_t v =? Cpu_Type)); [reflexivity|].
  destruct (len block <=? pgPtr_o v) eqn:E; [reflexivity|].
  apply Z.leb_gt in E. lia.
Qed.

(** C2.  For every 32-bit value the tag is the top 4 bits and the offset
    the low 28 bits; [0x5000000A] has tag 5 and offset [0xA].  [locate] is a
    total function into an option: against any arena and for any requested
    type it returns absent when the tag is not 5, hence always for tag 6,
    and when the offset is at or beyond the arena length. *)
Theorem pgPtr_locate_safe (v : Z) (block : list Z) (st : struct_type) :
  0 <= v < 2 ^ 32 ->
  pgPtr_t v = v / 2 ^ 28
  /\ pgPtr_o v = v mod 2 ^ 28
  /\ v = pgPtr_t v * 2 ^ 28 + pgPtr_o v
  /\ (pgPtr_t 0x5000000A = 5 /\ pgPtr_o 0x5000000A = 0xA)
  /\ (pgPtr_t v <> 5 -> locate v block st = None)
  /\ (pgPtr_t v = Gpu_Type -> locate v block st = None)
  /\ (len block <= pgPtr_o v -> locate v block st = None)
  /\ (locate v block st = None
      \/ exists r, locate v block st = Some r).
Proof.
  intros Hv.
  split; [apply pgPtr_t_div; assumption|].
  split; [apply pgPtr_o_mod|].
  split.
  { rewrite pgPtr_t_div, pgPtr_o_mod by assumption.
    pose proof (Z.div_mod v (2 ^ 28) ltac:(lia)). lia. }
  split; [split; reflexivity|].
  split; [apply locate_wrong_tag|].
  split.
  { intros Ht. apply locate_wrong_tag. rewrite Ht. discriminate. }
  split; [apply locate_beyond|].
  destruct (locate v block st) as [r|]; [right; exists r; reflexivity | left; reflexivity].
Qed.

Lemma pgPtr_locate_safe_witness :
  locate 0x6000000A (repeat 0 32) c_char = None.
Proof.
  destruct (pgPtr_locate_safe 0x6000000A (repeat 0 32) c_char ltac:(lia))
    as (_ & _ & _ & _ & _ & Hgpu & _).
  apply Hgpu. reflexivity.
Defined.

(** ** Counted arrays *)

Lemma span_loop_in_bounds (block : list Z) (offset element_size : Z)
  (n : nat) (i : Z) :
  0 <= offset -> 0 <= element_size -> 0 <= i ->
  offset + (i + Z.of_nat n) * element_size <= len block ->
  span_loop block offset element_size i n =
    (List.map (fun k => offset + (i + Z.of_nat k) * element_size) (seq 0 n),
     []).
Proof.
  intros Hoff Hes. revert i. induction n as [|n IH]; intros i Hi Hfit.
  - reflexivity.
  - cbn [span_loop]. unfold from_buffer.
    assert (Hin : offset + i * element_size + element_size <= len block) by nia.
    destruct ((0 <=? offset + i * element_size)
              && (offset + i * element_size + element_size <=? len block)) eqn:E.
    + rewrite IH by (try lia; nia).
      cbn [seq List.map]. rewrite <- seq_shift, List.map_map.
      f_equal. f_equal.
      * f_equal. lia.
      * apply List.map_ext. intros k. f_equal. lia.
    + apply andb_false_iff in E. destruct E as [E|E].
      * apply Z.leb_gt in E. nia.
      * apply Z.leb_gt in E. lia.
Qed.

(** C7, as stated, fails: with count 2 and capacity 1 over an arena that
    holds one element, the smaller of the two is 1 and one element would be
    within bounds, but no element is read. *)
Lemma get_span_not_clamped_to_smaller : ~ clamps_to_smaller.
Proof.
  intros H.
  specialize (H (mkArray 0x50000000 2 1) [0; 0; 0; 0] 4).
  vm_compute in H.
  assert (E : 0 = 1); [|discriminate E].
  apply H; intuition congruence.
Qed.

(** C7, amended.  For every array reference with tag 5 into a non-empty
    arena, the nominal element count is the larger of the declared count and
    the declared capacity; when reading that many elements from the offset
    would overrun the arena, the count falls back to the declared count.
    If that many elements fit, exactly that many are returned, element [k]
    at [offset + k * element_size], and nothing is printed; if even the
    declared count overruns, no element is returned and one diagnostic is
    printed.  [get_span] is total: an overrun never stops the walk. *)
Theorem get_span_falls_back_to_count (a : pgObjectArray) (block : list Z)
  (element_size : Z) :
  0 < element_size ->
  0 <= count a < 65536 -> 0 <= size_ a < 65536 ->
  pgObjectArray_t a = Cpu_Type -> block <> [] ->
  let offset := pgObjectArray_o a in
  let nominal := Z.max (count a) (size_ a) in
  let n := if len block <? offset + nominal * element_size
           then count a else nominal in
  get_span a block element_size =
    if len block <? offset + n * element_size
    then ([], [ArrayOutOfBounds offset (count a) (size_ a) element_size
                 (len block)])
    else (List.map (fun k => offset + Z.of_nat k * element_size)
            (seq 0 (Z.to_nat n)), []).
Proof.
  intros Hes Hc Hs Ht Hne offset nominal n.
  assert (Hoff : 0 <= offset).
  { subst offset. unfold pgObjectArray_o. apply Z.land_nonneg. right. lia. }
  assert (Hlen : (len block =? 0) = false).
  { apply Z.eqb_neq. unfold len. destruct block; [contradiction|]. cbn. lia. }
  unfold get_span. rewrite Hlen, Ht. cbn [orb negb Z.eqb Cpu_Type Pos.eqb].
  fold offset. fold nominal.
  assert (Hloop : forall m, 0 <= m ->
            offset + m * element_size <= len block ->
            span_loop block offset element_size 0 (Z.to_nat m) =
              (List.map (fun k => offset + Z.of_nat k * element_size)
                 (seq 0 (Z.to_nat m)), [])).
  { intros m Hm Hfit.
    rewrite span_loop_in_bounds by (try lia; rewrite Z2Nat.id by lia; lia).
    f_equal. }
  subst n.
  destruct (len block <? offset + nominal * element_size) eqn:E1.
  - destruct (len block <? offset + count a * element_size) eqn:E2.
    + reflexivity.
    + apply Z.ltb_ge in E2. apply Hloop; lia.
  - rewrite E1. apply Z.ltb_ge in E1. apply Hloop; subst nominal; lia.
Qed.

Lemma get_span_falls_back_to_count_witness :
  get_span (mkArray 0x50000000 1 2) [7; 0; 0; 0] 4 = ([0], []).
Proof.
  apply (get_span_falls_back_to_count (mkArray 0x50000000 1 2) [7; 0; 0; 0] 4);
    [lia | simpl; lia | simpl; lia | reflexivity | discriminate].
Defined.

(** ** The string filter *)

Lemma find_from_bounds (c i : Z) (view : list Z) :
  find_from c i view = -1 \/ i <= find_from c i view.
Proof.
  revert i. induction view as [|b view IH]; intros i; cbn [find_from].
  - now left.
  - destruct (b =? c); [right; lia|].
    destruct (IH (i + 1)); [now left | right; lia].
Qed.

Lemma find_from_none (c i : Z) (view : list Z) :
  0 <= i -> (find_from c i view = -1 <-> ~ In c view).
Proof.
  revert i. induction view as [|b view IH]; intros i Hi; cbn [find_from In].
  - tauto.
  - destruct (b =? c) eqn:E.
    + apply Z.eqb_eq in E. split; [lia | tauto].
    + apply Z.eqb_neq in E. rewrite IH by lia. tauto.
Qed.

Lemma find_from_head (c i : Z) (view : list Z) :
  0 <= i -> (find_from c i view = i <-> hd_error view = Some c).
Proof.
  intros Hi. destruct view as [|b view]; cbn [find_from hd_error].
  - split; [lia | discriminate].
  - destruct (b =? c) eqn:E.
    + apply Z.eqb_eq in E. subst b. tauto.
    + apply Z.eqb_neq in E. split.
      * intros H. destruct (find_from_bounds c (i + 1) view); lia.
      * intros H. congruence.
Qed.

Lemma list_last_cons2 (b d : Z) (view : list Z) (x : Z) :
  List.last (b :: d :: view) x = List.last (d :: view) x.
Proof. reflexivity. Qed.

Lemma last_In (view : list Z) (d x : Z) : In (List.last (d :: view) x) (d :: view).
Proof.
  revert d. induction view as [|e view IH]; intros d.
  - now left.
  - rewrite list_last_cons2. right. apply IH.
Qed.

Lemma rfind_from_bounds (c i : Z) (view : list Z) :
  rfind_from c i view = -1
  \/ i <= rfind_from c i view <= i + len view - 1.
Proof.
  revert i. induction view as [|b view IH]; intros i; cbn [rfind_from].
  - now left.
  - assert (Hl : len (b :: view) = len view + 1).
    { unfold len. cbn [List.length]. lia. }
    assert (0 <= len view) by (unfold len; lia).
    rewrite Hl. destruct (rfind_from c (i + 1) view =? -1) eqn:E.
    + destruct (b =? c); [right; lia | now left].
    + apply Z.eqb_neq in E. destruct (IH (i + 1)); [contradiction | right; lia].
Qed.

Lemma rfind_from_none (c i : Z) (view : list Z) :
  0 <= i -> (rfind_from c i view = -1 <-> ~ In c view).
Proof.
  revert i. induction view as [|b view IH]; intros i Hi; cbn [rfind_from In].
  - tauto.
  - specialize (IH (i + 1) ltac:(lia)).
    destruct (rfind_from c (i + 1) view =? -1) eqn:E.
    + apply Z.eqb_eq in E. destruct (b =? c) eqn:Eb.
      * apply Z.eqb_eq in Eb. split; [lia | tauto].
      * apply Z.eqb_neq in Eb. tauto.
    + apply Z.eqb_neq in E. tauto.
Qed.

Lemma rfind_from_last (c i : Z) (view : list Z) :
  0 <= i -> view <> [] ->
  (rfind_from c i view = i + len view - 1 <-> List.last view (c + 1) = c).
Proof.
  revert i. induction view as [|b view IH]; intros i Hi Hne; [contradiction|].
  cbn [rfind_from].
  assert (Hl : len (b :: view) = len view + 1).
  { unfold len. cbn [List.length]. lia. }
  rewrite Hl.
  destruct view as [|d view].
  - cbn. destruct (b =? c) eqn:Eb.
    + apply Z.eqb_eq in Eb. unfold len. cbn. split; [congruence | lia].
    + apply Z.eqb_neq in Eb. unfold len. cbn. split; [lia | congruence].
  - rewrite list_last_cons2.
    specialize (IH (i + 1) ltac:(lia) ltac:(discriminate)).
    assert (0 < len (d :: view)) by (unfold len; cbn [List.length]; lia).
    destruct (rfind_from c (i + 1) (d :: view) =? -1) eqn:E.
    + apply Z.eqb_eq in E.
      assert (Hn : ~ In c (d :: view)) by (apply (rfind_from_none c (i + 1)); [lia | assumption]).
      split.
      * intros H1. destruct (b =? c); lia.
      * intros H1. exfalso. apply Hn. rewrite <- H1 at 1. apply last_In.
    + apply Z.eqb_neq in E. rewrite <- IH. lia.
Qed.
Lemma last_default (view : list Z) (x y : Z) :
  view <> [] -> List.last view x = List.last view y.
Proof.
  induction view as [|b view IH]; intros Hne; [contradiction|].
  destruct view as [|d view]; [reflexivity|].
  rewrite !list_last_cons2. apply IH. discriminate.
Qed.

Lemma validate_efigs_char_spec (c : Z) :
  validate_efigs_char c = true <-> efigs_letter c.
Proof.
  unfold validate_efigs_char, validate_english_char, efigs_letter. lia.
Qed.

Lemma validate_url_char_spec (c : Z) :
  validate_url_char c = true <-> url_byte c.
Proof.
  unfold validate_url_char, validate_english_char, validate_digit_char,
    url_byte. lia.
Qed.

Lemma validate_url_spec (view : list Z) :
  validate_url view = true <-> code_url view.
Proof.
  unfold validate_url, code_url.
  destruct view as [|b view].
  { split; [discriminate | intros (_ & [] & _)]. }
  set (v := b :: view).
  assert (Hne : v <> []) by discriminate.
  assert (Hall : forallb validate_url_char v = true
                 <-> (forall c, In c v -> url_byte c)).
  { rewrite forallb_forall. split; intros H c Hc; apply validate_url_char_spec; auto. }
  pose proof (find_from_none 46 0 v ltac:(lia)) as Hf.
  pose proof (find_from_head 46 0 v ltac:(lia)) as Hh.
  pose proof (rfind_from_last 46 0 v ltac:(lia) Hne) as Hl.
  rewrite (last_default v (46 + 1) 0 Hne) in Hl.
  fold (find v 46) in Hf, Hh. fold (rfind v 46) in Hl.
  destruct (forallb validate_url_char v); cbn [negb].
  - rewrite !andb_true_iff, !negb_true_iff, !Z.eqb_neq.
    replace (0 + len v - 1) with (len v - 1) in Hl by lia.
    split.
    + intros ((H1 & H2) & H3). repeat split.
      * apply Hall. reflexivity.
      * destruct (in_dec Z.eq_dec 46 v) as [Hin|Hin]; [assumption|].
        apply Hf in Hin. contradiction.
      * rewrite <- Hh. assumption.
      * rewrite <- Hl. assumption.
    + intros (_ & H1 & H2 & H3). repeat split.
      * rewrite Hf. tauto.
      * rewrite Hh. assumption.
      * rewrite Hl. assumption.
  - split; [discriminate|]. intros (H & _). apply Hall in H. discriminate.
Qed.

Lemma existsb_efigs (view : list Z) :
  existsb validate_efigs_char view = true <-> has_efigs view.
Proof.
  rewrite existsb_exists. unfold has_efigs.
  split; intros (c & Hc & He); exists c; split; auto;
    apply validate_efigs_char_spec; assumption.
Qed.

(** C4, as stated, fails: the four bytes of [.a.b] are URL bytes and the
    full stop at index 2 is neither first nor last, so the stated rule
    classifies the string as a URL; the code accepts it. *)
Lemma validate_string_leading_dot : ~ accepted_iff_specified.
Proof.
  intros H.
  destruct (H (codes ".a.b") ltac:(discriminate)) as [H1 _].
  destruct (H1 eq_refl) as [_ Hn]. apply Hn. split.
  - intros c Hc. unfold url_byte. vm_compute in Hc. lia.
  - exists 2%nat. vm_compute. repeat split; lia.
Qed.

(** C4, amended.  A non-empty candidate byte string is accepted if and only
    if it contains at least one EFIGS byte (A-Z, a-z or any byte from 0xC0
    up) and is not classified as a URL, where a URL is a string whose every
    byte is a letter, a digit or one of full stop, percent, at, hyphen and
    underscore, which contains a full stop, and whose first and last
    characters are not full stops.  So [www.rock.com] and [12345] are
    rejected, [Hello] and [Caf] followed by the byte 0xE9 are accepted. *)
Theorem validate_string_accepts (view : list Z) :
  view <> [] ->
  (validate_string view = true <-> has_efigs view /\ ~ code_url view)
  /\ validate_string (codes "www.rock.com") = false
  /\ validate_string (codes "12345") = false
  /\ validate_string (codes "Hello") = true
  /\ validate_string (codes "Caf" ++ [0xE9]) = true.
Proof.
  intros Hne. split; [|repeat split; reflexivity].
  unfold validate_string.
  rewrite andb_true_iff, negb_true_iff, existsb_efigs.
  rewrite <- validate_url_spec.
  destruct (validate_url view); intuition congruence.
Qed.

Lemma validate_string_accepts_witness :
  validate_string (codes "a.b.") = true
  <-> has_efigs (codes "a.b.") /\ ~ code_url (codes "a.b.").
Proof.
  apply (validate_string_accepts (codes "a.b.")). discriminate.
Defined.

(** ** The ledger merge rule *)

Lemma IsBlankText_spec (text : list Z) :
  IsBlankText text = true <-> blank text.
Proof.
  unfold IsBlankText, blank. rewrite forallb_forall.
  split; intros H c Hc; specialize (H c Hc); lia.
Qed.

Lemma accepts_spec (hash_val : Z) (text_str : list Z) :
  accepts hash_val text_str = true
  <-> ~ blank text_str /\ fnv1a_32 (text_bytes text_str) <> hash_val.
Proof.
  unfold accepts.
  rewrite andb_true_iff, !negb_true_iff, Z.eqb_neq, <- IsBlankText_spec.
  destruct (IsBlankText text_str); intuition congruence.
Qed.

Lemma line_entries_matched (raw : list Z) (hash_val : Z) (text_str : list Z)
  (kept : bool) :
  load_line raw = Matched hash_val text_str kept ->
  kept = accepts hash_val text_str
  /\ line_entries raw =
       if kept then [mkEntry hash_val text_str] else [].
Proof.
  intros Hl. split.
  - unfold load_line in Hl.
    destruct (strip raw) as [|c line]; [discriminate|].
    destruct (c =? 59); [discriminate|].
    destruct (entry_regex_match (c :: line)) as [[h g]|]; [|discriminate].
    injection Hl as <- <- <-. reflexivity.
  - unfold line_entries. rewrite Hl. destruct kept; reflexivity.
Qed.

Lemma LoadText_app (pre post : list (list Z)) :
  LoadText (pre ++ post) = LoadText pre ++ LoadText post.
Proof. unfold LoadText. apply flat_map_app. Qed.

Lemma LoadText_cons (raw : list Z) (post : list (list Z)) :
  LoadText (raw :: post) = line_entries raw ++ LoadText post.
Proof. reflexivity. Qed.

(** C1.  For every line of a ledger file that parses as [0xH=T] (with [T]
    the text after unescaping) and whose text encodes to windows-1252 bytes
    [bs], the line contributes the entry [(H, T)] to the result of
    [LoadText] if and only if [T] is not blank and the FNV-1a/32 hash of
    [bs] differs from [H]; otherwise it contributes nothing, wherever the
    line stands in the file.  With [H] the hash of [Hi], the line [0xH=Hi]
    is excluded and the line [0xH=Bonjour] is included. *)
Theorem ledger_merge_rule (raw : list Z) (H : Z) (T bs : list Z)
  (kept : bool) (pre post : list (list Z)) :
  load_line raw = Matched H T kept ->
  encode_cp1252 T = Some bs ->
  (kept = true <-> ~ blank T /\ fnv1a_32 bs <> H)
  /\ LoadText (pre ++ raw :: post) =
       LoadText pre ++ (if kept then [mkEntry H T] else []) ++ LoadText post
  /\ (LoadText [raw] = [mkEntry H T] <-> ~ blank T /\ fnv1a_32 bs <> H)
  /\ (LoadText [raw] = [] <-> ~ (~ blank T /\ fnv1a_32 bs <> H))
  /\ (let Hi := fnv1a_32 (codes "Hi") in
      LoadText [ledger_line Hi (codes "Hi")] = []
      /\ LoadText [ledger_line Hi (codes "Bonjour")] =
           [mkEntry Hi (codes "Bonjour")]).
Proof.
  intros Hl Henc.
  destruct (line_entries_matched raw H T kept Hl) as [Hk Hle].
  assert (Hacc : kept = true <-> ~ blank T /\ fnv1a_32 bs <> H).
  { rewrite Hk, accepts_spec. unfold text_bytes. rewrite Henc. reflexivity. }
  split; [exact Hacc|].
  split.
  { rewrite LoadText_app, LoadText_cons, Hle. reflexivity. }
  assert (Hone : LoadText [raw] = if kept then [mkEntry H T] else []).
  { rewrite LoadText_cons, Hle. cbn. apply app_nil_r. }
  split; [|split].
  - rewrite Hone, <- Hacc. destruct kept; intuition congruence.
  - rewrite Hone, <- Hacc. destruct kept; intuition congruence.
  - split; vm_compute; reflexivity.
Qed.

Lemma ledger_merge_rule_witness :
  LoadText [ledger_line (fnv1a_32 (codes "Hi")) (codes "Bonjour")] =
    [mkEntry (fnv1a_32 (codes "Hi")) (codes "Bonjour")]
  <-> ~ blank (codes "Bonjour")
      /\ fnv1a_32 (codes "Bonjour") <> fnv1a_32 (codes "Hi").
Proof.
  apply (ledger_merge_rule
           (ledger_line (fnv1a_32 (codes "Hi")) (codes "Bonjour"))
           (fnv1a_32 (codes "Hi")) (codes "Bonjour") (codes "Bonjour")
           true [] []); reflexivity.
Defined.

Lemma blank_encodes (text : list Z) :
  IsBlankText text = true -> encode_cp1252 text <> None.
Proof.
  induction text as [|c text IH]; cbn [IsBlankText forallb encode_cp1252].
  - discriminate.
  - intros Hb. apply andb_true_iff in Hb. destruct Hb as [Hc Hb].
    specialize (IH Hb).
    assert (Hch : encode_cp1252_char c = Some c).
    { unfold encode_cp1252_char.
      assert (E : (0 <=? c) && (c <? 128) = true) by lia.
      rewrite E. reflexivity. }
    rewrite Hch. destruct (encode_cp1252 text); [discriminate | contradiction].
Qed.

(** C10.  For every line of a ledger file that parses as [0xH=T] and whose
    text cannot be encoded in windows-1252, the hash compared with [H] is
    that of the empty byte string, [0x811C9DC5]; such a text is never blank,
    so the line contributes the entry [(H, T)] if and only if [H] differs
    from [0x811C9DC5].  [LoadText] is a total function: the encoding failure
    does not leave it. *)
Theorem ledger_unencodable_text (raw : list Z) (H : Z) (T : list Z)
  (kept : bool) (pre post : list (list Z)) :
  load_line raw = Matched H T kept ->
  encode_cp1252 T = None ->
  text_bytes T = []
  /\ fnv1a_32 [] = 0x811C9DC5
  /\ ~ blank T
  /\ (kept = true <-> ~ blank T /\ H <> 0x811C9DC5)
  /\ (LoadText [raw] = [mkEntry H T] <-> H <> 0x811C9DC5)
  /\ LoadText (pre ++ raw :: post) =
       LoadText pre
       ++ (if H =? 0x811C9DC5 then [] else [mkEntry H T]) ++ LoadText post.
Proof.
  intros Hl Henc.
  destruct (line_entries_matched raw H T kept Hl) as [Hk Hle].
  assert (Hb : ~ blank T).
  { rewrite <- IsBlankText_spec. intros Hb.
    apply (blank_encodes T Hb). exact Henc. }
  assert (Hbytes : text_bytes T = []).
  { unfold text_bytes. rewrite Henc. reflexivity. }
  assert (Hacc : kept = true <-> ~ blank T /\ H <> 0x811C9DC5).
  { rewrite Hk, accepts_spec, Hbytes.
    change (fnv1a_32 []) with 0x811C9DC5. intuition congruence. }
  assert (Hkept : kept = negb (H =? 0x811C9DC5)).
  { destruct (H =? 0x811C9DC5) eqn:E.
    - apply Z.eqb_eq in E. destruct kept; [|reflexivity].
      exfalso. apply Hacc; auto.
    - apply Z.eqb_neq in E. cbn. apply Hacc. auto. }
  split; [exact Hbytes|].
  split; [reflexivity|].
  split; [exact Hb|].
  split; [exact Hacc|].
  split.
  - rewrite LoadText_cons, Hle, Hkept. cbn [LoadText flat_map].
    rewrite app_nil_r.
    destruct (H =? 0x811C9DC5) eqn:E; cbn [negb].
    + apply Z.eqb_eq in E. split; [discriminate | contradiction].
    + apply Z.eqb_neq in E. tauto.
  - rewrite LoadText_app, LoadText_cons, Hle, Hkept.
    destruct (H =? 0x811C9DC5); reflexivity.
Qed.

Lemma ledger_unencodable_text_witness :
  LoadText [codes "0x00000001=" ++ [0x4E2D]] = [mkEntry 1 [0x4E2D]]
  <-> 1 <> 0x811C9DC5.
Proof.
  apply (ledger_unencodable_text (codes "0x00000001=" ++ [0x4E2D]) 1
           [0x4E2D] true [] []); reflexivity.
Defined.

(** ** Hash collisions in [SAGXT.load_text] *)

(** C3, as stated, fails: the keys [FACE] and [0000FACE] both resolve to
    the hash [0xFACE]; after the load the table holds the later text, and
    one warning was printed. *)
Lemma load_text_overwrites_on_collision :
  ~ collision_rejected
  /\ (let '(ok, st) := load_text (fun c => [ascii_upper c]) colliding_file in
      ok = true
      /\ table_of (m_GxtData st) MAIN !! 0xFACE = Some (codes "two")
      /\ stdout st =
           [CollisionWarning 3 (codes "0000FACE") 0xFACE (codes "one")
              (codes "two")]).
Proof.
  split.
  - intros H.
    assert (Hold : table_of (m_GxtData colliding_state) MAIN !! 0xFACE
                   = Some (codes "one")) by (vm_compute; reflexivity).
    specialize (H (fun c => [ascii_upper c]) 3 (codes "0000FACE")
                  (codes "two") colliding_state MAIN 0xFACE (codes "one")
                  eq_refl eq_refl Hold ltac:(discriminate)).
    vm_compute in H. discriminate H.
  - vm_compute. repeat split; reflexivity.
Qed.

Lemma table_of_insert (data : gmap (list Z) (gmap Z (list Z)))
  (name : list Z) (table : gmap Z (list Z)) :
  table_of (<[name := table]> data) name = table.
Proof. unfold table_of. rewrite lookup_insert_eq. reflexivity. Qed.

(** C3, amended.  When an entry line's key resolves to a hash that the
    current table already holds, the load goes on and the later text
    replaces the existing one.  If the two texts differ, one warning that
    names the line, the key, the hash and both texts is printed; if they are
    equal, nothing is printed and the tables are unchanged.  The other
    hashes of the table and the other tables are untouched. *)
Theorem load_entry_last_write_wins (upper : Z -> list Z) (line_no : Z)
  (raw_key text_value : list Z) (st : loader) (name : list Z)
  (hash_key : Z) (existing : list Z) :
  current_table st = Some name ->
  entry_hash_key upper raw_key = Some hash_key ->
  table_of (m_GxtData st) name !! hash_key = Some existing ->
  let ok := fst (load_entry upper line_no raw_key text_value st) in
  let st' := snd (load_entry upper line_no raw_key text_value st) in
  ok = true
  /\ table_of (m_GxtData st') name !! hash_key = Some text_value
  /\ (existing <> text_value ->
      stdout st' =
        stdout st
        ++ [CollisionWarning line_no raw_key hash_key existing text_value])
  /\ (existing = text_value ->
      stdout st' = stdout st /\ m_GxtData st' = m_GxtData st)
  /\ (forall h, h <> hash_key ->
      table_of (m_GxtData st') name !! h = table_of (m_GxtData st) name !! h)
  /\ (forall other, other <> name ->
      m_GxtData st' !! other = m_GxtData st !! other)
  /\ current_table st' = Some name.
Proof.
  intros Hcur Hkey Hold ok st'. subst ok st'.
  unfold load_entry. rewrite Hcur, Hkey, Hold. cbn [fst snd m_GxtData stdout current_table].
  split; [reflexivity|].
  split; [rewrite table_of_insert; apply lookup_insert_eq|].
  split.
  { intros Hne. destruct (decide (existing = text_value)); [contradiction | reflexivity]. }
  split.
  { intros ->. destruct (decide (text_value = text_value)); [|contradiction].
    split; [reflexivity|].
    unfold table_of in Hold |- *.
    destruct (m_GxtData st !! name) as [table|] eqn:Et; cbn in Hold |- *.
    - rewrite (insert_id table hash_key text_value Hold).
      apply insert_id. exact Et.
    - rewrite lookup_empty in Hold. discriminate. }
  split.
  { intros h Hh. rewrite table_of_insert. apply lookup_insert_ne. congruence. }
  split; [|reflexivity].
  intros other Ho. apply lookup_insert_ne. congruence.
Qed.

Lemma load_entry_last_write_wins_witness :
  table_of
    (m_GxtData
       (snd (load_entry (fun c => [ascii_upper c]) 3 (codes "0000FACE")
               (codes "two") colliding_state)))
    MAIN !! 0xFACE = Some (codes "two").
Proof.
  assert (Hold : table_of (m_GxtData colliding_state) MAIN !! 0xFACE
                 = Some (codes "one")) by (vm_compute; reflexivity).
  destruct (load_entry_last_write_wins (fun c => [ascii_upper c]) 3
              (codes "0000FACE") (codes "two") colliding_state
              MAIN 0xFACE (codes "one") eq_refl eq_refl Hold)
    as (_ & Hnew & _).
  exact Hnew.
Defined.

(** ** Unknown node kinds in the tree walk *)

Lemma ExtractNodeStrings_step (py : interpreter) (depth : nat) (node : Z)
  (block : list Z) (s : walk_state) :
  ExtractNodeStrings py (S depth) node block s =
    match walk_children py depth node block s with
    | Done s1 =>
        let m_eNodeType := read_u32 block (node + offset_m_eNodeType) in
        match HtmlNodeType_of m_eNodeType with
        | None => Done (warn [UnknownNodeType m_eNodeType] s1)
        | Some Node_HtmlDataNode => extract_data_node py depth node block s1
        | Some _ => Done s1
        end
    | other => other
    end.
Proof.
  unfold walk_children. cbn [ExtractNodeStrings].
  destruct (depth <? frames_helpers py)%nat; [reflexivity|].
  destruct (get_span _ _ _) as [span msgs].
  destruct (fold_left _ span _); reflexivity.
Qed.

(** C6, as stated, fails: the body of [unknown_kind_arena] has the unknown
    kind 7, and the walk from it emits the text of its child before it
    prints the diagnostic. *)
Lemma unknown_kind_children_are_walked :
  ~ unknown_kind_skips_subtree
  /\ (exists s',
        ExtractNodeStrings example_interpreter 9 48 unknown_kind_arena
          empty_walk = Done s'
        /\ container s' = [mkEntry (fnv1a_32 (codes "Hello")) (codes "Hello")]
        /\ stderr s' = [UnknownNodeType 7]
        /\ ExtractWhmStrings example_interpreter 9 unknown_kind_arena ∅
           = Some s').
Proof.
  assert (Hrun : exists s',
             ExtractNodeStrings example_interpreter 9 48 unknown_kind_arena
               empty_walk = Done s'
             /\ container s'
                = [mkEntry (fnv1a_32 (codes "Hello")) (codes "Hello")]
             /\ stderr s' = [UnknownNodeType 7]
             /\ ExtractWhmStrings example_interpreter 9 unknown_kind_arena ∅
                = Some s').
  { eexists. split; [vm_compute; reflexivity|].
    split; [reflexivity|]. split; [reflexivity|].
    vm_compute. reflexivity. }
  split; [|exact Hrun].
  intros H. destruct Hrun as (s' & Hs & Hc & _).
  specialize (H example_interpreter 9%nat 48 unknown_kind_arena empty_walk s'
                eq_refl Hs).
  rewrite Hc in H. discriminate H.
Qed.

(** C6, amended.  A node whose stored kind is not one of the four known
    variants is inspected after its children have been walked: the strings
    of its descendants are emitted, the node adds no string of its own and
    one diagnostic naming the kind, and the walk goes on.  If the walk of
    the children ends normally in a state [s1], the walk of the node ends
    normally in [s1] with the diagnostic appended; a node of unknown kind
    without children leaves the container as it was. *)
Theorem unknown_kind_is_skipped_after_children (py : interpreter)
  (depth : nat) (node : Z) (block : list Z) (s s1 : walk_state) :
  HtmlNodeType_of (read_u32 block (node + offset_m_eNodeType)) = None ->
  walk_children py depth node block s = Done s1 ->
  ExtractNodeStrings py (S depth) node block s =
    Done (warn [UnknownNodeType (read_u32 block (node + offset_m_eNodeType))]
            s1)
  /\ container
       (warn [UnknownNodeType (read_u32 block (node + offset_m_eNodeType))]
          s1) = container s1
  /\ (get_span (read_array block (node + offset_m_children)) block
        sizeof_pgPtr = ([], []) ->
      s1 = warn [] s /\ container s1 = container s).
Proof.
  intros Hkind Hchildren.
  split; [|split].
  - rewrite ExtractNodeStrings_step, Hchildren. cbv zeta.
    rewrite Hkind. reflexivity.
  - reflexivity.
  - intros Hspan. unfold walk_children in Hchildren.
    destruct (depth <? frames_helpers py)%nat; [discriminate|].
    rewrite Hspan in Hchildren. cbn in Hchildren.
    injection Hchildren as <-. split; reflexivity.
Qed.

Lemma unknown_kind_is_skipped_after_children_witness :
  exists s1,
    ExtractNodeStrings example_interpreter 9 48 unknown_kind_arena empty_walk
    = Done (warn [UnknownNodeType 7] s1).
Proof.
  assert (Hc : exists s1,
             walk_children example_interpreter 8 48 unknown_kind_arena
               empty_walk = Done s1).
  { eexists. vm_compute. reflexivity. }
  destruct Hc as [s1 Hc]. exists s1.
  destruct (unknown_kind_is_skipped_after_children example_interpreter 8 48
              unknown_kind_arena empty_walk s1 eq_refl Hc) as [Hrun _].
  exact Hrun.
Defined.

(** ** Bytes and words *)

Lemma lor_high_low (a b n : Z) :
  0 <= n -> 0 <= b < 2 ^ n -> Z.lor (a * 2 ^ n) b = a * 2 ^ n + b.
Proof.
  intros Hn Hb.
  assert (Hland : Z.land (a * 2 ^ n) b = 0).
  { apply Z.bits_inj'. intros i Hi. rewrite Z.land_spec, Z.bits_0.
    destruct (Z.lt_ge_cases i n) as [Hlt|Hge].
    - rewrite Z.mul_pow2_bits_low by lia. reflexivity.
    - destruct (Z.eq_dec b 0) as [->|Hb0].
      + rewrite Z.bits_0. apply andb_false_r.
      + assert (Hlog : Z.log2 b < i).
        { apply Z.log2_lt_pow2; [lia|].
          apply Z.lt_le_trans with (2 ^ n); [lia|].
          apply Z.pow_le_mono_r; lia. }
        rewrite (Z.bits_above_log2 b i) by lia. apply andb_false_r. }
  rewrite <- Z.lxor_lor by exact Hland.
  symmetry. apply Z.add_nocarry_lxor. exact Hland.
Qed.

Lemma land_low (x n : Z) : 0 <= n -> Z.land x (2 ^ n - 1) = x mod 2 ^ n.
Proof.
  intros Hn. replace (2 ^ n - 1) with (Z.ones n).
  - apply Z.land_ones. exact Hn.
  - rewrite Z.ones_equiv. lia.
Qed.

Ltac bits_to_arith :=
  repeat match goal with
  | |- context [Z.shiftr ?x ?n] => rewrite (Z.shiftr_div_pow2 x n) by lia
  | |- context [Z.shiftl ?x ?n] => rewrite (Z.shiftl_mul_pow2 x n) by lia
  end.

Lemma pack_u32_bytes (x : Z) :
  0 <= x < 2 ^ 32 -> pack_u32 x = Some (le32 x).
Proof.
  intros Hx. unfold pack_u32, le32.
  assert (E : (0 <=? x) && (x <? 4294967296) = true) by lia.
  rewrite E. bits_to_arith.
  change 0xFF with (2 ^ 8 - 1). rewrite !land_low by lia.
  change (2 ^ 0) with 1. reflexivity.
Qed.

Lemma len_app {A : Type} (a b : list A) : len (a ++ b) = len a + len b.
Proof. unfold len. rewrite length_app. lia. Qed.

Lemma len_nonneg {A : Type} (a : list A) : 0 <= len a.
Proof. unfold len. lia. Qed.

Lemma len_cons {A : Type} (x : A) (a : list A) : len (x :: a) = 1 + len a.
Proof. unfold len. cbn [List.length]. lia. Qed.

Lemma byte_at_app_r (pre l : list Z) (i : Z) :
  0 <= i -> byte_at (pre ++ l) (len pre + i) = byte_at l i.
Proof.
  intros Hi. unfold byte_at, len.
  replace (Z.to_nat (Z.of_nat (List.length pre) + i))
    with (List.length pre + Z.to_nat i)%nat by lia.
  rewrite app_nth2_plus. reflexivity.
Qed.

Lemma le32_value (x : Z) :
  0 <= x < 2 ^ 32 ->
  x mod 256 + 256 * (x / 256 mod 256) + 65536 * (x / 65536 mod 256)
  + 16777216 * (x / 16777216 mod 256) = x.
Proof. intros Hx. Z.div_mod_to_equations. lia. Qed.

Lemma read_u32_app (pre l : list Z) (off : Z) :
  0 <= off -> read_u32 (pre ++ l) (len pre + off) = read_u32 l off.
Proof.
  intros Hoff. unfold read_u32.
  rewrite <- !Z.add_assoc.
  rewrite !byte_at_app_r by lia. reflexivity.
Qed.

Lemma read_u32_le32_0 (post : list Z) (x : Z) :
  0 <= x < 2 ^ 32 -> read_u32 (le32 x ++ post) 0 = x.
Proof.
  intros Hx. unfold read_u32, byte_at, le32.
  change (Z.to_nat 0) with 0%nat. change (Z.to_nat (0 + 1)) with 1%nat.
  change (Z.to_nat (0 + 2)) with 2%nat. change (Z.to_nat (0 + 3)) with 3%nat.
  cbn [nth app]. apply le32_value. exact Hx.
Qed.

Lemma read_u32_le32 (pre post : list Z) (x : Z) :
  0 <= x < 2 ^ 32 -> read_u32 (pre ++ le32 x ++ post) (len pre) = x.
Proof.
  intros Hx. rewrite <- (Z.add_0_r (len pre)).
  rewrite read_u32_app by lia. apply read_u32_le32_0. exact Hx.
Qed.

Lemma read_u32_le32_at (pre post : list Z) (x off : Z) :
  0 <= x < 2 ^ 32 -> off = len pre ->
  read_u32 (pre ++ le32 x ++ post) off = x.
Proof. intros Hx ->. apply read_u32_le32. exact Hx. Qed.

(** ** The UTF-8 round trip *)

Lemma utf8_decode_char (c : Z) (rest : list Z) :
  is_scalar c = true ->
  utf8_decode (utf8_char c ++ rest) =
    match utf8_decode rest with Some s => Some (c :: s) | None => None end.
Proof.
  intros Hc. unfold is_scalar, is_surrogate in Hc.
  assert (Hr : 0 <= c <= 0x10FFFF /\ ~ (0xD800 <= c <= 0xDFFF)) by lia.
  clear Hc. destruct Hr as [Hr Hs].
  unfold utf8_char.
  destruct (c <? 0x80) eqn:E1.
  { cbn [app utf8_decode].
    assert (E : (0 <=? c) && (c <? 128) = true) by lia.
    rewrite E. reflexivity. }
  destruct (c <? 0x800) eqn:E2.
  { bits_to_arith. change 0x3F with (2 ^ 6 - 1). rewrite !land_low by lia.
    change 0xC0 with (3 * 2 ^ 6). change 0x80 with (2 * 2 ^ 6).
    rewrite !lor_high_low by (try lia; Z.div_mod_to_equations; lia).
    set (b0 := 3 * 2 ^ 6 + c / 2 ^ 6). set (b1 := 2 * 2 ^ 6 + c mod 2 ^ 6).
    assert (Hb0 : 0xC2 <= b0 <= 0xDF) by (subst b0; Z.div_mod_to_equations; lia).
    assert (Hb1 : 0x80 <= b1 <= 0xBF) by (subst b1; Z.div_mod_to_equations; lia).
    cbn [app utf8_decode]. unfold is_cont.
    assert (F0 : (0 <=? b0) && (b0 <? 128) = false) by lia.
    assert (F1 : (194 <=? b0) && (b0 <=? 223) = true) by lia.
    assert (F2 : (128 <=? b1) && (b1 <=? 191) = true) by lia.
    rewrite F0, F1, F2.
    assert (Hval : Z.lor (Z.shiftl (Z.land b0 31) 6) (Z.land b1 63) = c).
    { bits_to_arith. change 31 with (2 ^ 5 - 1). change 63 with (2 ^ 6 - 1).
      rewrite !land_low by lia.
      rewrite lor_high_low by (try lia; Z.div_mod_to_equations; lia).
      subst b0 b1. Z.div_mod_to_equations. lia. }
    rewrite Hval. reflexivity. }
  destruct (c <? 0x10000) eqn:E3.
  { bits_to_arith. change 0x3F with (2 ^ 6 - 1). rewrite !land_low by lia.
    change 0xE0 with (14 * 2 ^ 4). change 0x80 with (2 * 2 ^ 6).
    rewrite !lor_high_low by (try lia; Z.div_mod_to_equations; lia).
    set (b0 := 14 * 2 ^ 4 + c / 2 ^ 12).
    set (b1 := 2 * 2 ^ 6 + c / 2 ^ 6 mod 2 ^ 6).
    set (b2 := 2 * 2 ^ 6 + c mod 2 ^ 6).
    assert (Hb0 : 0xE0 <= b0 <= 0xEF) by (subst b0; Z.div_mod_to_equations; lia).
    assert (Hb1 : 0x80 <= b1 <= 0xBF) by (subst b1; Z.div_mod_to_equations; lia).
    assert (Hb2 : 0x80 <= b2 <= 0xBF) by (subst b2; Z.div_mod_to_equations; lia).
    cbn [app utf8_decode]. unfold is_cont, is_surrogate.
    assert (F0 : (0 <=? b0) && (b0 <? 128) = false) by lia.
    assert (F1 : (194 <=? b0) && (b0 <=? 223) = false) by lia.
    assert (F2 : (224 <=? b0) && (b0 <=? 239) = true) by lia.
    rewrite F0, F1, F2.
    assert (Hval : Z.lor (Z.shiftl (Z.land b0 15) 12)
                     (Z.lor (Z.shiftl (Z.land b1 63) 6) (Z.land b2 63)) = c).
    { bits_to_arith. change 15 with (2 ^ 4 - 1). change 63 with (2 ^ 6 - 1).
      rewrite !land_low by lia.
      rewrite (lor_high_low (b1 mod 2 ^ 6) (b2 mod 2 ^ 6) 6)
        by (try lia; Z.div_mod_to_equations; lia).
      rewrite lor_high_low by (try lia; Z.div_mod_to_equations; lia).
      subst b0 b1 b2. Z.div_mod_to_equations. lia. }
    rewrite Hval.
    assert (F3 : (128 <=? b1) && (b1 <=? 191) && ((128 <=? b2) && (b2 <=? 191))
                 && (2048 <=? c) && negb ((55296 <=? c) && (c <=? 57343))
                 = true) by lia.
    rewrite F3. reflexivity. }
  { bits_to_arith. change 0x3F with (2 ^ 6 - 1). rewrite !land_low by lia.
    change 0xF0 with (30 * 2 ^ 3). change 0x80 with (2 * 2 ^ 6).
    rewrite !lor_high_low by (try lia; Z.div_mod_to_equations; lia).
    set (b0 := 30 * 2 ^ 3 + c / 2 ^ 18).
    set (b1 := 2 * 2 ^ 6 + c / 2 ^ 12 mod 2 ^ 6).
    set (b2 := 2 * 2 ^ 6 + c / 2 ^ 6 mod 2 ^ 6).
    set (b3 := 2 * 2 ^ 6 + c mod 2 ^ 6).
    assert (Hb0 : 0xF0 <= b0 <= 0xF4) by (subst b0; Z.div_mod_to_equations; lia).
    assert (Hb1 : 0x80 <= b1 <= 0xBF) by (subst b1; Z.div_mod_to_equations; lia).
    assert (Hb2 : 0x80 <= b2 <= 0xBF) by (subst b2; Z.div_mod_to_equations; lia).
    assert (Hb3 : 0x80 <= b3 <= 0xBF) by (subst b3; Z.div_mod_to_equations; lia).
    cbn [app utf8_decode]. unfold is_cont.
    assert (F0 : (0 <=? b0) && (b0 <? 128) = false) by lia.
    assert (F1 : (194 <=? b0) && (b0 <=? 223) = false) by lia.
    assert (F2 : (224 <=? b0) && (b0 <=? 239) = false) by lia.
    assert (F4 : (240 <=? b0) && (b0 <=? 244) = true) by lia.
    rewrite F0, F1, F2, F4.
    assert (Hval : Z.lor (Z.shiftl (Z.land b0 7) 18)
                     (Z.lor (Z.shiftl (Z.land b1 63) 12)
                        (Z.lor (Z.shiftl (Z.land b2 63) 6) (Z.land b3 63)))
                   = c).
    { bits_to_arith. change 7 with (2 ^ 3 - 1). change 63 with (2 ^ 6 - 1).
      rewrite !land_low by lia.
      rewrite (lor_high_low (b2 mod 2 ^ 6) (b3 mod 2 ^ 6) 6)
        by (try lia; Z.div_mod_to_equations; lia).
      rewrite (lor_high_low (b1 mod 2 ^ 6) _ 12)
        by (try lia; Z.div_mod_to_equations; lia).
      rewrite lor_high_low by (try lia; Z.div_mod_to_equations; lia).
      subst b0 b1 b2 b3. Z.div_mod_to_equations. lia. }
    rewrite Hval.
    assert (F3 : (128 <=? b1) && (b1 <=? 191) && ((128 <=? b2) && (b2 <=? 191))
                 && ((128 <=? b3) && (b3 <=? 191))
                 && (65536 <=? c) && (c <=? 1114111) = true) by lia.
    rewrite F3. reflexivity. }
Qed.

Lemma utf8_encode_scalars (s : list Z) :
  Forall (fun c => is_scalar c = true) s ->
  utf8_encode s = Some (utf8_bytes s).
Proof.
  induction 1 as [|c s Hc _ IH]; [reflexivity|].
  cbn [utf8_encode utf8_bytes flat_map]. fold (utf8_bytes s).
  unfold is_scalar in Hc.
  destruct (is_surrogate c); [lia|]. rewrite IH. reflexivity.
Qed.

Lemma utf8_decode_encode (s : list Z) :
  Forall (fun c => is_scalar c = true) s ->
  utf8_decode (utf8_bytes s) = Some s.
Proof.
  induction 1 as [|c s Hc _ IH]; [reflexivity|].
  cbn [utf8_bytes flat_map]. fold (utf8_bytes s).
  rewrite utf8_decode_char by exact Hc. rewrite IH. reflexivity.
Qed.

Lemma utf8_char_no_null (c : Z) :
  0 < c -> ~ In 0 (utf8_char c).
Proof.
  intros Hc. unfold utf8_char.
  assert (Hlor : forall a b, 0 < a -> 0 <= b -> Z.lor a b <> 0).
  { intros a b Ha Hb E. apply Z.lor_eq_0_iff in E. lia. }
  assert (Hland : forall x, 0 <= Z.land x 0x3F).
  { intros x. apply Z.land_nonneg. right. lia. }
  assert (Hshr : forall n, 0 <= Z.shiftr c n).
  { intros n. apply Z.shiftr_nonneg. lia. }
  destruct (c <? 128); [cbn; lia|].
  destruct (c <? 2048); [|destruct (c <? 65536)]; cbn [In];
    intros H; repeat (destruct H as [H|H]);
      try contradiction; revert H; apply Hlor; auto; lia.
Qed.

Lemma utf8_bytes_no_null (s : list Z) :
  Forall (fun c => 0 < c) s -> ~ In 0 (utf8_bytes s).
Proof.
  induction 1 as [|c s Hc _ IH]; [intros []|].
  cbn [utf8_bytes flat_map]. fold (utf8_bytes s).
  rewrite in_app_iff. intros [H|H]; [|contradiction].
  exact (utf8_char_no_null c Hc H).
Qed.

Lemma scan_string_terminated (bs rest : list Z) :
  ~ In 0 bs -> scan_string (bs ++ 0 :: rest) = bs.
Proof.
  induction bs as [|b bs IH]; intros Hn; [reflexivity|].
  cbn [app scan_string].
  destruct (b =? 0) eqn:E.
  - apply Z.eqb_eq in E. exfalso. apply Hn. left. exact E.
  - rewrite IH; [reflexivity|]. intros H. apply Hn. right. exact H.
Qed.

Lemma skipn_len_app (a b : list Z) : skipn (Z.to_nat (len a)) (a ++ b) = b.
Proof.
  unfold len. rewrite Nat2Z.id. rewrite skipn_app, skipn_all, Nat.sub_diag.
  reflexivity.
Qed.

Lemma firstn_len_all (a : list Z) : firstn (Z.to_nat (len a)) a = a.
Proof. unfold len. rewrite Nat2Z.id. apply firstn_all. Qed.

(** ** The layout of the translation database *)

Lemma c_uint_small (x : Z) : 0 <= x < 2 ^ 32 -> c_uint x = x.
Proof. intros H. unfold c_uint. apply Z.mod_small. exact H. Qed.

Lemma c_uint_range (x : Z) : 0 <= c_uint x < 2 ^ 32.
Proof. unfold c_uint. apply Z.mod_pos_bound. lia. Qed.

Lemma build_blob_layout (texts : list ExportedTextEntry) :
  forall (text_table : list WhmTextData) (text_data : list Z),
    Forall (fun e => 0 <= hash e < 2 ^ 32) texts ->
    len text_data + len (blob_of texts) < 2 ^ 32 ->
    build_blob texts text_table text_data =
      (text_table ++ rows_of (len text_data) texts,
       text_data ++ blob_of texts).
Proof.
  induction texts as [|entry texts IH]; intros text_table text_data Hh Hfit.
  - cbn. rewrite !app_nil_r. reflexivity.
  - apply List.Forall_cons_iff in Hh. destruct Hh as [He Hh].
    cbn [blob_of] in Hfit. rewrite len_app, len_cons in Hfit.
    pose proof (len_nonneg text_data). pose proof (len_nonneg (blob_of texts)).
    pose proof (len_nonneg (encoded_str entry)).
    cbn [build_blob rows_of blob_of]. fold (encoded_str entry).
    rewrite (c_uint_small (hash entry)) by exact He.
    rewrite (c_uint_small (len text_data)) by lia.
    rewrite IH.
    + rewrite <- !app_assoc. cbn [app].
      rewrite !len_app, len_cons. change (len (@nil Z)) with 0.
      do 3 f_equal. f_equal. lia.
    + exact Hh.
    + rewrite !len_app, len_cons. change (len (@nil Z)) with 0. lia.
Qed.

Lemma build_blob_stored (texts : list ExportedTextEntry) :
  forall (text_table : list WhmTextData) (text_data : list Z),
    build_blob texts text_table text_data
    = build_blob (List.map stored_entry texts) text_table text_data.
Proof.
  induction texts as [|entry texts IH]; intros text_table text_data;
    [reflexivity|].
  cbn [List.map build_blob stored_entry hash str]. rewrite IH.
  assert (E : c_uint (c_uint (hash entry)) = c_uint (hash entry))
    by (apply c_uint_small, c_uint_range).
  rewrite E. reflexivity.
Qed.

Lemma blob_of_stored (texts : list ExportedTextEntry) :
  blob_of (List.map stored_entry texts) = blob_of texts.
Proof.
  induction texts as [|entry texts IH]; [reflexivity|].
  cbn [List.map blob_of]. rewrite IH. reflexivity.
Qed.

Lemma rows_of_length (base : Z) (texts : list ExportedTextEntry) :
  List.length (rows_of base texts) = List.length texts.
Proof.
  revert base. induction texts as [|e texts IH]; intros base; cbn; [reflexivity|].
  rewrite IH. reflexivity.
Qed.

Lemma rows_of_in_range (base : Z) (texts : list ExportedTextEntry) :
  0 <= base ->
  Forall (fun e => 0 <= hash e < 2 ^ 32) texts ->
  base + len (blob_of texts) < 2 ^ 32 ->
  Forall (fun r => 0 <= row_hash r < 2 ^ 32 /\ 0 <= row_offset r < 2 ^ 32)
    (rows_of base texts).
Proof.
  intros Hb Hh. revert base Hb.
  induction Hh as [|e texts He _ IH]; intros base Hb Hfit; [constructor|].
  cbn [rows_of blob_of] in *. rewrite len_app, len_cons in Hfit.
  pose proof (len_nonneg (encoded_str e)). pose proof (len_nonneg (blob_of texts)).
  constructor.
  - cbn. lia.
  - apply IH; lia.
Qed.

Lemma pack_rows_bytes (rows : list WhmTextData) :
  Forall (fun r => 0 <= row_hash r < 2 ^ 32 /\ 0 <= row_offset r < 2 ^ 32)
    rows ->
  pack_rows rows = Some (row_bytes rows).
Proof.
  induction 1 as [|r rows [Hh Ho] _ IH]; [reflexivity|].
  cbn [pack_rows row_bytes flat_map]. fold (row_bytes rows).
  rewrite !pack_u32_bytes by assumption. rewrite IH.
  rewrite <- app_assoc. reflexivity.
Qed.

Lemma len_le32 (x : Z) : len (le32 x) = 4.
Proof. reflexivity. Qed.

Lemma len_row_bytes (rows : list WhmTextData) :
  len (row_bytes rows) = 8 * len rows.
Proof.
  induction rows as [|r rows IH]; [reflexivity|].
  cbn [row_bytes flat_map]. fold (row_bytes rows).
  rewrite !len_app, !len_le32, len_cons, IH. lia.
Qed.

Lemma read_rows_packed (rows : list WhmTextData) (pre post : list Z) :
  Forall (fun r => 0 <= row_hash r < 2 ^ 32 /\ 0 <= row_offset r < 2 ^ 32)
    rows ->
  read_rows (List.length rows) (pre ++ row_bytes rows ++ post) (len pre) =
    Some (List.map (fun r => (row_hash r, row_offset r)) rows,
          len pre + 8 * len rows).
Proof.
  intros Hr. revert pre.
  induction Hr as [|r rows [Hh Ho] _ IH]; intros pre.
  - cbn [List.length read_rows List.map].
    change (len (@nil WhmTextData)) with 0. f_equal. f_equal. lia.
  - cbn [List.length read_rows row_bytes flat_map]. fold (row_bytes rows).
    set (data := pre ++ ((le32 (row_hash r) ++ le32 (row_offset r))
                         ++ row_bytes rows) ++ post).
    assert (Hlen : len pre + 8 <= len data).
    { subst data. rewrite !len_app, !len_le32.
      pose proof (len_nonneg (row_bytes rows)). pose proof (len_nonneg post).
      lia. }
    destruct (len data <? len pre + 8) eqn:E; [lia|].
    assert (E1 : data = (pre ++ le32 (row_hash r) ++ le32 (row_offset r))
                        ++ row_bytes rows ++ post).
    { subst data. rewrite <- !app_assoc. reflexivity. }
    assert (E2 : len (pre ++ le32 (row_hash r) ++ le32 (row_offset r))
                 = len pre + 8).
    { rewrite !len_app, !len_le32. lia. }
    rewrite <- E2, E1, IH, E2.
    rewrite <- E1.
    assert (R1 : read_u32 data (len pre) = row_hash r).
    { subst data. rewrite <- !app_assoc. apply read_u32_le32. exact Hh. }
    assert (R2 : read_u32 data (len pre + 4) = row_offset r).
    { subst data.
      replace (pre ++ ((le32 (row_hash r) ++ le32 (row_offset r))
                       ++ row_bytes rows) ++ post)
        with ((pre ++ le32 (row_hash r)) ++ le32 (row_offset r)
              ++ row_bytes rows ++ post)
        by (rewrite <- !app_assoc; reflexivity).
      apply read_u32_le32_at; [exact Ho|].
      rewrite len_app, len_le32. reflexivity. }
    rewrite R1, R2. cbn [List.map]. rewrite len_cons.
    f_equal. f_equal. lia.
Qed.

Lemma storable_scalars (text : list Z) :
  storable text -> Forall (fun c => is_scalar c = true) text.
Proof. apply List.Forall_impl. tauto. Qed.

Lemma storable_positive (text : list Z) :
  storable text -> Forall (fun c => 0 < c) text.
Proof.
  apply List.Forall_impl. intros c [Hs Hn]. unfold is_scalar in Hs. lia.
Qed.

Lemma encoded_str_storable (entry : ExportedTextEntry) :
  storable (str entry) -> encoded_str entry = utf8_bytes (str entry).
Proof.
  intros Hs. unfold encoded_str.
  rewrite utf8_encode_scalars by (apply storable_scalars; exact Hs).
  reflexivity.
Qed.

(** The last loop of [ParseWhmTable], on the rows and the data block that
    [GenerateDataBase] lays out. *)
Lemma decode_rows (texts : list ExportedTextEntry) (A : list Z)
  (blob_size : Z) :
  Forall (fun e => storable (str e)) texts ->
  blob_size = len (A ++ blob_of texts) ->
  List.map
    (fun '(h, off) =>
       if off <? blob_size then
         (h, decode_bytes
               (scan_string (skipn (Z.to_nat off) (A ++ blob_of texts))))
       else (h, binary_marker))
    (List.map (fun r => (row_hash r, row_offset r))
       (rows_of (len A) texts)) =
  List.map (fun e => (hash e, str e)) texts.
Proof.
  intros Hs. revert A.
  induction Hs as [|e texts He _ IH]; intros A Hsz; [reflexivity|].
  cbn [rows_of List.map row_hash row_offset blob_of].
  assert (Hlt : (len A <? blob_size) = true).
  { subst blob_size. cbn [blob_of]. rewrite !len_app, len_cons.
    pose proof (len_nonneg (encoded_str e)).
    pose proof (len_nonneg (blob_of texts)). lia. }
  rewrite Hlt. f_equal.
  - f_equal. rewrite skipn_len_app.
    rewrite encoded_str_storable by exact He.
    rewrite scan_string_terminated
      by (apply utf8_bytes_no_null, storable_positive; exact He).
    unfold decode_bytes.
    rewrite utf8_decode_encode by (apply storable_scalars; exact He).
    reflexivity.
  - specialize (IH (A ++ encoded_str e ++ [0])).
    assert (EA : (A ++ encoded_str e ++ [0]) ++ blob_of texts
                 = A ++ encoded_str e ++ 0 :: blob_of texts).
    { rewrite <- !app_assoc. reflexivity. }
    assert (EL : len (A ++ encoded_str e ++ [0])
                 = len A + len (encoded_str e) + 1).
    { rewrite !len_app, len_cons. change (len (@nil Z)) with 0. lia. }
    rewrite EA, EL in IH. apply IH.
    rewrite Hsz. reflexivity.
Qed.

(** The database that [GenerateDataBase] writes for entries with 32-bit
    hashes and storable texts, and the [results] list [ParseWhmTable] builds
    from it. *)
Lemma database_round_trip_results (texts : list ExportedTextEntry) :
  Forall (fun e => 0 <= hash e < 2 ^ 32 /\ storable (str e)) texts ->
  len texts < 2 ^ 32 ->
  len (blob_of texts) < 2 ^ 32 ->
  GenerateDataBase texts =
    Some (le32 (len texts) ++ row_bytes (rows_of 0 texts)
          ++ le32 (len (blob_of texts)) ++ blob_of texts)
  /\ ParseWhmTable_results
       (le32 (len texts) ++ row_bytes (rows_of 0 texts)
        ++ le32 (len (blob_of texts)) ++ blob_of texts)
     = inr (List.map (fun e => (hash e, str e)) texts).
Proof.
  intros Hok Hcount Hblob.
  assert (Hh : Forall (fun e => 0 <= hash e < 2 ^ 32) texts).
  { revert Hok. apply List.Forall_impl. tauto. }
  assert (Hs : Forall (fun e => storable (str e)) texts).
  { revert Hok. apply List.Forall_impl. tauto. }
  pose proof (len_nonneg texts) as Hn0.
  pose proof (len_nonneg (blob_of texts)) as Hb0.
  assert (Hrows : Forall (fun r => 0 <= row_hash r < 2 ^ 32
                                   /\ 0 <= row_offset r < 2 ^ 32)
                    (rows_of 0 texts)).
  { apply rows_of_in_range; [lia | exact Hh | lia]. }
  assert (Hrl : len (rows_of 0 texts) = len texts).
  { unfold len. rewrite rows_of_length. reflexivity. }
  split.
  - unfold GenerateDataBase.
    rewrite build_blob_layout
      by (try exact Hh; change (len (@nil Z)) with 0; lia).
    change (len (@nil Z)) with 0. cbn [app].
    rewrite Hrl, !pack_u32_bytes by lia.
    rewrite pack_rows_bytes by exact Hrows. reflexivity.
  - set (data := le32 (len texts) ++ row_bytes (rows_of 0 texts)
                 ++ le32 (len (blob_of texts)) ++ blob_of texts).
    assert (Hlen : len data = 4 + 8 * len texts + 4 + len (blob_of texts)).
    { subst data. rewrite !len_app, !len_le32, len_row_bytes, Hrl. lia. }
    unfold ParseWhmTable_results. fold data.
    destruct (len data <? 4) eqn:E0; [lia|].
    assert (Hc : read_u32 data 0 = len texts).
    { subst data. apply read_u32_le32_0. lia. }
    rewrite Hc.
    assert (Hn : Z.to_nat (len texts) = List.length (rows_of 0 texts)).
    { unfold len. rewrite Nat2Z.id, rows_of_length. reflexivity. }
    rewrite Hn.
    assert (Hrr : read_rows (List.length (rows_of 0 texts)) data 4
                  = Some (List.map (fun r => (row_hash r, row_offset r))
                            (rows_of 0 texts), 4 + 8 * len texts)).
    { pose proof (read_rows_packed (rows_of 0 texts) (le32 (len texts))
                    (le32 (len (blob_of texts)) ++ blob_of texts) Hrows)
        as Hp.
      rewrite len_le32, Hrl in Hp. exact Hp. }
    rewrite Hrr.
    destruct (len data <? 4 + 8 * len texts + 4) eqn:E1; [lia|].
    assert (Hsz : read_u32 data (4 + 8 * len texts) = len (blob_of texts)).
    { subst data.
      replace (le32 (len texts) ++ row_bytes (rows_of 0 texts)
               ++ le32 (len (blob_of texts)) ++ blob_of texts)
        with ((le32 (len texts) ++ row_bytes (rows_of 0 texts))
              ++ le32 (len (blob_of texts)) ++ blob_of texts)
        by (rewrite <- !app_assoc; reflexivity).
      apply read_u32_le32_at; [lia|].
      rewrite len_app, len_le32, len_row_bytes, Hrl. reflexivity. }
    rewrite Hsz.
    destruct (len data <? 4 + 8 * len texts + 4 + len (blob_of texts)) eqn:E2;
      [lia|].
    assert (Hblobv : firstn (Z.to_nat (len (blob_of texts)))
                       (skipn (Z.to_nat (4 + 8 * len texts + 4)) data)
                     = blob_of texts).
    { subst data.
      replace (le32 (len texts) ++ row_bytes (rows_of 0 texts)
               ++ le32 (len (blob_of texts)) ++ blob_of texts)
        with ((le32 (len texts) ++ row_bytes (rows_of 0 texts)
               ++ le32 (len (blob_of texts))) ++ blob_of texts)
        by (rewrite <- !app_assoc; reflexivity).
      replace (4 + 8 * len texts + 4)
        with (len (le32 (len texts) ++ row_bytes (rows_of 0 texts)
                   ++ le32 (len (blob_of texts))))
        by (rewrite !len_app, !len_le32, len_row_bytes, Hrl; lia).
      rewrite skipn_len_app. apply firstn_len_all. }
    rewrite Hblobv. f_equal.
    apply (decode_rows texts [] (len (blob_of texts))); [exact Hs | reflexivity].
Qed.


(** C5.  The round trip fails on what the program outputs.  [LoadText]
    returns, for a ledger line whose text holds the escape of a line feed,
    one entry whose text holds a line feed.  For this entry
    [GenerateDataBase] writes a database, and [ParseWhmTable] writes for
    that database the text of two lines, the same text as for the database
    of two entries: the text of an entry is written as it is, where
    [ExportText] escapes the line feed before it writes the same kind of
    line.  So what the decoder writes does not tell the pairs encoded. *)
Theorem database_dump_loses_pairs :
  LoadText [codes "0x00000001=a\n0x00000002=b"] = one_entry_two_lines
  /\ exists d1 d2 : list Z,
       GenerateDataBase one_entry_two_lines = Some d1
       /\ GenerateDataBase two_plain_entries = Some d2
       /\ d1 <> d2
       /\ ParseWhmTable d1
          = inr (codes "0x00000001=a" ++ [10] ++ codes "0x00000002=b" ++ [10])
       /\ ParseWhmTable d2 = ParseWhmTable d1.
Proof.
  split; [vm_compute; reflexivity|].
  eexists. eexists.
  split; [vm_compute; reflexivity|].
  split; [vm_compute; reflexivity|].
  split; [discriminate|].
  split; vm_compute; reflexivity.
Qed.

(** ** Files: what a write changes *)

Lemma nth_padded (old : list Z) (k j : nat) :
  nth j (old ++ repeat 0 k) 0 = nth j old 0.
Proof.
  destruct (Nat.lt_ge_cases j (List.length old)) as [Hlt|Hge].
  - apply app_nth1. exact Hlt.
  - rewrite app_nth2 by exact Hge. rewrite nth_repeat.
    symmetry. apply nth_overflow. exact Hge.
Qed.

Lemma nth_write (old bs : list Z) (p j : nat) :
  nth j (firstn p (old ++ repeat 0 (p - List.length old)) ++ bs
         ++ skipn (p + List.length bs)
              (old ++ repeat 0 (p - List.length old))) 0 =
    if ((p <=? j) && (j <? p + List.length bs))%nat
    then nth (j - p) bs 0 else nth j old 0.
Proof.
  set (padded := old ++ repeat 0 (p - List.length old)).
  assert (Hpl : (p <= List.length padded)%nat).
  { subst padded. rewrite length_app, repeat_length. lia. }
  assert (Hfl : List.length (firstn p padded) = p).
  { rewrite length_firstn. lia. }
  destruct (Nat.lt_ge_cases j p) as [Hlt|Hge].
  - assert (E : ((p <=? j) && (j <? p + List.length bs))%nat = false).
    { apply andb_false_iff. left. apply Nat.leb_gt. exact Hlt. }
    rewrite E. rewrite app_nth1 by lia.
    rewrite nth_firstn.
    assert (E2 : (j <? p)%nat = true) by (apply Nat.ltb_lt; exact Hlt).
    rewrite E2. apply nth_padded.
  - rewrite app_nth2 by lia. rewrite Hfl.
    destruct (Nat.lt_ge_cases j (p + List.length bs)) as [Hin|Hout].
    + assert (E : ((p <=? j) && (j <? p + List.length bs))%nat = true).
      { apply andb_true_iff. split; [apply Nat.leb_le | apply Nat.ltb_lt]; lia. }
      rewrite E. apply app_nth1. lia.
    + assert (E : ((p <=? j) && (j <? p + List.length bs))%nat = false).
      { apply andb_false_iff. right. apply Nat.ltb_ge. exact Hout. }
      rewrite E. rewrite app_nth2 by lia. rewrite nth_skipn.
      replace (p + List.length bs + (j - p - List.length bs))%nat with j by lia.
      apply nth_padded.
Qed.

Lemma fbyte_write (bs : list Z) (f : file) (j : Z) :
  0 <= fpos f -> 0 <= j ->
  fbyte (write bs f) j =
    if (fpos f <=? j) && (j <? fpos f + len bs)
    then byte_at bs (j - fpos f) else fbyte f j.
Proof.
  intros Hp Hj. unfold fbyte, write.
  destruct bs as [|b bs].
  - change (len (@nil Z)) with 0.
    assert (E : (fpos f <=? j) && (j <? fpos f + 0) = false) by lia.
    rewrite E. reflexivity.
  - cbn [fbytes]. unfold byte_at.
    rewrite nth_write. unfold len.
    destruct ((Z.to_nat (fpos f) <=? Z.to_nat j)%nat
              && (Z.to_nat j <? Z.to_nat (fpos f) + List.length (b :: bs))%nat)
      eqn:E1;
    destruct ((fpos f <=? j)
              && (j <? fpos f + Z.of_nat (List.length (b :: bs)))) eqn:E2;
    try reflexivity.
    + f_equal. lia.
    + exfalso. apply andb_true_iff in E1. destruct E1 as [Ea Eb].
      apply Nat.leb_le in Ea. apply Nat.ltb_lt in Eb.
      apply andb_false_iff in E2. destruct E2 as [E2|E2]; lia.
    + exfalso. apply andb_true_iff in E2. destruct E2 as [Ea Eb].
      apply andb_false_iff in E1.
      destruct E1 as [E1|E1];
        [apply Nat.leb_gt in E1 | apply Nat.ltb_ge in E1]; lia.
Qed.

Lemma fpos_write (bs : list Z) (f : file) :
  fpos (write bs f) = fpos f + len bs.
Proof.
  destruct bs; cbn [write fpos]; [|reflexivity].
  change (len (@nil Z)) with 0. lia.
Qed.

Lemma fpos_seek (p : Z) (f : file) : fpos (seek p f) = p.
Proof. reflexivity. Qed.

Lemma fbyte_seek (p : Z) (f : file) (j : Z) : fbyte (seek p f) j = fbyte f j.
Proof. reflexivity. Qed.

Lemma fword_ext (f g : file) (off : Z) :
  (forall j, off <= j < off + 4 -> fbyte f j = fbyte g j) ->
  fword f off = fword g off.
Proof.
  intros H. unfold fword, read_u32. unfold fbyte in H.
  rewrite !H by lia. reflexivity.
Qed.

Lemma pack_u32_inv (x : Z) (bs : list Z) :
  pack_u32 x = Some bs -> bs = le32 x /\ 0 <= x < 2 ^ 32.
Proof.
  intros H. assert (Hx : 0 <= x < 2 ^ 32).
  { unfold pack_u32 in H.
    destruct ((0 <=? x) && (x <? 4294967296)) eqn:E; [lia | discriminate]. }
  rewrite pack_u32_bytes in H by exact Hx. injection H as <-. auto.
Qed.

(** A field written at the position reads back. *)
Lemma fword_write_le32 (f : file) (pre post : list Z) (x off : Z) :
  0 <= fpos f -> 0 <= x < 2 ^ 32 -> off = fpos f + len pre ->
  fword (write (pre ++ le32 x ++ post) f) off = x.
Proof.
  intros Hp Hx ->. unfold fword, read_u32.
  pose proof (len_nonneg pre) as Hl.
  assert (Hb : forall k, 0 <= k < 4 ->
            byte_at (fbytes (write (pre ++ le32 x ++ post) f))
              (fpos f + len pre + k)
            = byte_at (le32 x ++ post) k).
  { intros k Hk. fold (fbyte (write (pre ++ le32 x ++ post) f)
                         (fpos f + len pre + k)).
    rewrite fbyte_write by lia.
    rewrite !len_app, len_le32. pose proof (len_nonneg post).
    assert (E : (fpos f <=? fpos f + len pre + k)
                && (fpos f + len pre + k <? fpos f + (len pre + (4 + len post)))
                = true) by lia.
    rewrite E.
    replace (fpos f + len pre + k - fpos f) with (len pre + k) by lia.
    apply byte_at_app_r. lia. }
  rewrite <- (Z.add_0_r (fpos f + len pre)) at 1.
  rewrite !Hb by lia.
  apply (read_u32_le32_0 post x Hx).
Qed.

(** ** The entry loop of [save_as_gxt] *)

Lemma save_entries_frame (tdat_offset : Z) (items : list (Z * list Z)) :
  forall (f : file) (D P : Z) (f' : file) (D' P' : Z),
    0 <= P -> 0 <= D ->
    save_entries tdat_offset items f D P = Some (f', D', P') ->
    P' = P + 8 * len items /\ D <= D'
    /\ forall j, 0 <= j -> ~ (P <= j < P') -> ~ (D <= j < D') ->
                 fbyte f' j = fbyte f j.
Proof.
  induction items as [|[hash_key value] items IH]; intros f D P f' D' P' HP HD Hs.
  - cbn in Hs. injection Hs as <- <- <-.
    change (len (@nil (Z * list Z))) with 0. repeat split; try lia; reflexivity.
  - cbn [save_entries] in Hs.
    destruct (utf8_encode value) as [encoded|]; [|discriminate].
    destruct (pack_u32 (D - tdat_offset - 8)) as [o|] eqn:Eo; [|discriminate].
    destruct (pack_u32 hash_key) as [h|] eqn:Eh; [|discriminate].
    apply pack_u32_inv in Eo. destruct Eo as [-> _].
    apply pack_u32_inv in Eh. destruct Eh as [-> _].
    unfold tell, SizeOfTKEY in Hs. rewrite fpos_write, fpos_seek in Hs.
    pose proof (len_nonneg (encoded ++ [0])) as Hl.
    apply IH in Hs; [|lia|lia].
    destruct Hs as (HP' & HD' & Hframe).
    pose proof (len_nonneg items) as Hn.
    rewrite len_cons. repeat split; try lia.
    intros j Hj HjP HjD.
    rewrite Hframe by lia.
    rewrite fbyte_write by (rewrite ?fpos_seek; lia).
    rewrite fpos_seek, len_app, !len_le32.
    assert (E1 : (P <=? j) && (j <? P + (4 + 4)) = false) by lia.
    rewrite E1, fbyte_seek.
    rewrite fbyte_write by (rewrite ?fpos_seek; lia).
    rewrite fpos_seek.
    assert (E2 : (D <=? j) && (j <? D + len (encoded ++ [0])) = false) by lia.
    rewrite E2. apply fbyte_seek.
Qed.

Lemma save_entries_records (tdat_offset : Z) (items : list (Z * list Z)) :
  forall (f : file) (D P : Z) (f' : file) (D' P' : Z),
    0 <= P -> P + 8 * len items <= D ->
    save_entries tdat_offset items f D P = Some (f', D', P') ->
    forall (i : nat) (item : Z * list Z),
      nth_error items i = Some item ->
      fword f' (P + 8 * Z.of_nat i + 4) = fst item
      /\ 0 <= fst item < 2 ^ 32.
Proof.
  induction items as [|[hash_key value] items IH];
    intros f D P f' D' P' HP HD Hs i item Hi.
  - destruct i; discriminate.
  - rewrite len_cons in HD. pose proof (len_nonneg items) as Hn.
    cbn [save_entries] in Hs.
    destruct (utf8_encode value) as [encoded|]; [|discriminate].
    destruct (pack_u32 (D - tdat_offset - 8)) as [o|] eqn:Eo; [|discriminate].
    destruct (pack_u32 hash_key) as [h|] eqn:Eh; [|discriminate].
    apply pack_u32_inv in Eo. destruct Eo as [-> Ho].
    apply pack_u32_inv in Eh. destruct Eh as [-> Hh].
    unfold tell, SizeOfTKEY in Hs. rewrite fpos_write, fpos_seek in Hs.
    pose proof (len_nonneg (encoded ++ [0])) as Hl.
    assert (H1 : 0 <= P + 8) by lia.
    assert (H2 : 0 <= D + len (encoded ++ [0])) by lia.
    assert (H3 : P + 8 + 8 * len items <= D + len (encoded ++ [0])) by lia.
    destruct i as [|i].
    + injection Hi as <-. cbn [fst]. split; [|exact Hh].
      destruct (save_entries_frame _ _ _ _ _ _ _ _ H1 H2 Hs)
        as (HP' & HD' & Hframe).
      transitivity
        (fword (write (le32 (D - tdat_offset - 8) ++ le32 hash_key)
                  (seek P (write (encoded ++ [0]) (seek D f)))) (P + 4)).
      * replace (P + 8 * Z.of_nat 0 + 4) with (P + 4) by lia.
        apply fword_ext. intros j Hj. apply Hframe; lia.
      * replace (le32 hash_key) with (le32 hash_key ++ []) by apply app_nil_r.
        apply fword_write_le32; rewrite ?fpos_seek, ?len_le32; lia.
    + cbn [nth_error] in Hi.
      replace (P + 8 * Z.of_nat (S i) + 4)
        with (P + 8 + 8 * Z.of_nat i + 4) by lia.
      apply (IH _ _ _ _ _ _ H1 H3 Hs i item Hi).
Qed.

(** ** Sorting *)

Lemma insert_sorted_perm {A : Type} (ltb : A -> A -> bool) (x : A)
  (l : list A) : Permutation (insert_sorted ltb x l) (x :: l).
Proof.
  induction l as [|y l IH]; cbn [insert_sorted]; [reflexivity|].
  destruct (ltb x y); [reflexivity|].
  rewrite IH. apply perm_swap.
Qed.

Lemma fold_insert_perm {A : Type} (ltb : A -> A -> bool) (l acc : list A) :
  Permutation (fold_left (fun acc x => insert_sorted ltb x acc) l acc)
    (l ++ acc).
Proof.
  revert acc. induction l as [|x l IH]; intros acc; cbn [fold_left app];
    [reflexivity|].
  rewrite IH, insert_sorted_perm. symmetry. apply Permutation_middle.
Qed.

Lemma py_sorted_perm {A : Type} (ltb : A -> A -> bool) (l : list A) :
  Permutation (py_sorted ltb l) l.
Proof.
  unfold py_sorted. rewrite fold_insert_perm, app_nil_r. reflexivity.
Qed.

Lemma insert_sorted_ascending (x : Z * list Z) (l : list (Z * list Z)) :
  StronglySorted Z.lt (hashes_of l) ->
  ~ In (fst x) (hashes_of l) ->
  StronglySorted Z.lt (hashes_of (insert_sorted item_ltb x l)).
Proof.
  induction l as [|y l IH]; intros Hs Hn.
  - cbn. constructor; constructor.
  - cbn [insert_sorted]. cbn [hashes_of List.map] in Hs, Hn.
    apply StronglySorted_inv in Hs. destruct Hs as [Hs Hall].
    assert (Hxy : fst x <> fst y) by (intros E; apply Hn; left; auto).
    assert (Hnl : ~ In (fst x) (hashes_of l)) by (intros E; apply Hn; right; auto).
    unfold item_ltb at 1.
    destruct (fst x <? fst y) eqn:E.
    + cbn [orb hashes_of List.map]. apply Z.ltb_lt in E.
      constructor.
      * constructor; assumption.
      * constructor; [exact E|].
        revert Hall. apply List.Forall_impl. intros a Ha. lia.
    + assert (E2 : (fst x =? fst y) = false) by (apply Z.eqb_neq; exact Hxy).
      rewrite E2. cbn [orb andb hashes_of List.map].
      apply Z.ltb_ge in E.
      constructor.
      * apply IH; assumption.
      * apply List.Forall_forall. intros a Ha.
        apply (Permutation_in (l' := hashes_of (x :: l))) in Ha.
        -- cbn in Ha. destruct Ha as [<-|Ha]; [lia|].
           rewrite List.Forall_forall in Hall. apply Hall. exact Ha.
        -- unfold hashes_of. apply Permutation_map. apply insert_sorted_perm.
Qed.

Lemma fold_insert_ascending (l acc : list (Z * list Z)) :
  StronglySorted Z.lt (hashes_of acc) ->
  List.NoDup (hashes_of l) ->
  (forall x, In x l -> ~ In (fst x) (hashes_of acc)) ->
  StronglySorted Z.lt
    (hashes_of (fold_left (fun acc x => insert_sorted item_ltb x acc) l acc)).
Proof.
  revert acc. induction l as [|x l IH]; intros acc Hs Hnd Hfresh;
    cbn [fold_left]; [exact Hs|].
  cbn [hashes_of List.map] in Hnd. apply List.NoDup_cons_iff in Hnd.
  destruct Hnd as [Hx Hnd].
  apply IH.
  - apply insert_sorted_ascending; [exact Hs|]. apply Hfresh. left. reflexivity.
  - exact Hnd.
  - intros z Hz Hin.
    apply (Permutation_in (l' := hashes_of (x :: acc))) in Hin.
    + cbn in Hin. destruct Hin as [E|Hin].
      * apply Hx. rewrite E. apply in_map. exact Hz.
      * apply (Hfresh z); [right; exact Hz | exact Hin].
    + unfold hashes_of. apply Permutation_map. apply insert_sorted_perm.
Qed.

Lemma sorted_items_ascending (entries : gmap Z (list Z)) :
  StronglySorted Z.lt (hashes_of (py_sorted item_ltb (map_to_list entries))).
Proof.
  unfold py_sorted. apply fold_insert_ascending.
  - constructor.
  - apply NoDup_ListNoDup. apply NoDup_fst_map_to_list.
  - intros x _ [].
Qed.

Lemma sorted_items_length (entries : gmap Z (list Z)) :
  len (py_sorted item_ltb (map_to_list entries)) = Z.of_nat (size entries).
Proof.
  unfold len. rewrite (Permutation_length (py_sorted_perm _ _)).
  rewrite length_map_to_list. reflexivity.
Qed.

Lemma sorted_items_keys (entries : gmap Z (list Z)) (h : Z) :
  In h (hashes_of (py_sorted item_ltb (map_to_list entries)))
  <-> is_Some (entries !! h).
Proof.
  unfold hashes_of. rewrite in_map_iff. split.
  - intros ([k v] & <- & Hin).
    apply (Permutation_in _ (py_sorted_perm _ _)) in Hin.
    apply list_elem_of_In, elem_of_map_to_list in Hin. exists v. exact Hin.
  - intros [v Hv]. exists (h, v). split; [reflexivity|].
    apply (Permutation_in _ (Permutation_sym (py_sorted_perm _ _))).
    apply list_elem_of_In, elem_of_map_to_list. exact Hv.
Qed.

(** ** One table of [save_as_gxt] *)

Lemma padded_name_length (table_name : list Z) :
  len (padded_name table_name) = 8.
Proof.
  unfold padded_name, len.
  set (name_bytes := firstn 7 (List.filter (fun c => c <? 128) table_name)).
  assert (H : (List.length name_bytes <= 7)%nat).
  { subst name_bytes. rewrite length_firstn. lia. }
  rewrite length_app, repeat_length. lia.
Qed.

Lemma fbyte_write_out (bs : list Z) (f : file) (j : Z) :
  0 <= fpos f -> 0 <= j -> j < fpos f \/ fpos f + len bs <= j ->
  fbyte (write bs f) j = fbyte f j.
Proof.
  intros Hp Hj Hout. rewrite fbyte_write by assumption.
  assert (E : (fpos f <=? j) && (j <? fpos f + len bs) = false) by lia.
  rewrite E. reflexivity.
Qed.

Lemma fbyte_write_in (bs : list Z) (f : file) (j : Z) :
  0 <= fpos f -> fpos f <= j < fpos f + len bs ->
  fbyte (write bs f) j = byte_at bs (j - fpos f).
Proof.
  intros Hp Hin. rewrite fbyte_write by lia.
  assert (E : (fpos f <=? j) && (j <? fpos f + len bs) = true) by lia.
  rewrite E. reflexivity.
Qed.

Lemma len_TKEY : len (codes "TKEY") = 4.
Proof. reflexivity. Qed.

Lemma len_TDAT : len (codes "TDAT") = 4.
Proof. reflexivity. Qed.

Ltac file_simpl :=
  rewrite ?fpos_write, ?fpos_seek, ?len_le32, ?padded_name_length,
    ?len_TKEY, ?len_TDAT.

Ltac file_pos := file_simpl; lia.

Lemma table_header_pos (table_name : list Z) (K kbs dbs : Z) (f : file)
  (T S : Z) :
  fpos (table_header table_name K kbs dbs f T S)
  = S + tkey_skip table_name + 8 + kbs + 8.
Proof. unfold table_header. file_pos. Qed.

Lemma save_table_unfold (table_name : list Z) (entries : gmap Z (list Z))
  (f : file) (T S K : Z) (r : file * Z * Z * Z) :
  save_table table_name entries f T S K = Some r ->
  exists dbs f' D' P',
    0 <= K < 2 ^ 32
    /\ 0 <= Z.of_nat (size entries) * 8 < 2 ^ 32
    /\ save_entries (S + tkey_skip table_name + 8 + Z.of_nat (size entries) * 8)
         (py_sorted item_ltb (map_to_list entries))
         (table_header table_name K (Z.of_nat (size entries) * 8) dbs f T S)
         (S + tkey_skip table_name + 8 + Z.of_nat (size entries) * 8 + 8)
         (S + tkey_skip table_name + 8)
       = Some (f', D', P')
    /\ r = (f', T + 12, D', D').
Proof.
  intros Hs. unfold save_table in Hs.
  destruct (_get_data_block_size entries) as [dbsz|]; [|discriminate].
  destruct (pack_u32 K) as [kbo|] eqn:EK; [|discriminate].
  destruct (pack_u32 (Z.of_nat (size entries) * SizeOfTKEY)) as [kbs|] eqn:EB;
    [|discriminate].
  destruct (pack_u32 dbsz) as [dbs|] eqn:ED; [|discriminate].
  apply pack_u32_inv in EK. destruct EK as [-> HK].
  apply pack_u32_inv in EB. destruct EB as [-> HB].
  apply pack_u32_inv in ED. destruct ED as [-> HD].
  unfold SizeOfTKEY, SizeOfTABL, tell in *.
  assert (Epos : forall g : file,
            fpos (write (le32 (Z.of_nat (size entries) * 8))
                    (write (codes "TKEY")
                       (if str_eqb table_name MAIN then seek S g
                        else write (padded_name table_name) (seek S g))))
            = S + tkey_skip table_name + 8).
  { intros g. unfold tkey_skip. destruct (str_eqb table_name MAIN); file_pos. }
  cbv zeta in Hs. rewrite !Epos in Hs.
  rewrite !fpos_write, !fpos_seek, len_TDAT, len_le32 in Hs.
  match type of Hs with
  | match save_entries ?a ?b ?c ?d ?e with _ => _ end = _ =>
      destruct (save_entries a b c d e) as [[[f' D'] P']|] eqn:ES;
        [|discriminate]
  end.
  injection Hs as <-.
  exists dbsz, f', D', P'. split; [exact HK|]. split; [exact HB|].
  split; [|reflexivity].
  rewrite <- ES. unfold table_header. f_equal. lia.
Qed.

Lemma fword_write_word (f : file) (x : Z) :
  0 <= fpos f -> 0 <= x < 2 ^ 32 -> fword (write (le32 x) f) (fpos f) = x.
Proof.
  intros Hp Hx.
  replace (le32 x) with ([] ++ le32 x ++ []) by reflexivity.
  apply fword_write_le32; [assumption | assumption |].
  change (len (@nil Z)) with 0. lia.
Qed.

Ltac peel :=
  repeat first
    [ rewrite fbyte_seek
    | rewrite fbyte_write_out by file_pos ].

Lemma table_header_bytes (table_name : list Z) (K kbs dbs : Z) (f : file)
  (T S : Z) :
  0 <= T -> T + 12 <= S -> 0 <= K < 2 ^ 32 -> 0 <= kbs < 2 ^ 32 ->
  let g := table_header table_name K kbs dbs f T S in
  fword g (T + 8) = K
  /\ (forall k, 0 <= k < 4 ->
      fbyte g (S + tkey_skip table_name + k) = byte_at (codes "TKEY") k)
  /\ fword g (S + tkey_skip table_name + 4) = kbs
  /\ (forall j, 0 <= j -> j < S -> ~ (T <= j < T + 12) ->
      fbyte g j = fbyte f j).
Proof.
  intros HT HS HK Hk g. subst g. unfold table_header, tkey_skip.
  destruct (str_eqb table_name MAIN) eqn:Em.
  - split; [|split; [|split]].
    + transitivity (fword (write (le32 K)
                             (write (padded_name table_name) (seek T f)))
                      (T + 8)).
      * apply fword_ext. intros j Hj. peel. reflexivity.
      * replace (T + 8)
          with (fpos (write (padded_name table_name) (seek T f)))
          by file_pos.
        apply fword_write_word; [file_pos | exact HK].
    + intros k Hk4. peel. rewrite fbyte_write_in by file_pos.
      f_equal. file_pos.
    + transitivity (fword (write (le32 kbs)
                             (write (codes "TKEY")
                                (seek S
                                   (write (le32 K)
                                      (write (padded_name table_name)
                                         (seek T f))))))
                      (S + 0 + 4)).
      * apply fword_ext. intros j Hj. peel. reflexivity.
      * replace (S + 0 + 4)
          with (fpos (write (codes "TKEY")
                        (seek S
                           (write (le32 K)
                              (write (padded_name table_name) (seek T f))))))
          by file_pos.
        apply fword_write_word; [file_pos | exact Hk].
    + intros j Hj HjS HjT. peel. reflexivity.
  - split; [|split; [|split]].
    + transitivity (fword (write (le32 K)
                             (write (padded_name table_name) (seek T f)))
                      (T + 8)).
      * apply fword_ext. intros j Hj. peel. reflexivity.
      * replace (T + 8)
          with (fpos (write (padded_name table_name) (seek T f)))
          by file_pos.
        apply fword_write_word; [file_pos | exact HK].
    + intros k Hk4. peel. rewrite fbyte_write_in by file_pos.
      f_equal. file_pos.
    + transitivity (fword (write (le32 kbs)
                             (write (codes "TKEY")
                                (write (padded_name table_name)
                                   (seek S
                                      (write (le32 K)
                                         (write (padded_name table_name)
                                            (seek T f)))))))
                      (S + 8 + 4)).
      * apply fword_ext. intros j Hj. peel. reflexivity.
      * replace (S + 8 + 4)
          with (fpos (write (codes "TKEY")
                        (write (padded_name table_name)
                           (seek S
                              (write (le32 K)
                                 (write (padded_name table_name)
                                    (seek T f)))))))
          by file_pos.
        apply fword_write_word; [file_pos | exact Hk].
    + intros j Hj HjS HjT. peel. reflexivity.
Qed.

Lemma tkey_skip_range (table_name : list Z) :
  tkey_skip table_name = 0 \/ tkey_skip table_name = 8.
Proof. unfold tkey_skip. destruct (str_eqb table_name MAIN); auto. Qed.

Lemma save_table_written (table_name : list Z) (entries : gmap Z (list Z))
  (f : file) (T S K : Z) (f' : file) (T' S' K' : Z) :
  0 <= T -> T + 12 <= S ->
  save_table table_name entries f T S K = Some (f', T', S', K') ->
  let P := S + tkey_skip table_name + 8 in
  let n := Z.of_nat (size entries) in
  T' = T + 12 /\ K' = S' /\ P + 8 * n + 8 <= S'
  /\ fword f' (T + 8) = K
  /\ (forall k, 0 <= k < 4 ->
      fbyte f' (S + tkey_skip table_name + k) = byte_at (codes "TKEY") k)
  /\ fword f' (S + tkey_skip table_name + 4) = 8 * n
  /\ (forall (i : nat) (item : Z * list Z),
        nth_error (py_sorted item_ltb (map_to_list entries)) i = Some item ->
        fword f' (P + 8 * Z.of_nat i + 4) = fst item)
  /\ (forall j, 0 <= j -> j < S -> ~ (T <= j < T + 12) ->
      fbyte f' j = fbyte f j).
Proof.
  intros HT HS Hs P n.
  apply save_table_unfold in Hs.
  destruct Hs as (dbs & g & D' & P' & HK & Hn & Hloop & Hr).
  injection Hr as -> -> -> ->.
  pose proof (tkey_skip_range table_name) as Hskip.
  fold n in Hn, Hloop. fold P in Hloop.
  assert (HP : 0 <= P) by (subst P; lia).
  assert (Hn0 : 0 <= n) by (subst n; lia).
  set (h := table_header table_name K (n * 8) dbs f T S) in Hloop.
  destruct (table_header_bytes table_name K (n * 8) dbs f T S HT HS HK Hn)
    as (Hh1 & Hh2 & Hh3 & Hh4).
  fold h in Hh1, Hh2, Hh3, Hh4.
  assert (HD : 0 <= P + n * 8 + 8) by lia.
  destruct (save_entries_frame _ _ _ _ _ _ _ _ HP HD Hloop)
    as (HP' & HD' & Hframe).
  rewrite sorted_items_length in HP'. fold n in HP'.
  assert (Hfit : P + 8 * len (py_sorted item_ltb (map_to_list entries))
                 <= P + n * 8 + 8).
  { rewrite sorted_items_length. fold n. lia. }
  pose proof (save_entries_records _ _ _ _ _ _ _ _ HP Hfit Hloop) as Hrec.
  split; [reflexivity|]. split; [reflexivity|]. split; [lia|].
  split; [|split; [|split; [|split]]].
  - rewrite <- Hh1. apply fword_ext. intros j Hj. apply Hframe; lia.
  - intros k Hk. rewrite <- Hh2 by exact Hk. apply Hframe; lia.
  - replace (8 * n) with (n * 8) by lia. rewrite <- Hh3.
    apply fword_ext. intros j Hj. apply Hframe; lia.
  - intros i item Hi. apply (Hrec i item Hi).
  - intros j Hj HjS HjT. rewrite Hframe by lia. apply Hh4; assumption.
Qed.

Lemma save_tables_written (tables : list (list Z * gmap Z (list Z))) :
  forall (f : file) (T S : Z) (f' : file),
    0 <= T -> T + 12 * len tables <= S ->
    save_tables tables f T S S = Some f' ->
    (forall (i : nat) (table_name : list Z) (entries : gmap Z (list Z)),
       nth_error tables i = Some (table_name, entries) ->
       table_at f' (T + 12 * Z.of_nat i) table_name entries)
    /\ (forall j, 0 <= j -> j < S -> ~ (T <= j < T + 12 * len tables) ->
        fbyte f' j = fbyte f j).
Proof.
  induction tables as [|[table_name entries] tables IH];
    intros f T S f' HT HS Hs.
  - cbn in Hs. injection Hs as <-. split.
    + intros i name entries Hi. destruct i; discriminate.
    + reflexivity.
  - rewrite len_cons in HS. pose proof (len_nonneg tables) as Hl.
    cbn [save_tables] in Hs.
    destruct (save_table table_name entries f T S S)
      as [[[[f1 T1] S1] K1]|] eqn:Et; [|discriminate].
    assert (HS12 : T + 12 <= S) by lia.
    destruct (save_table_written _ _ _ _ _ _ _ _ _ _ HT HS12 Et)
      as (-> & -> & Hend & Hw1 & Hw2 & Hw3 & Hw4 & Hw5).
    pose proof (tkey_skip_range table_name) as Hskip.
    assert (HT1 : 0 <= T + 12) by lia.
    assert (HS1 : T + 12 + 12 * len tables <= S1) by lia.
    destruct (IH _ _ _ _ HT1 HS1 Hs) as (IHt & IHf).
    assert (Hkeep : forall a, S <= a -> a + 4 <= S1 ->
              fword f' a = fword f1 a).
    { intros a Ha1 Ha2. apply fword_ext. intros j Hj. apply IHf; lia. }
    assert (Hdir : fword f' (T + 8) = S).
    { rewrite <- Hw1. apply fword_ext. intros j Hj. apply IHf; lia. }
    split.
    + intros i name ents Hi. destruct i as [|i].
      * injection Hi as <- <-. unfold table_at.
        replace (T + 12 * Z.of_nat 0) with T by lia.
        rewrite Hdir. split; [|split].
        -- intros k Hk. rewrite <- Hw2 by exact Hk. apply IHf; lia.
        -- rewrite <- Hw3. apply Hkeep; lia.
        -- intros i item Hi.
           assert (Hi' : (i < List.length
                                  (py_sorted item_ltb (map_to_list entries)))%nat)
             by (apply nth_error_Some; rewrite Hi; discriminate).
           rewrite <- (Hw4 i item Hi).
           assert (Hlen := sorted_items_length entries). unfold len in Hlen.
           apply Hkeep; lia.
      * cbn [nth_error] in Hi.
        replace (T + 12 * Z.of_nat (Datatypes.S i))
          with (T + 12 + 12 * Z.of_nat i) by lia.
        apply IHt. exact Hi.
    + intros j Hj HjS HjT. rewrite len_cons in HjT.
      rewrite IHf by lia. apply Hw5; lia.
Qed.

(** ** The hashes of a written table are ascending *)

Lemma map_seq_nth_error {A B : Type} (l : list A) (g : A -> B) :
  forall F : nat -> B,
    (forall i x, nth_error l i = Some x -> F i = g x) ->
    List.map F (seq 0 (List.length l)) = List.map g l.
Proof.
  induction l as [|x l IH]; intros F HF; [reflexivity|].
  cbn [List.length seq List.map]. f_equal.
  - apply HF. reflexivity.
  - rewrite <- seq_shift, List.map_map. apply IH.
    intros i y Hi. apply HF. exact Hi.
Qed.

Lemma sorted_tables_length (data : gmap (list Z) (gmap Z (list Z))) :
  len (sorted_tables data) = Z.of_nat (size data).
Proof.
  unfold len, sorted_tables.
  rewrite (Permutation_length (py_sorted_perm _ _)).
  rewrite length_map_to_list. reflexivity.
Qed.

(** C8.  For every document that [save_as_gxt] writes, and for every table
    of it, in the order of the table directory: the directory entry of the
    table gives the offset of its key block; there, after the name for
    tables other than [MAIN], stand the tag [TKEY], the size 8 times the
    number of entries, and one 8-byte record per entry; the hashes of these
    records, read in file order, are the keys of the table in strictly
    ascending order. *)
Theorem tkey_entries_ascending (data : gmap (list Z) (gmap Z (list Z)))
  (out : list Z) (i : nat) (table_name : list Z)
  (entries : gmap Z (list Z)) :
  save_as_gxt data = Some out ->
  nth_error (sorted_tables data) i = Some (table_name, entries) ->
  let key_block_offset := read_u32 out (12 + 12 * Z.of_nat i + 8) in
  let tkey := key_block_offset + tkey_skip table_name in
  let written_hashes :=
    List.map (fun k => read_u32 out (tkey + 8 + 8 * Z.of_nat k + 4))
      (seq 0 (size entries)) in
  (forall k, 0 <= k < 4 -> byte_at out (tkey + k) = byte_at (codes "TKEY") k)
  /\ read_u32 out (tkey + 4) = 8 * Z.of_nat (size entries)
  /\ written_hashes = hashes_of (py_sorted item_ltb (map_to_list entries))
  /\ StronglySorted Z.lt written_hashes
  /\ (forall h, In h written_hashes <-> is_Some (entries !! h)).
Proof.
  intros Hsave Hi. unfold save_as_gxt in Hsave.
  destruct (pack_u32 (Z.of_nat (size data) * SizeOfTABL)) as [tbs|] eqn:Et;
    [|discriminate].
  apply pack_u32_inv in Et. destruct Et as [-> Htbs].
  match type of Hsave with
  | match save_tables ?l ?f0 ?T ?S ?K with _ => _ end = _ =>
      destruct (save_tables l f0 T S K) as [f|] eqn:Es; [|discriminate]
  end.
  injection Hsave as <-.
  unfold SizeOfTABL in Es, Htbs.
  apply save_tables_written in Es;
    [|lia|rewrite sorted_tables_length; lia].
  destruct Es as [Hat _].
  specialize (Hat i table_name entries Hi).
  unfold table_at, fword, fbyte in Hat. destruct Hat as (Htag & Hsize & Hrec).
  cbv zeta.
  assert (Hlist :
            List.map
              (fun k =>
                 read_u32 (fbytes f)
                   (read_u32 (fbytes f) (12 + 12 * Z.of_nat i + 8)
                    + tkey_skip table_name + 8 + 8 * Z.of_nat k + 4))
              (seq 0 (size entries))
            = hashes_of (py_sorted item_ltb (map_to_list entries))).
  { unfold hashes_of.
    assert (Hlen := sorted_items_length entries). unfold len in Hlen.
    apply Nat2Z.inj in Hlen. rewrite <- Hlen.
    apply map_seq_nth_error. intros k item Hk. apply Hrec. exact Hk. }
  split; [exact Htag|]. split; [exact Hsize|]. split; [exact Hlist|].
  rewrite Hlist. split.
  - apply sorted_items_ascending.
  - apply sorted_items_keys.
Qed.

Lemma tkey_entries_ascending_witness :
  StronglySorted Z.lt
    (List.map
       (fun k =>
          read_u32 example_gxt
            (read_u32 example_gxt (12 + 12 * Z.of_nat 0 + 8)
             + tkey_skip MAIN + 8 + 8 * Z.of_nat k + 4))
       (seq 0 (size example_main))).
Proof.
  assert (H1 : save_as_gxt example_tables = Some example_gxt)
    by (vm_compute; reflexivity).
  assert (H2 : nth_error (sorted_tables example_tables) 0
               = Some (MAIN, example_main))
    by (vm_compute; reflexivity).
  destruct (tkey_entries_ascending example_tables example_gxt 0 MAIN
              example_main H1 H2) as (_ & _ & _ & Hs & _).
  exact Hs.
Defined.

(** * Further properties *)

(** ** Structures handed out lie within the arena *)

Lemma from_buffer_bounds (sizeof : Z) (block : list Z) (offset off : Z) :
  from_buffer sizeof block offset = Some off ->
  off = offset /\ 0 <= off /\ off + sizeof <= len block.
Proof.
  unfold from_buffer.
  destruct ((0 <=? offset) && (offset + sizeof <=? len block)) eqn:E;
    [|discriminate].
  intros H. injection H as <-. lia.
Qed.

Lemma span_loop_bounds (block : list Z) (offset element_size : Z) (n : nat) :
  forall (i : Z) (span : list Z) (msgs : list diagnostic),
    span_loop block offset element_size i n = (span, msgs) ->
    (List.length span <= n)%nat
    /\ forall (k : nat) (e : Z),
         nth_error span k = Some e ->
         e = offset + (i + Z.of_nat k) * element_size
         /\ 0 <= e /\ e + element_size <= len block.
Proof.
  induction n as [|n IH]; intros i span msgs Hs; cbn [span_loop] in Hs.
  - injection Hs as <- <-. split; [cbn; lia|]. intros [|k] e He; discriminate.
  - destruct (from_buffer element_size block (offset + i * element_size))
      as [element|] eqn:Ef.
    + destruct (span_loop block offset element_size (i + 1) n)
        as [span' msgs'] eqn:Er.
      injection Hs as <- <-.
      apply from_buffer_bounds in Ef. destruct Ef as (-> & Hlo & Hhi).
      destruct (IH _ _ _ Er) as [Hlen Hel].
      split; [cbn; lia|].
      intros [|k] e He.
      * injection He as <-. split; [f_equal; lia | lia].
      * cbn [nth_error] in He. destruct (Hel k e He) as (-> & H1 & H2).
        split; [f_equal; lia | lia].
    + injection Hs as <- <-. split; [cbn; lia|].
      intros [|k] e He; discriminate.
Qed.

(** X1.  Whatever the array reference and the arena, every element
    [get_span] returns is overlaid wholly inside the arena, element [k] at
    the offset plus [k] element sizes, and there are at most as many
    elements as the larger of the declared count and capacity. *)
Theorem get_span_within_arena (a : pgObjectArray) (block : list Z)
  (element_size : Z) (span : list Z) (msgs : list diagnostic) :
  get_span a block element_size = (span, msgs) ->
  (List.length span <= Z.to_nat (Z.max (count a) (size_ a)))%nat
  /\ forall (k : nat) (e : Z),
       nth_error span k = Some e ->
       e = pgObjectArray_o a + Z.of_nat k * element_size
       /\ 0 <= e /\ e + element_size <= len block.
Proof.
  unfold get_span. intros Hs.
  assert (Hnil : (span, msgs) = (span, msgs) -> span = [] ->
                 (List.length span <= Z.to_nat (Z.max (count a) (size_ a)))%nat
                 /\ forall (k : nat) (e : Z),
                      nth_error span k = Some e ->
                      e = pgObjectArray_o a + Z.of_nat k * element_size
                      /\ 0 <= e /\ e + element_size <= len block).
  { intros _ ->. split; [cbn; lia|]. intros [|k] e He; discriminate. }
  destruct ((len block =? 0) || negb (pgObjectArray_t a =? Cpu_Type)).
  { injection Hs as <- <-. apply Hnil; reflexivity. }
  destruct (len block <?
            pgObjectArray_o a + Z.max (count a) (size_ a) * element_size).
  - destruct (len block <? pgObjectArray_o a + count a * element_size).
    + injection Hs as <- <-. apply Hnil; reflexivity.
    + apply span_loop_bounds in Hs. destruct Hs as [Hlen Hel].
      split; [lia|]. intros k e He.
      destruct (Hel k e He) as (-> & H1 & H2). split; [f_equal; lia | lia].
  - apply span_loop_bounds in Hs. destruct Hs as [Hlen Hel].
    split; [lia|]. intros k e He.
    destruct (Hel k e He) as (-> & H1 & H2). split; [f_equal; lia | lia].
Qed.

Lemma get_span_within_arena_witness :
  (List.length [0; 4] <= Z.to_nat (Z.max 1 2))%nat
  /\ (4 = pgObjectArray_o (mkArray 0x50000000 1 2) + Z.of_nat 1 * 4
      /\ 0 <= 4 /\ 4 + 4 <= len [0; 0; 0; 0; 1; 1; 1; 1; 2]).
Proof.
  destruct (get_span_within_arena (mkArray 0x50000000 1 2)
              [0; 0; 0; 0; 1; 1; 1; 1; 2] 4 [0; 4] [] eq_refl) as [Hl He].
  split; [exact Hl|]. apply (He 1%nat 4). reflexivity.
Defined.

Lemma until_null_spec (bs raw : list Z) :
  until_null bs = Some raw ->
  ~ In 0 raw /\ exists rest, bs = raw ++ 0 :: rest.
Proof.
  revert raw. induction bs as [|b bs IH]; intros raw H; cbn [until_null] in H;
    [discriminate|].
  destruct (b =? 0) eqn:E.
  - apply Z.eqb_eq in E. subst b. injection H as <-.
    split; [intros []|]. exists bs. reflexivity.
  - apply Z.eqb_neq in E.
    destruct (until_null bs) as [r|]; [|discriminate].
    injection H as <-. destruct (IH r eq_refl) as [Hn [rest ->]].
    split.
    + intros [H|H]; [congruence | contradiction].
    + exists rest. reflexivity.
Qed.

Lemma until_null_terminated (raw rest : list Z) :
  ~ In 0 raw -> until_null (raw ++ 0 :: rest) = Some raw.
Proof.
  induction raw as [|b raw IH]; intros Hn; [reflexivity|].
  cbn [app until_null].
  destruct (b =? 0) eqn:E.
  - apply Z.eqb_eq in E. exfalso. apply Hn. left. exact E.
  - rewrite IH; [reflexivity|]. intros H. apply Hn. right. exact H.
Qed.

(** X2.  A string [locate] returns is the run of bytes that starts at the
    offset of a reference with tag 5 and stops before the first null byte:
    it holds no null byte, the arena holds it at the offset followed by a
    null byte, and all of it lies inside the arena. *)
Theorem locate_string_sound (v : Z) (block raw : list Z) :
  locate v block c_char = Some (LBytes raw) ->
  pgPtr_t v = Cpu_Type
  /\ ~ In 0 raw
  /\ pgPtr_o v + len raw < len block
  /\ exists pre post,
       block = pre ++ raw ++ 0 :: post /\ len pre = pgPtr_o v.
Proof.
  unfold locate. intros H.
  destruct ((len block =? 0) || negb (pgPtr_t v =? Cpu_Type)) eqn:E1;
    [discriminate|].
  destruct (len block <=? pgPtr_o v) eqn:E2; [discriminate|].
  destruct (until_null (skipn (Z.to_nat (pgPtr_o v)) block)) as [r|] eqn:Eu;
    [|discriminate].
  injection H as <-.
  apply orb_false_iff in E1. destruct E1 as [_ Et].
  apply negb_false_iff, Z.eqb_eq in Et.
  apply Z.leb_gt in E2.
  apply until_null_spec in Eu. destruct Eu as [Hn [rest Hrest]].
  assert (Ho : 0 <= pgPtr_o v).
  { unfold pgPtr_o. apply Z.land_nonneg. right. lia. }
  assert (Hsplit : block = firstn (Z.to_nat (pgPtr_o v)) block
                           ++ r ++ 0 :: rest).
  { rewrite <- Hrest. symmetry. apply firstn_skipn. }
  assert (Hpre : len (firstn (Z.to_nat (pgPtr_o v)) block) = pgPtr_o v).
  { unfold len in *. rewrite length_firstn. lia. }
  split; [exact Et|]. split; [exact Hn|]. split.
  - rewrite Hsplit at 1. rewrite !len_app, len_cons, Hpre.
    pose proof (len_nonneg rest). lia.
  - exists (firstn (Z.to_nat (pgPtr_o v)) block), rest. auto.
Qed.

Lemma locate_string_sound_witness :
  ~ In 0 (codes "Hi").
Proof.
  destruct (locate_string_sound 0x50000002 ([7; 7] ++ codes "Hi" ++ [0; 9])
              (codes "Hi") eq_refl) as (_ & Hn & _).
  exact Hn.
Defined.

(** X3.  Round trip of a string through the arena: where an arena holds a
    string without null bytes followed by a null byte, a reference with
    tag 5 to the offset of its first byte locates exactly that string. *)
Theorem locate_string_complete (pre raw post : list Z) :
  ~ In 0 raw -> len pre < 2 ^ 28 ->
  locate (0x50000000 + len pre) (pre ++ raw ++ 0 :: post) c_char
  = Some (LBytes raw).
Proof.
  intros Hn Hpre. pose proof (len_nonneg pre) as Hp0.
  assert (Ho : pgPtr_o (0x50000000 + len pre) = len pre).
  { rewrite pgPtr_o_mod. change 0x50000000 with (5 * 2 ^ 28).
    rewrite Z.add_comm, Z.mod_add by lia. apply Z.mod_small. lia. }
  assert (Ht : pgPtr_t (0x50000000 + len pre) = 5).
  { rewrite pgPtr_t_div by lia. change 0x50000000 with (5 * 2 ^ 28).
    rewrite Z.add_comm, Z.div_add by lia. rewrite Z.div_small by lia.
    reflexivity. }
  unfold locate. rewrite Ht, Ho.
  assert (Hl : len (pre ++ raw ++ 0 :: post)
               = len pre + len raw + 1 + len post).
  { rewrite !len_app, len_cons. lia. }
  pose proof (len_nonneg raw). pose proof (len_nonneg post).
  assert (E1 : (len (pre ++ raw ++ 0 :: post) =? 0) = false) by lia.
  assert (E2 : (len (pre ++ raw ++ 0 :: post) <=? len pre) = false) by lia.
  rewrite E1, E2. cbn [orb negb Z.eqb Cpu_Type Pos.eqb].
  rewrite skipn_len_app, until_null_terminated by exact Hn. reflexivity.
Qed.

Lemma locate_string_complete_witness :
  locate (0x50000000 + len [7; 7]) ([7; 7] ++ codes "Hi" ++ 0 :: [9]) c_char
  = Some (LBytes (codes "Hi")).
Proof.
  apply (locate_string_complete [7; 7] (codes "Hi") [9]).
  - intros H. vm_compute in H. lia.
  - reflexivity.
Defined.

(** ** The size of the arena *)

Lemma uncompressed_size_nonneg (flags : Z) : 0 <= uncompressed_size flags.
Proof.
  unfold uncompressed_size, GetVirtualSize, GetPhysicalSize,
    GetVirtualPageSize, GetPhysicalPageSize,
    virtual1xPageSize, physical1xPageSize, virtual16xPageCount,
    physical16xPageCount, virtual1xPageFlag, virtual2xPageFlag,
    virtual4xPageFlag, virtual8xPageFlag, physical1xPageFlag,
    physical2xPageFlag, physical4xPageFlag, physical8xPageFlag.
  pose proof (bits_range flags 0 1 ltac:(lia) ltac:(lia)).
  pose proof (bits_range flags 1 1 ltac:(lia) ltac:(lia)).
  pose proof (bits_range flags 2 1 ltac:(lia) ltac:(lia)).
  pose proof (bits_range flags 3 1 ltac:(lia) ltac:(lia)).
  pose proof (bits_range flags 4 7 ltac:(lia) ltac:(lia)).
  pose proof (bits_range flags 11 4 ltac:(lia) ltac:(lia)).
  pose proof (bits_range flags 15 1 ltac:(lia) ltac:(lia)).
  pose proof (bits_range flags 16 1 ltac:(lia) ltac:(lia)).
  pose proof (bits_range flags 17 1 ltac:(lia) ltac:(lia)).
  pose proof (bits_range flags 18 1 ltac:(lia) ltac:(lia)).
  pose proof (bits_range flags 19 7 ltac:(lia) ltac:(lia)).
  pose proof (bits_range flags 26 4 ltac:(lia) ltac:(lia)).
  rewrite !Z.shiftl_1_l.
  assert (0 < 2 ^ (bits flags 11 4 + 8)) by (apply Z.pow_pos_nonneg; lia).
  assert (0 < 2 ^ (bits flags 26 4 + 8)) by (apply Z.pow_pos_nonneg; lia).
  nia.
Qed.

Lemma firstn_repeat_min (a : Z) (n m : nat) :
  firstn n (repeat a m) = repeat a (Nat.min n m).
Proof.
  revert m. induction n as [|n IH]; intros [|m]; cbn; try reflexivity.
  rewrite IH. reflexivity.
Qed.

(** X4.  Whatever the flags word and whatever zlib returned, the arena
    [UnpackWhm] builds has exactly the expected decompressed size: it is the
    inflated data followed by zeros, cut at that size. *)
Theorem UnpackWhm_arena_size (flags : Z) (inflated : list Z) :
  len (UnpackWhm_arena flags inflated) = uncompressed_size flags
  /\ UnpackWhm_arena flags inflated
     = firstn (Z.to_nat (uncompressed_size flags))
         (inflated ++ repeat 0 (Z.to_nat (uncompressed_size flags))).
Proof.
  pose proof (uncompressed_size_nonneg flags) as Hn.
  unfold UnpackWhm_arena.
  set (expected := uncompressed_size flags) in *.
  set (actual := Z.of_nat (List.length inflated)).
  assert (Hclosed :
            (if actual =? expected then inflated
             else if actual <? expected
                  then inflated ++ repeat 0 (Z.to_nat (expected - actual))
                  else firstn (Z.to_nat expected) inflated)
            = firstn (Z.to_nat expected)
                (inflated ++ repeat 0 (Z.to_nat expected))).
  { destruct (actual =? expected) eqn:E1.
    - apply Z.eqb_eq in E1.
      rewrite firstn_app.
      replace (Z.to_nat expected) with (List.length inflated) by lia.
      rewrite firstn_all, Nat.sub_diag. cbn. symmetry. apply app_nil_r.
    - apply Z.eqb_neq in E1. destruct (actual <? expected) eqn:E2.
      + apply Z.ltb_lt in E2.
        rewrite firstn_app.
        rewrite firstn_all2 by lia. f_equal.
        rewrite firstn_repeat_min. f_equal. lia.
      + apply Z.ltb_ge in E2.
        rewrite firstn_app.
        replace (Z.to_nat expected - List.length inflated)%nat with 0%nat
          by lia.
        cbn. symmetry. apply app_nil_r. }
  rewrite Hclosed. split; [|reflexivity].
  unfold len. rewrite length_firstn, length_app, repeat_length. lia.
Qed.

(** ** What the walk keeps *)

Lemma fnv1a_32_range (data : list Z) : 0 <= fnv1a_32 data < 2 ^ 32.
Proof.
  unfold fnv1a_32.
  assert (H : forall h, 0 <= h < 2 ^ 32 ->
            0 <= fold_left fnv1a_step data h < 2 ^ 32).
  { induction data as [|b data IH]; intros h Hh; [exact Hh|].
    cbn [fold_left]. apply IH. unfold fnv1a_step.
    change 0xFFFFFFFF with (2 ^ 32 - 1). rewrite land_low by lia.
    apply Z.mod_pos_bound. lia. }
  apply H. unfold FNV_OFFSET_BASIS_32. lia.
Qed.

Lemma grows_refl (s : walk_state) : grows s s.
Proof.
  exists []. cbn. rewrite app_nil_r.
  split; [reflexivity|]. split; [symmetry; apply union_empty_r_L|].
  split; [constructor|].
  split; [intros e []|]. exists []. rewrite app_nil_r. reflexivity.
Qed.

Lemma grows_trans (s1 s2 s3 : walk_state) :
  grows s1 s2 -> grows s2 s3 -> grows s1 s3.
Proof.
  intros (a1 & Hc1 & Hh1 & Hn1 & He1 & m1 & Hm1)
         (a2 & Hc2 & Hh2 & Hn2 & He2 & m2 & Hm2).
  exists (a1 ++ a2).
  split; [rewrite Hc2, Hc1, app_assoc; reflexivity|].
  split.
  { rewrite Hh2, Hh1, List.map_app, list_to_set_app_L.
    symmetry. apply (assoc_L (∪)). }
  split.
  { rewrite List.map_app. apply List.NoDup_app; [exact Hn1 | exact Hn2 |].
    intros h Hin1 Hin2.
    apply in_map_iff in Hin2. destruct Hin2 as (e & <- & Hin2).
    destruct (He2 e Hin2) as (Hnot & _).
    apply Hnot. rewrite Hh1. apply elem_of_union_r.
    apply elem_of_list_to_set, list_elem_of_In. exact Hin1. }
  split.
  { intros e Hin. apply in_app_iff in Hin. destruct Hin as [Hin|Hin].
    - apply He1. exact Hin.
    - destruct (He2 e Hin) as (Hnot & Hf & Hv).
      split; [|auto]. intros Hs. apply Hnot. rewrite Hh1.
      apply elem_of_union_l. exact Hs. }
  exists (m1 ++ m2). rewrite Hm2, Hm1, app_assoc. reflexivity.
Qed.

Lemma grows_warn (msgs : list diagnostic) (s : walk_state) :
  grows s (warn msgs s).
Proof.
  exists []. cbn. rewrite app_nil_r.
  split; [reflexivity|]. split; [symmetry; apply union_empty_r_L|].
  split; [constructor|].
  split; [intros e []|]. exists msgs. reflexivity.
Qed.

Lemma grows_TryAppendString (ptr : list Z) (s : walk_state) :
  grows s (TryAppendString ptr s).
Proof.
  unfold TryAppendString.
  destruct ptr as [|b ptr]; [apply grows_refl|].
  destruct (validate_string (b :: ptr)) eqn:Ev; [|apply grows_refl].
  destruct (decide (fnv1a_32 (b :: ptr) ∈ hashes s)) as [Hin|Hnot];
    [apply grows_refl|].
  exists [mkEntry (fnv1a_32 (b :: ptr)) (b :: ptr)]. cbn [container hashes stderr].
  split; [reflexivity|].
  split; [cbn [List.map list_to_set hash]; rewrite union_empty_r_L; reflexivity|].
  split; [cbn; constructor; [intros []|constructor]|].
  split.
  - intros e [<-|[]]. cbn [hash str]. auto.
  - exists []. rewrite app_nil_r. reflexivity.
Qed.

Lemma outcome_grows_trans (s s1 : walk_state) (o : outcome) :
  grows s s1 -> outcome_grows s1 o -> outcome_grows s o.
Proof.
  intros H. destruct o as [s'|s'|]; cbn; try exact (grows_trans _ _ _ H); auto.
Qed.

Lemma extract_data_node_grows (py : interpreter) (depth : nat) (node : Z)
  (block : list Z) (s : walk_state) :
  outcome_grows s (extract_data_node py depth node block s).
Proof.
  unfold extract_data_node.
  destruct (depth <? frames_cast py)%nat; [apply grows_warn|].
  destruct (node + sizeof_CHtmlDataNode <=? len block); [|exact I].
  destruct (depth <? frames_helpers py)%nat; [apply grows_warn|].
  destruct (locate _ block c_char) as [[raw|off]|]; cbn [outcome_grows];
    try apply grows_refl.
  destruct raw as [|b raw]; [apply grows_refl|].
  destruct (depth <? frames_TryAppendString py (b :: raw))%nat;
    cbn [outcome_grows]; [apply grows_warn | apply grows_TryAppendString].
Qed.

Lemma ExtractNodeStrings_grows (py : interpreter) (depth : nat) :
  forall (node : Z) (block : list Z) (s : walk_state),
    outcome_grows s (ExtractNodeStrings py depth node block s).
Proof.
  induction depth as [|depth IH]; intros node block s.
  - cbn. apply grows_refl.
  - rewrite ExtractNodeStrings_step.
    assert (Hc : outcome_grows s (walk_children py depth node block s)).
    { unfold walk_children.
      destruct (depth <? frames_helpers py)%nat; [apply grows_refl|].
      destruct (get_span _ block sizeof_pgPtr) as [span msgs].
      assert (Hfold : forall (l : list Z) (acc : outcome),
                outcome_grows s acc ->
                outcome_grows s
                  (fold_left
                     (fun acc element_ptr =>
                        match acc with
                        | Done s1 =>
                            match locate (read_u32 block element_ptr) block
                                    (c_struct sizeof_CHtmlNode) with
                            | Some (LStruct child_node) =>
                                ExtractNodeStrings py depth child_node block s1
                            | _ => Done s1
                            end
                        | _ => acc
                        end) l acc)).
      { induction l as [|e l IHl]; intros acc Hacc; [exact Hacc|].
        cbn [fold_left]. apply IHl.
        destruct acc as [s1|s1|]; try exact Hacc.
        destruct (locate (read_u32 block e) block (c_struct sizeof_CHtmlNode))
          as [[raw|child]|]; try exact Hacc.
        apply (outcome_grows_trans s s1); [exact Hacc | apply IH]. }
      apply Hfold. cbn. apply grows_warn. }
    destruct (walk_children py depth node block s) as [s1|s1|]; try exact Hc.
    cbv zeta.
    destruct (HtmlNodeType_of (read_u32 block (node + offset_m_eNodeType)))
      as [[| | |]|]; try exact Hc.
    + apply (outcome_grows_trans s s1); [exact Hc|].
      apply extract_data_node_grows.
    + cbn. apply (grows_trans s s1); [exact Hc | apply grows_warn].
Qed.

Lemma ExtractWhmStrings_grows (py : interpreter) (depth : nat)
  (block : list Z) (hashes0 : gset Z) (s : walk_state) :
  ExtractWhmStrings py depth block hashes0 = Some s ->
  grows {| container := []; hashes := hashes0; stderr := [] |} s.
Proof.
  unfold ExtractWhmStrings.
  set (s0 := {| container := []; hashes := hashes0; stderr := [] |}).
  intros H.
  destruct (len block =? 0); [injection H as <-; apply grows_refl|].
  destruct (from_buffer sizeof_CHtmlDocument block 0) as [p_doc|];
    [|injection H as <-; apply grows_warn].
  destruct (depth <? frames_helpers py)%nat;
    [injection H as <-; apply grows_warn|].
  destruct (locate _ block (c_struct sizeof_CHtmlNode)) as [[raw|body]|];
    try (injection H as <-; apply grows_warn).
  pose proof (ExtractNodeStrings_grows py depth body block s0) as Hg.
  destruct (ExtractNodeStrings py depth body block s0) as [s1|s1|];
    [| |discriminate].
  - injection H as <-. exact Hg.
  - injection H as <-. apply (grows_trans s0 s1); [exact Hg | apply grows_warn].
Qed.

(** X5.  Whatever the arena, the recursion limit and the hashes already
    seen in the run, the entries [ExtractWhmStrings] returns for a file
    have pairwise distinct hashes, none of which was seen before; each hash
    is the 32-bit FNV-1a hash of the entry's bytes, each string passed the
    filter, and the set handed to the next file is the set received plus
    exactly these hashes. *)
Theorem ExtractWhmStrings_entries (py : interpreter) (depth : nat)
  (block : list Z) (hashes0 : gset Z) (s : walk_state) :
  ExtractWhmStrings py depth block hashes0 = Some s ->
  List.NoDup (List.map hash (container s))
  /\ (forall e, In e (container s) ->
        (hash e ∉ hashes0)
        /\ hash e = fnv1a_32 (str e) /\ 0 <= hash e < 2 ^ 32
        /\ validate_string (str e) = true)
  /\ hashes s = hashes0 ∪ list_to_set (List.map hash (container s)).
Proof.
  intros H. apply ExtractWhmStrings_grows in H.
  destruct H as (added & Hc & Hh & Hn & He & _).
  cbn [container hashes app] in Hc, Hh, He. rewrite Hc.
  split; [exact Hn|]. split; [|exact Hh].
  intros e Hin. destruct (He e Hin) as (H1 & H2 & H3).
  split; [exact H1|]. split; [exact H2|]. split; [|exact H3].
  rewrite H2. apply fnv1a_32_range.
Qed.

Lemma ExtractWhmStrings_entries_witness :
  List.NoDup
    (List.map hash
       [mkEntry (fnv1a_32 (codes "Hello")) (codes "Hello")]).
Proof.
  assert (H : ExtractWhmStrings example_interpreter 9 unknown_kind_arena ∅
              = Some {| container :=
                          [mkEntry (fnv1a_32 (codes "Hello")) (codes "Hello")];
                        hashes := ∅ ∪ {[fnv1a_32 (codes "Hello")]};
                        stderr := [UnknownNodeType 7] |})
    by (vm_compute; reflexivity).
  destruct (ExtractWhmStrings_entries example_interpreter 9
              unknown_kind_arena ∅ _ H)
    as (Hn & _).
  exact Hn.
Defined.

Lemma ExportHtml_from_distinct (py : interpreter) (depth : nat)
  (blocks : list (list Z)) :
  forall (hashes0 : gset Z) (containers : list (list ExportedTextEntry)),
    ExportHtml_from py depth blocks hashes0 = Some containers ->
    List.length containers = List.length blocks
    /\ List.NoDup (List.map hash (concat containers))
    /\ forall e, In e (concat containers) ->
         (hash e ∉ hashes0) /\ hash e = fnv1a_32 (str e)
         /\ validate_string (str e) = true.
Proof.
  induction blocks as [|block blocks IH]; intros hashes0 containers H;
    cbn [ExportHtml_from] in H.
  - injection H as <-. cbn. split; [reflexivity|].
    split; [constructor | intros e []].
  - destruct (ExtractWhmStrings py depth block hashes0) as [s|] eqn:Es;
      [|discriminate].
    destruct (ExportHtml_from py depth blocks (hashes s)) as [rest|] eqn:Er;
      [|discriminate].
    injection H as <-.
    apply ExtractWhmStrings_grows in Es.
    destruct Es as (added & Hc & Hh & Hn & He & _).
    cbn [container hashes app] in Hc, Hh, He.
    destruct (IH _ _ Er) as (Hlen & Hnr & Her).
    cbn [concat List.length]. rewrite Hc.
    split; [lia|]. split.
    + rewrite List.map_app. apply List.NoDup_app; [exact Hn | exact Hnr |].
      intros h Hin1 Hin2.
      apply in_map_iff in Hin2. destruct Hin2 as (e & <- & Hin2).
      destruct (Her e Hin2) as (Hnot & _). apply Hnot. rewrite Hh.
      apply elem_of_union_r, elem_of_list_to_set, list_elem_of_In.
      exact Hin1.
    + intros e Hin. apply in_app_iff in Hin. destruct Hin as [Hin|Hin].
      * apply He. exact Hin.
      * destruct (Her e Hin) as (Hnot & Hf & Hv). split; [|auto].
        intros Hs. apply Hnot. rewrite Hh. apply elem_of_union_l. exact Hs.
Qed.

(** X6.  Over a whole run of [ExportHtml], one container comes out for each
    file, and no hash occurs twice in all the containers together: a string
    exported for one file is not exported again for a later file, nor twice
    in one file. *)
Theorem ExportHtml_no_duplicates (py : interpreter) (depth : nat)
  (blocks : list (list Z)) (containers : list (list ExportedTextEntry)) :
  ExportHtml py depth blocks = Some containers ->
  List.length containers = List.length blocks
  /\ List.NoDup (List.map hash (concat containers))
  /\ forall e, In e (concat containers) ->
       hash e = fnv1a_32 (str e) /\ validate_string (str e) = true.
Proof.
  intros H. apply ExportHtml_from_distinct in H.
  destruct H as (Hl & Hn & He). split; [exact Hl|]. split; [exact Hn|].
  intros e Hin. destruct (He e Hin) as (_ & H1 & H2). auto.
Qed.

Lemma ExportHtml_no_duplicates_witness :
  ExportHtml example_interpreter 9 [unknown_kind_arena; unknown_kind_arena]
  = Some [[mkEntry (fnv1a_32 (codes "Hello")) (codes "Hello")]; []]
  /\ List.NoDup
       (List.map hash
          (concat [[mkEntry (fnv1a_32 (codes "Hello")) (codes "Hello")]; []])).
Proof.
  assert (H : ExportHtml example_interpreter 9
                [unknown_kind_arena; unknown_kind_arena]
              = Some [[mkEntry (fnv1a_32 (codes "Hello")) (codes "Hello")]; []])
    by (vm_compute; reflexivity).
  split; [exact H|].
  destruct (ExportHtml_no_duplicates example_interpreter 9 _ _ H)
    as (_ & Hn & _).
  exact Hn.
Defined.

(** ** The recursion limit *)









(** At a limit that lets the walk reach the data node of
    [unknown_kind_arena] but not run [TryAppendString] on its bytes, the
    walk ends normally with the message of the [except] branch and without
    the string. *)
Lemma swallowed_RecursionError_example :
  exists s',
    ExtractNodeStrings example_interpreter 8 48 unknown_kind_arena empty_walk
    = Done s'
    /\ container s' = []
    /\ stderr s' = [DataNodeError; UnknownNodeType 7].
Proof.
  eexists. split; [vm_compute; reflexivity|]. split; reflexivity.
Qed.

(** ** How [ParseWhmTable] fails *)




(** ** What [LoadText] returns *)

Lemma hex_digit_value_range (c : Z) :
  is_hex_digit c = true -> 0 <= hex_digit_value c < 16.
Proof.
  unfold is_hex_digit, hex_digit_value. intros H.
  destruct (c <=? 57) eqn:E1; [lia|]. destruct (c <=? 70) eqn:E2; lia.
Qed.

Lemma int16_from_range (digits : list Z) :
  forall acc : Z,
    0 <= acc -> forallb is_hex_digit digits = true ->
    0 <= fold_left (fun acc c => 16 * acc + hex_digit_value c) digits acc
      < (acc + 1) * 16 ^ Z.of_nat (List.length digits).
Proof.
  induction digits as [|c digits IH]; intros acc Hacc Hd.
  - cbn. lia.
  - cbn [forallb] in Hd. apply andb_true_iff in Hd. destruct Hd as [Hc Hd].
    apply hex_digit_value_range in Hc.
    cbn [fold_left List.length].
    specialize (IH (16 * acc + hex_digit_value c) ltac:(lia) Hd).
    rewrite Nat2Z.inj_succ, Z.pow_succ_r by lia.
    assert (0 < 16 ^ Z.of_nat (List.length digits))
      by (apply Z.pow_pos_nonneg; lia).
    nia.
Qed.

Lemma entry_regex_match_hash (line : list Z) (h : Z) (g : list Z) :
  entry_regex_match line = Some (h, g) -> 0 <= h < 2 ^ 32.
Proof.
  unfold entry_regex_match.
  destruct line as [|c0 [|cx rest]]; try discriminate.
  destruct ((c0 =? 48) && ((cx =? 120) || (cx =? 88))
            && Nat.eqb (List.length (firstn 8 rest)) 8
            && forallb is_hex_digit (firstn 8 rest)) eqn:E; [|discriminate].
  destruct (skipn 8 rest) as [|ceq text]; [discriminate|].
  destruct (ceq =? 61); [|discriminate].
  intros H. injection H as <- _.
  apply andb_true_iff in E. destruct E as [E Hd].
  apply andb_true_iff in E. destruct E as [_ Hl].
  apply Nat.eqb_eq in Hl.
  pose proof (int16_from_range (firstn 8 rest) 0 ltac:(lia) Hd) as Hr.
  rewrite Hl in Hr. unfold int16. change (16 ^ Z.of_nat 8) with (2 ^ 32) in Hr.
  lia.
Qed.

Lemma line_entries_In (raw : list Z) (e : ExportedTextEntry) :
  In e (line_entries raw) ->
  load_line raw = Matched (hash e) (str e) true.
Proof.
  unfold line_entries.
  destruct (load_line raw) as [| |h t [|]]; cbn [In];
    try (intros H; contradiction).
  intros [<-|H]; [reflexivity|contradiction].
Qed.

Lemma load_line_matched (raw : list Z) (h : Z) (t : list Z) (kept : bool) :
  load_line raw = Matched h t kept ->
  0 <= h < 2 ^ 32 /\ kept = accepts h t.
Proof.
  unfold load_line.
  destruct (strip raw) as [|c line]; [discriminate|].
  destruct (c =? 59); [discriminate|].
  destruct (entry_regex_match (c :: line)) as [[h' g]|] eqn:Em; [|discriminate].
  intros H. injection H as <- <- <-.
  split; [|reflexivity]. apply (entry_regex_match_hash _ _ _ Em).
Qed.

(** X9.  Every entry [LoadText] returns comes from a line of the file that
    matched, has a hash of 32 bits, a text that is not blank, and a hash
    different from the FNV-1a hash of its windows-1252 bytes; so writing
    its hash with [struct.pack] cannot fail. *)
Theorem LoadText_entries (lines : list (list Z)) (e : ExportedTextEntry) :
  In e (LoadText lines) ->
  (exists raw, In raw lines /\ load_line raw = Matched (hash e) (str e) true)
  /\ 0 <= hash e < 2 ^ 32
  /\ ~ blank (str e)
  /\ fnv1a_32 (text_bytes (str e)) <> hash e
  /\ pack_u32 (hash e) = Some (le32 (hash e)).
Proof.
  intros Hin. unfold LoadText in Hin. apply in_flat_map in Hin.
  destruct Hin as (raw & Hraw & He).
  apply line_entries_In in He.
  destruct (load_line_matched _ _ _ _ He) as [Hr Hk].
  symmetry in Hk. apply accepts_spec in Hk. destruct Hk as [Hb Hf].
  split; [exists raw; auto|]. split; [exact Hr|]. split; [exact Hb|].
  split; [exact Hf|]. apply pack_u32_bytes. exact Hr.
Qed.

Lemma LoadText_entries_witness :
  0 <= hash (mkEntry 10 (codes "a")) < 2 ^ 32.
Proof.
  destruct (LoadText_entries [codes "; note"; codes "0x0000000A=a"]
              (mkEntry 10 (codes "a"))) as (_ & Hr & _).
  - vm_compute. left. reflexivity.
  - exact Hr.
Defined.

(** ** Escaping and unescaping *)

Lemma escape_flat_map (text : list Z) :
  escape text = flat_map escape_char text.
Proof.
  unfold escape. induction text as [|x text IH]; [reflexivity|].
  cbn [replace1 flat_map].
  assert (Happ : forall a b, replace1 13 [92; 114] (a ++ b)
                 = replace1 13 [92; 114] a ++ replace1 13 [92; 114] b).
  { intros a b. induction a as [|y a IHa]; [reflexivity|].
    cbn [app replace1]. rewrite IHa, app_assoc. reflexivity. }
  rewrite Happ, IH. f_equal. unfold escape_char.
  destruct (x =? 10) eqn:E1; [reflexivity|].
  destruct (x =? 13) eqn:E2; cbn [replace1]; rewrite E2; reflexivity.
Qed.

Lemma replace2_skip (a b r x : Z) (s : list Z) :
  x <> a -> replace2 a b r (x :: s) = x :: replace2 a b r s.
Proof.
  intros Hx. cbn [replace2]. destruct s as [|y s]; [reflexivity|].
  assert (E : (x =? a) = false) by (apply Z.eqb_neq; exact Hx).
  rewrite E. reflexivity.
Qed.

Lemma replace2_miss (a b r x y : Z) (s : list Z) :
  y <> b -> replace2 a b r (x :: y :: s) = x :: replace2 a b r (y :: s).
Proof.
  intros Hy. cbn [replace2].
  assert (E : (y =? b) = false) by (apply Z.eqb_neq; exact Hy).
  rewrite E, andb_false_r. reflexivity.
Qed.

Lemma replace2_hit (a b r : Z) (s : list Z) :
  replace2 a b r (a :: b :: s) = r :: replace2 a b r s.
Proof. cbn [replace2]. rewrite !Z.eqb_refl. reflexivity. Qed.

Lemma unescape_escape_chars (text : list Z) :
  ~ In 92 text -> unescape (flat_map escape_char text) = text.
Proof.
  intros Hn. unfold unescape.
  assert (H1 : replace2 92 110 10 (flat_map escape_char text)
               = replace1 13 [92; 114] text).
  { induction text as [|x text IH]; [reflexivity|].
    assert (Hx : x <> 92) by (intros ->; apply Hn; left; reflexivity).
    assert (Hn' : ~ In 92 text) by (intros H; apply Hn; right; exact H).
    specialize (IH Hn'). cbn [flat_map replace1].
    remember (flat_map escape_char text) as rest eqn:Erest.
    unfold escape_char.
    destruct (x =? 10) eqn:E1.
    - apply Z.eqb_eq in E1. subst x. cbn [app].
      rewrite replace2_hit, IH. reflexivity.
    - destruct (x =? 13) eqn:E2; cbn [app].
      + rewrite replace2_miss by discriminate.
        rewrite replace2_skip by discriminate. rewrite IH. reflexivity.
      + rewrite replace2_skip by exact Hx. rewrite IH. reflexivity. }
  rewrite H1. clear H1.
  induction text as [|x text IH]; [reflexivity|].
  assert (Hx : x <> 92) by (intros ->; apply Hn; left; reflexivity).
  assert (Hn' : ~ In 92 text) by (intros H; apply Hn; right; exact H).
  cbn [replace1]. destruct (x =? 13) eqn:E.
  - apply Z.eqb_eq in E. subst x. cbn [app].
    rewrite replace2_hit, IH by exact Hn'. reflexivity.
  - cbn [app]. rewrite replace2_skip by exact Hx. rewrite IH by exact Hn'.
    reflexivity.
Qed.

Lemma escape_no_newline (text : list Z) (c : Z) :
  In c (escape text) -> c <> 10 /\ c <> 13.
Proof.
  rewrite escape_flat_map. intros H. apply in_flat_map in H.
  destruct H as (x & _ & Hx). unfold escape_char in Hx.
  destruct (x =? 10) eqn:E1; [cbn in Hx; lia|].
  destruct (x =? 13) eqn:E2; [cbn in Hx; lia|].
  destruct Hx as [<-|[]]. lia.
Qed.

(** X10.  Round trip of a text through the ledger's escapes: a text without
    a backslash that [ExportText] escapes is read back unchanged by the
    unescapes of [LoadText], and the escaped text holds neither a line feed
    nor a carriage return. *)
Theorem unescape_escape (text : list Z) :
  ~ In 92 text ->
  unescape (escape text) = text
  /\ ~ In 10 (escape text) /\ ~ In 13 (escape text).
Proof.
  intros Hn. split.
  - rewrite escape_flat_map. apply unescape_escape_chars. exact Hn.
  - split; intros H; apply escape_no_newline in H; lia.
Qed.

Lemma unescape_escape_witness :
  unescape (escape [97; 10; 98; 13]) = [97; 10; 98; 13].
Proof.
  apply (unescape_escape [97; 10; 98; 13]).
  intros H. vm_compute in H. lia.
Defined.

(** ** The hash written by [ExportText] and read by [LoadText] *)

Lemma hex_digits_S_high (k : nat) (n : Z) :
  hex_digits (S k) n
  = hex_digit_char ((n / 16 ^ Z.of_nat k) mod 16) :: hex_digits k n.
Proof.
  unfold hex_digits. rewrite seq_S, rev_app_distr. reflexivity.
Qed.

Lemma hex_digits_S_low (k : nat) (n : Z) :
  hex_digits (S k) n = hex_digits k (n / 16) ++ [hex_digit_char (n mod 16)].
Proof.
  unfold hex_digits. cbn [seq]. rewrite <- seq_shift. cbn [rev].
  rewrite List.map_app, <- List.map_rev, List.map_map. cbn [List.map].
  change (16 ^ Z.of_nat 0) with 1. rewrite Z.div_1_r.
  f_equal. apply List.map_ext. intros i.
  rewrite Nat2Z.inj_succ, Z.pow_succ_r by lia.
  rewrite Z.div_div by (try apply Z.pow_pos_nonneg; lia). reflexivity.
Qed.

Lemma hex_digits_length (k : nat) (n : Z) : List.length (hex_digits k n) = k.
Proof.
  unfold hex_digits. rewrite List.length_map, List.length_rev, List.length_seq.
  reflexivity.
Qed.

Lemma hex_digits_pad (k m : nat) (n : Z) :
  0 <= n < 16 ^ Z.of_nat k ->
  hex_digits (m + k) n = repeat 48 m ++ hex_digits k n.
Proof.
  intros Hn. induction m as [|m IH]; [reflexivity|].
  cbn [Nat.add repeat app]. rewrite hex_digits_S_high, IH. f_equal.
  rewrite Z.div_small; [reflexivity|].
  split; [lia|]. apply Z.lt_le_trans with (16 ^ Z.of_nat k); [lia|].
  apply Z.pow_le_mono_r; lia.
Qed.

Lemma hex_upper_from_digits (k : nat) :
  forall (fuel : nat) (n : Z) (acc : list Z),
    (k < fuel)%nat ->
    0 <= n < 16 ^ Z.of_nat (S k) ->
    (k <> O -> 16 ^ Z.of_nat k <= n) ->
    hex_upper_from fuel n acc = hex_digits (S k) n ++ acc.
Proof.
  induction k as [|k IH]; intros fuel n acc Hf Hn Hlow;
    (destruct fuel as [|fuel]; [lia|]); cbn [hex_upper_from].
  - change (16 ^ Z.of_nat 1) with 16 in Hn.
    assert (E : (n <? 16) = true) by lia. rewrite E.
    unfold hex_digits. cbn [seq rev List.map app].
    change (16 ^ Z.of_nat 0) with 1. rewrite Z.div_1_r. reflexivity.
  - specialize (Hlow ltac:(lia)).
    rewrite Nat2Z.inj_succ, Z.pow_succ_r in Hlow by lia.
    rewrite (Nat2Z.inj_succ (S k)), Z.pow_succ_r in Hn by lia.
    assert (0 < 16 ^ Z.of_nat k) by (apply Z.pow_pos_nonneg; lia).
    assert (E : (n <? 16) = false) by lia. rewrite E.
    rewrite (IH fuel (n / 16)); try lia.
    + rewrite (hex_digits_S_low (S k)), <- app_assoc. reflexivity.
    + split; [apply Z.div_pos; lia|].
      apply Z.div_lt_upper_bound; lia.
    + intros _. apply Z.div_le_lower_bound; lia.
Qed.

Lemma hex_digit_count (n : Z) :
  0 <= n < 2 ^ 32 ->
  exists k : nat,
    (k <= 7)%nat /\ n < 16 ^ Z.of_nat (S k)
    /\ (k <> O -> 16 ^ Z.of_nat k <= n).
Proof.
  intros Hn.
  destruct (Z_lt_dec n (16 ^ 1)); [exists 0%nat; split; [lia|split; [exact l|congruence]]|].
  destruct (Z_lt_dec n (16 ^ 2)); [exists 1%nat; split; [lia|split; [exact l|intros _; change (16 ^ Z.of_nat 1) with (16 ^ 1); lia]]|].
  destruct (Z_lt_dec n (16 ^ 3)); [exists 2%nat; split; [lia|split; [exact l|intros _; change (16 ^ Z.of_nat 2) with (16 ^ 2); lia]]|].
  destruct (Z_lt_dec n (16 ^ 4)); [exists 3%nat; split; [lia|split; [exact l|intros _; change (16 ^ Z.of_nat 3) with (16 ^ 3); lia]]|].
  destruct (Z_lt_dec n (16 ^ 5)); [exists 4%nat; split; [lia|split; [exact l|intros _; change (16 ^ Z.of_nat 4) with (16 ^ 4); lia]]|].
  destruct (Z_lt_dec n (16 ^ 6)); [exists 5%nat; split; [lia|split; [exact l|intros _; change (16 ^ Z.of_nat 5) with (16 ^ 5); lia]]|].
  destruct (Z_lt_dec n (16 ^ 7)); [exists 6%nat; split; [lia|split; [exact l|intros _; change (16 ^ Z.of_nat 6) with (16 ^ 6); lia]]|].
  exists 7%nat. split; [lia|]. split.
  - change (16 ^ Z.of_nat 8) with (2 ^ 32). lia.
  - intros _. change (16 ^ Z.of_nat 7) with (16 ^ 7). lia.
Qed.

Lemma hex_upper_digits (n : Z) (k : nat) :
  0 <= n < 16 ^ Z.of_nat (S k) ->
  (k <> O -> 16 ^ Z.of_nat k <= n) ->
  hex_upper n = hex_digits (S k) n.
Proof.
  intros Hn Hlow. unfold hex_upper.
  rewrite (hex_upper_from_digits k); [apply app_nil_r| |exact Hn|exact Hlow].
  destruct k as [|k]; [lia|]. specialize (Hlow ltac:(lia)).
  assert (Hp : 0 < 16 ^ Z.of_nat (S k)) by (apply Z.pow_pos_nonneg; lia).
  assert (Hl : Z.of_nat (S k) <= Z.log2 n).
  { apply Z.log2_le_pow2; [lia|].
    apply Z.le_trans with (16 ^ Z.of_nat (S k)); [|exact Hlow].
    change 16 with (2 ^ 4). rewrite <- Z.pow_mul_r by lia.
    apply Z.pow_le_mono_r; lia. }
  lia.
Qed.

Lemma nibble_eq (n i : Z) :
  0 <= i -> Z.land (Z.shiftr n (4 * i)) 15 = (n / 16 ^ i) mod 16.
Proof.
  intros Hi. rewrite Z.shiftr_div_pow2 by lia.
  change 15 with (Z.ones 4). rewrite Z.land_ones by lia.
  rewrite Z.pow_mul_r by lia. reflexivity.
Qed.

Lemma hex_digits_8 (n : Z) : hex_digits 8 n = hex8 n.
Proof.
  unfold hex_digits, hex8. cbn [seq rev List.map app].
  rewrite !nibble_eq by lia. reflexivity.
Qed.

Lemma format_08X_hex8 (h : Z) :
  0 <= h < 2 ^ 32 -> format_08X h = hex8 h.
Proof.
  intros Hh. unfold format_08X.
  assert (E : (h <? 0) = false) by lia. rewrite E.
  destruct (hex_digit_count h Hh) as (k & Hk & Hup & Hlow).
  rewrite (hex_upper_digits h k) by first [split; [lia|exact Hup] | exact Hlow].
  rewrite hex_digits_length, <- hex_digits_8.
  replace 8%nat with ((8 - S k) + S k)%nat at 2 by lia.
  symmetry. apply hex_digits_pad. lia.
Qed.

Lemma hex_digit_char_range (d : Z) :
  0 <= d < 16 ->
  (48 <= hex_digit_char d <= 57 \/ 65 <= hex_digit_char d <= 70)
  /\ hex_digit_value (hex_digit_char d) = d.
Proof.
  intros Hd. unfold hex_digit_char, hex_digit_value.
  destruct (d <? 10) eqn:E.
  - assert (E1 : (48 + d <=? 57) = true) by lia. rewrite E1. lia.
  - assert (E1 : (55 + d <=? 57) = false) by lia.
    assert (E2 : (55 + d <=? 70) = true) by lia. rewrite E1, E2. lia.
Qed.

Lemma hex_digits_int16 (k : nat) :
  forall (n acc : Z),
    0 <= n < 16 ^ Z.of_nat k ->
    fold_left (fun acc c => 16 * acc + hex_digit_value c) (hex_digits k n) acc
    = acc * 16 ^ Z.of_nat k + n
    /\ forallb is_hex_digit (hex_digits k n) = true.
Proof.
  induction k as [|k IH]; intros n acc Hn.
  - change (16 ^ Z.of_nat 0) with 1 in *. cbn. split; [lia|reflexivity].
  - rewrite hex_digits_S_low, fold_left_app, forallb_app.
    rewrite Nat2Z.inj_succ, Z.pow_succ_r in * by lia.
    assert (0 < 16 ^ Z.of_nat k) by (apply Z.pow_pos_nonneg; lia).
    destruct (IH (n / 16) acc) as [Hv Hd].
    { split; [apply Z.div_pos; lia|apply Z.div_lt_upper_bound; lia]. }
    rewrite Hv, Hd. cbn [fold_left forallb].
    pose proof (Z.mod_pos_bound n 16 ltac:(lia)) as Hm.
    destruct (hex_digit_char_range (n mod 16) Hm) as [Hr Hval].
    rewrite Hval. split.
    + pose proof (Z.div_mod n 16 ltac:(lia)). lia.
    + unfold is_hex_digit. lia.
Qed.

Lemma entry_regex_match_hex8 (h : Z) (text : list Z) :
  0 <= h < 2 ^ 32 ->
  entry_regex_match (codes "0x" ++ hex8 h ++ codes "=" ++ text)
  = Some (h, dot_star text).
Proof.
  intros Hh.
  destruct (hex_digits_int16 8 h 0 Hh) as [Hv Hd].
  rewrite hex_digits_8 in Hv, Hd.
  change (codes "0x") with [48; 120]. change (codes "=") with [61].
  cbn [app]. unfold entry_regex_match.
  assert (Hf : firstn 8 (hex8 h ++ 61 :: text) = hex8 h) by reflexivity.
  assert (Hs : skipn 8 (hex8 h ++ 61 :: text) = 61 :: text) by reflexivity.
  cbv zeta. rewrite Hf, Hs, Hd.
  change (List.length (hex8 h)) with 8%nat.
  cbn [Z.eqb Pos.eqb Nat.eqb andb orb]. unfold int16. rewrite Hv.
  f_equal.
Qed.

(** X11.  The hash that [ExportText] writes is read back by [LoadText]:
    for a hash of 32 bits the format [08X] gives exactly eight characters,
    and the pattern of [LoadText] matches the line made of the prefix, this
    number, the equals sign and any text, with the same hash as group 1 and
    the text up to its first line feed as group 2. *)
Theorem export_hash_parses (h : Z) (text : list Z) :
  0 <= h < 2 ^ 32 ->
  List.length (format_08X h) = 8%nat
  /\ entry_regex_match (codes "0x" ++ format_08X h ++ codes "=" ++ text)
     = Some (h, dot_star text).
Proof.
  intros Hh. rewrite (format_08X_hex8 h Hh). split; [reflexivity|].
  apply entry_regex_match_hex8. exact Hh.
Qed.

Lemma export_hash_parses_witness :
  entry_regex_match
    (codes "0x" ++ format_08X 0xBEEF ++ codes "=" ++ codes "text")
  = Some (0xBEEF, dot_star (codes "text")).
Proof.
  apply (export_hash_parses 0xBEEF (codes "text")). lia.
Defined.

(** ** Lines that a translator left as they were *)

Lemma lstrip_keep (c : Z) (s : list Z) :
  py_isspace c = false -> lstrip (c :: s) = c :: s.
Proof. intros H. cbn [lstrip]. rewrite H. reflexivity. Qed.

Lemma lstrip_app_keep (x : list Z) (c : Z) :
  py_isspace c = false -> exists y, lstrip (x ++ [c]) = y ++ [c].
Proof.
  intros Hc. induction x as [|a x IH].
  - exists []. cbn [app lstrip]. rewrite Hc. reflexivity.
  - cbn [app lstrip]. destruct (py_isspace a).
    + exact IH.
    + exists (a :: x). reflexivity.
Qed.

Lemma strip_head (c : Z) (s : list Z) :
  py_isspace c = false -> exists s', strip (c :: s) = c :: s'.
Proof.
  intros Hc. unfold strip. rewrite (lstrip_keep c s Hc). cbn [rev].
  destruct (lstrip_app_keep (rev s) c Hc) as [y Hy]. rewrite Hy.
  exists (rev y). rewrite rev_app_distr. reflexivity.
Qed.

Lemma strip_line (body : list Z) (c d : Z) :
  py_isspace c = false -> py_isspace d = false ->
  strip ((c :: body ++ [d]) ++ [10]) = c :: body ++ [d].
Proof.
  intros Hc Hd. unfold strip. cbn [app]. rewrite (lstrip_keep c _ Hc).
  change (c :: (body ++ [d]) ++ [10]) with ((c :: body ++ [d]) ++ [10]).
  rewrite rev_app_distr. cbn [rev app lstrip].
  change (py_isspace 10) with true. cbv iota.
  rewrite rev_app_distr. cbn [rev app]. rewrite (lstrip_keep d _ Hd).
  cbn [rev]. rewrite rev_app_distr, rev_involutive. reflexivity.
Qed.

Lemma dot_star_id (s : list Z) : ~ In 10 s -> dot_star s = s.
Proof.
  induction s as [|c s IH]; intros Hn; [reflexivity|].
  cbn [dot_star].
  assert (E : (c =? 10) = false).
  { apply Z.eqb_neq. intros ->. apply Hn. left. reflexivity. }
  rewrite E, IH; [reflexivity|]. intros H. apply Hn. right. exact H.
Qed.

(** A line of the ledger that ends in a line feed, as [LoadText] sees it. *)
Lemma load_line_ledger_line (h : Z) (text : list Z) :
  0 <= h < 2 ^ 32 ->
  ~ In 10 text ->
  py_isspace (List.last (61 :: text) 0) = false ->
  load_line (ledger_line h text ++ [10])
  = Matched h (unescape text) (accepts h (unescape text)).
Proof.
  intros Hh Hn Hl.
  assert (Hs : strip (ledger_line h text ++ [10]) = ledger_line h text).
  { unfold ledger_line. change (codes "0x") with [48; 120].
    change (codes "=") with [61].
    destruct (exists_last (l := 61 :: text) ltac:(discriminate))
      as (body & d & Hbd).
    rewrite Hbd, List.last_last in Hl.
    change ([61] ++ text) with (61 :: text). rewrite Hbd.
    cbn [app]. rewrite app_assoc.
    apply (strip_line (120 :: hex8 h ++ body) 48 d); [reflexivity|exact Hl]. }
  unfold load_line. rewrite Hs.
  pose proof (entry_regex_match_hex8 h text Hh) as Hm.
  fold (ledger_line h text) in Hm. rewrite (dot_star_id text Hn) in Hm.
  assert (Hc : exists rest, ledger_line h text = 48 :: rest).
  { eexists. unfold ledger_line. change (codes "0x") with [48; 120].
    reflexivity. }
  destruct Hc as [rest Hc]. cbv zeta. rewrite Hc in *.
  change (48 =? 59) with false. cbv iota. rewrite Hm. reflexivity.
Qed.

Lemma cp1252_decode_encode_char (b c : Z) :
  decode_cp1252_char b = Some c -> encode_cp1252_char c = Some b.
Proof.
  unfold decode_cp1252_char, encode_cp1252_char.
  destruct ((0 <=? b) && (b <? 128)) eqn:E1.
  { intros H. injection H as <-. rewrite E1. reflexivity. }
  destruct ((160 <=? b) && (b <=? 255)) eqn:E2.
  { intros H. injection H as <-. rewrite E1, E2. reflexivity. }
  unfold cp1252_high. cbn [assoc_snd].
  repeat match goal with
  | |- (if ?x =? b then _ else _) = _ -> _ =>
      destruct (Z.eqb_spec x b);
      [intros H; injection H as <-; subst b; reflexivity|]
  end.
  discriminate.
Qed.

Lemma cp1252_decode_encode (bs : list Z) :
  forall t, decode_cp1252 bs = Some t -> encode_cp1252 t = Some bs.
Proof.
  induction bs as [|b bs IH]; intros t H; cbn [decode_cp1252] in H.
  - injection H as <-. reflexivity.
  - destruct (decode_cp1252_char b) as [c|] eqn:Ec; [|discriminate].
    destruct (decode_cp1252 bs) as [s|]; [|discriminate].
    injection H as <-. cbn [encode_cp1252].
    rewrite (cp1252_decode_encode_char b c Ec), (IH s eq_refl). reflexivity.
Qed.

Lemma escape_last (t : list Z) :
  py_isspace (List.last t 0) = false ->
  py_isspace (List.last (61 :: escape t) 0) = false.
Proof.
  intros Hl. destruct t as [|x t]; [reflexivity|].
  destruct (exists_last (l := x :: t) ltac:(discriminate)) as (body & d & E).
  rewrite E in *. rewrite List.last_last in Hl.
  rewrite escape_flat_map, flat_map_app. cbn [flat_map].
  rewrite app_nil_r. unfold escape_char at 2.
  destruct (Z.eqb_spec d 10); [subst d; discriminate|].
  destruct (Z.eqb_spec d 13); [subst d; discriminate|].
  change (61 :: flat_map escape_char body ++ [d])
    with ((61 :: flat_map escape_char body) ++ [d]).
  rewrite List.last_last. exact Hl.
Qed.

(** X12.  A line left as it was exported is not a translation: when the
    bytes of a string decode in windows-1252 to a text without a backslash
    that does not end in white space, the editable line made of the hash of
    the bytes and the escaped text gives no entry in [LoadText]. *)
Theorem untouched_line_dropped (bs t : list Z) :
  decode_cp1252 bs = Some t ->
  ~ In 92 t ->
  py_isspace (List.last t 0) = false ->
  LoadText [codes "0x" ++ format_08X (fnv1a_32 bs) ++ codes "="
            ++ escape (Windows1252ToUtf8 bs) ++ [10]] = [].
Proof.
  intros Hdec Hn Hl.
  assert (Ht : Windows1252ToUtf8 bs = t).
  { unfold Windows1252ToUtf8. rewrite Hdec. reflexivity. }
  pose proof (fnv1a_32_range bs) as Hh.
  rewrite Ht, (format_08X_hex8 _ Hh).
  assert (E : codes "0x" ++ hex8 (fnv1a_32 bs) ++ codes "=" ++ escape t ++ [10]
              = ledger_line (fnv1a_32 bs) (escape t) ++ [10]).
  { unfold ledger_line. rewrite <- !app_assoc. reflexivity. }
  rewrite E. unfold LoadText, line_entries. cbn [flat_map].
  rewrite load_line_ledger_line.
  - rewrite escape_flat_map, (unescape_escape_chars t Hn).
    unfold accepts, text_bytes.
    rewrite (cp1252_decode_encode bs t Hdec), Z.eqb_refl, andb_false_r.
    reflexivity.
  - exact Hh.
  - intros H. apply escape_no_newline in H. lia.
  - apply escape_last. exact Hl.
Qed.

Lemma untouched_line_dropped_witness :
  LoadText [codes "0x" ++ format_08X (fnv1a_32 [72; 105; 233]) ++ codes "="
            ++ escape (Windows1252ToUtf8 [72; 105; 233]) ++ [10]] = [].
Proof.
  apply (untouched_line_dropped [72; 105; 233] [72; 105; 233]).
  - reflexivity.
  - intros H. vm_compute in H. lia.
  - reflexivity.
Defined.

(** ** A ledger that nobody edited *)

Lemma stream_lines_from_line (l : list Z) :
  forall (cur rest : list Z),
    (forall c, In c l -> c <> 10 /\ c <> 13) ->
    stream_lines_from cur (l ++ 10 :: rest)
    = (rev cur ++ l ++ [10]) :: stream_lines_from [] rest.
Proof.
  induction l as [|c l IH]; intros cur rest Hl.
  - cbn [app stream_lines_from rev]. change (10 =? 13) with false.
    change (10 =? 10) with true. reflexivity.
  - destruct (Hl c ltac:(left; reflexivity)) as [H10 H13].
    cbn [app stream_lines_from].
    apply Z.eqb_neq in H10, H13. rewrite H10, H13.
    rewrite IH by (intros c' Hc'; apply Hl; right; exact Hc').
    cbn [rev]. rewrite <- app_assoc. reflexivity.
Qed.

Lemma hex_upper_from_chars (fuel : nat) :
  forall (n : Z) (acc : list Z) (c : Z),
    In c (hex_upper_from fuel n acc) ->
    In c acc \/ 48 <= c <= 57 \/ 65 <= c <= 70.
Proof.
  induction fuel as [|fuel IH]; intros n acc c Hc; [left; exact Hc|].
  cbn [hex_upper_from] in Hc.
  pose proof (Z.mod_pos_bound n 16 ltac:(lia)) as Hm.
  destruct (hex_digit_char_range (n mod 16) Hm) as [Hr _].
  assert (Hacc : In c (hex_digit_char (n mod 16) :: acc) ->
                 In c acc \/ 48 <= c <= 57 \/ 65 <= c <= 70).
  { intros [<-|H]; [right; exact Hr|left; exact H]. }
  destruct (n <? 16); [exact (Hacc Hc)|].
  destruct (IH _ _ _ Hc) as [H|H]; [exact (Hacc H)|right; exact H].
Qed.

Lemma format_08X_chars (n c : Z) :
  In c (format_08X n) -> c = 45 \/ 48 <= c <= 57 \/ 65 <= c <= 70.
Proof.
  assert (Hd : forall m, In c (hex_upper m) -> 48 <= c <= 57 \/ 65 <= c <= 70).
  { intros m H. apply hex_upper_from_chars in H.
    destruct H as [[]|H]. exact H. }
  assert (Hz : forall k, In c (repeat 48 k) -> 48 <= c <= 57 \/ 65 <= c <= 70).
  { intros k H. apply repeat_spec in H. lia. }
  unfold format_08X. destruct (n <? 0); intros H.
  - destruct H as [<-|H]; [left; reflexivity|].
    apply in_app_or in H. destruct H as [H|H]; right; eauto.
  - apply in_app_or in H. destruct H as [H|H]; right; eauto.
Qed.

(** The pattern of [LoadText] on an editable line that was left empty. *)
Lemma entry_regex_match_empty_text (fmt : list Z) :
  (forall c, In c fmt -> c <> 61) ->
  entry_regex_match (48 :: 120 :: fmt ++ [61]) = None
  \/ exists h, entry_regex_match (48 :: 120 :: fmt ++ [61]) = Some (h, []).
Proof.
  intros Hf. unfold entry_regex_match. cbv zeta.
  destruct ((48 =? 48) && ((120 =? 120) || (120 =? 88))
            && Nat.eqb (List.length (firstn 8 (fmt ++ [61]))) 8
            && forallb is_hex_digit (firstn 8 (fmt ++ [61]))) eqn:E;
    [|left; reflexivity].
  apply andb_true_iff in E. destruct E as [E Hd].
  apply andb_true_iff in E. destruct E as [_ Hlen].
  apply Nat.eqb_eq in Hlen.
  destruct (Nat.le_gt_cases 8 (List.length fmt)) as [Hge|Hlt].
  - rewrite skipn_app.
    destruct (skipn 8 fmt) as [|c rest] eqn:Es.
    + assert (Hl : List.length (skipn 8 fmt) = O) by (rewrite Es; reflexivity).
      rewrite List.length_skipn in Hl.
      replace (8 - List.length fmt)%nat with O by lia.
      cbn [app skipn]. change (61 =? 61) with true. right. eexists.
      reflexivity.
    + cbn [app].
      assert (Hin : In c fmt).
      { rewrite <- (firstn_skipn 8 fmt), Es. apply in_or_app. right. left.
        reflexivity. }
      apply Hf, Z.eqb_neq in Hin. rewrite Hin. left. reflexivity.
  - exfalso.
    rewrite firstn_app, (firstn_all2 (n := 8) fmt) in Hd, Hlen by lia.
    rewrite List.length_app in Hlen.
    destruct (8 - List.length fmt)%nat as [|k] eqn:Ek; [lia|].
    cbn [firstn] in Hd, Hlen. rewrite forallb_app in Hd.
    apply andb_true_iff in Hd. destruct Hd as [_ Hd]. cbn in Hd. discriminate.
Qed.

Lemma export_entry_lines (entry : ExportedTextEntry) (rest : list Z) :
  exists a b,
    stream_lines_from [] (export_entry entry ++ rest)
    = (59 :: a ++ [10]) :: ((48 :: 120 :: b ++ [61]) ++ [10]) :: [10]
      :: stream_lines_from [] rest
    /\ forall c, In c b -> c <> 61.
Proof.
  exists (codes "0x" ++ format_08X (hash entry) ++ codes "="
          ++ escape (Windows1252ToUtf8 (str entry))),
         (format_08X (hash entry)).
  assert (Hfmt : forall c, In c (format_08X (hash entry)) ->
                 c <> 10 /\ c <> 13 /\ c <> 61).
  { intros c Hc. apply format_08X_chars in Hc. lia. }
  split; [|intros c Hc; apply Hfmt in Hc; lia].
  set (a := codes "0x" ++ format_08X (hash entry) ++ codes "="
            ++ escape (Windows1252ToUtf8 (str entry))).
  set (b := format_08X (hash entry)).
  assert (E : export_entry entry ++ rest
              = (59 :: a) ++ 10 :: (48 :: 120 :: b ++ [61])
                 ++ 10 :: [] ++ 10 :: rest).
  { unfold export_entry, a, b.
    change (codes ";0x") with (59 :: codes "0x").
    change (codes "0x") with [48; 120]. change (codes "=") with [61].
    cbn [app]. repeat (rewrite <- app_assoc; cbn [app]). reflexivity. }
  rewrite E.
  rewrite stream_lines_from_line.
  2:{ intros c Hc. unfold a in Hc.
      change (codes "0x") with [48; 120] in Hc.
      change (codes "=") with [61] in Hc. cbn [app] in Hc.
      destruct Hc as [<-|[<-|[<-|Hc]]]; try lia.
      apply in_app_or in Hc. destruct Hc as [Hc|Hc].
      - apply Hfmt in Hc. lia.
      - destruct Hc as [<-|Hc]; [lia|]. apply escape_no_newline in Hc.
        exact Hc. }
  rewrite stream_lines_from_line.
  2:{ intros c Hc. destruct Hc as [<-|[<-|Hc]]; try lia.
      apply in_app_or in Hc. destruct Hc as [Hc|Hc].
      - apply Hfmt in Hc. lia.
      - destruct Hc as [<-|[]]. lia. }
  rewrite (stream_lines_from_line [] [] rest) by (intros c []).
  reflexivity.
Qed.

Lemma line_entries_comment (a : list Z) : line_entries (59 :: a) = [].
Proof.
  unfold line_entries, load_line.
  destruct (strip_head 59 a eq_refl) as [s' Hs]. rewrite Hs. reflexivity.
Qed.

Lemma line_entries_empty_text (b : list Z) :
  (forall c, In c b -> c <> 61) ->
  line_entries ((48 :: 120 :: b ++ [61]) ++ [10]) = [].
Proof.
  intros Hb. unfold line_entries, load_line.
  change (48 :: 120 :: b ++ [61]) with (48 :: (120 :: b) ++ [61]).
  rewrite (strip_line (120 :: b) 48 61 eq_refl eq_refl).
  cbv zeta. change (48 =? 59) with false. cbv iota.
  change (48 :: (120 :: b) ++ [61]) with (48 :: 120 :: b ++ [61]).
  destruct (entry_regex_match_empty_text b Hb) as [E|[h E]]; rewrite E;
    reflexivity.
Qed.

Lemma LoadText_fresh_lines (container : list ExportedTextEntry) :
  LoadText (stream_lines_from [] (flat_map export_entry container)) = [].
Proof.
  induction container as [|entry container IH]; [reflexivity|].
  cbn [flat_map].
  destruct (export_entry_lines entry (flat_map export_entry container))
    as (a & b & Hl & Hb).
  rewrite Hl. unfold LoadText in *. cbn [flat_map].
  change (59 :: a ++ [10]) with (59 :: (a ++ [10])).
  rewrite line_entries_comment, (line_entries_empty_text b Hb), IH.
  reflexivity.
Qed.

(** X13.  A ledger that [ExportText] wrote and nobody edited gives no
    translation: whatever the container, [LoadText] on the lines of the
    text written returns the empty list. *)
Theorem fresh_ledger_loads_nothing (container : list ExportedTextEntry)
  (content : list Z) :
  ExportText container = Some content ->
  LoadText (stream_lines content) = [].
Proof.
  unfold ExportText. destruct container as [|entry container];
    [discriminate|].
  intros H. injection H as <-. unfold stream_lines.
  change (65279 =? 65279) with true. cbv iota.
  apply (LoadText_fresh_lines (entry :: container)).
Qed.

Lemma fresh_ledger_loads_nothing_witness :
  LoadText (stream_lines
              (0xFEFF :: flat_map export_entry [mkEntry 10 [72; 10; 105]]))
  = [].
Proof.
  apply (fresh_ledger_loads_nothing [mkEntry 10 [72; 10; 105]]).
  reflexivity.
Defined.

(** ** Sorting by a key without duplicates *)

Section Sorting.

Context {A K : Type} (ltb : A -> A -> bool) (key : A -> K)
  (lt : K -> K -> Prop).

Hypothesis lt_trans : forall x y z, lt x y -> lt y z -> lt x z.
Hypothesis ltb_lt : forall x y, ltb x y = true -> lt (key x) (key y).
Hypothesis ltb_ge :
  forall x y, ltb x y = false -> key x <> key y -> lt (key y) (key x).

Lemma insert_sorted_strongly (x : A) (l : list A) :
  StronglySorted lt (List.map key l) ->
  ~ In (key x) (List.map key l) ->
  StronglySorted lt (List.map key (insert_sorted ltb x l)).
Proof.
  induction l as [|y l IH]; intros Hs Hn.
  - cbn. constructor; constructor.
  - cbn [insert_sorted]. cbn [List.map] in Hs, Hn.
    apply StronglySorted_inv in Hs. destruct Hs as [Hs Hall].
    assert (Hxy : key x <> key y) by (intros E; apply Hn; left; auto).
    assert (Hnl : ~ In (key x) (List.map key l))
      by (intros E; apply Hn; right; auto).
    destruct (ltb x y) eqn:E; cbn [List.map].
    + apply ltb_lt in E. constructor.
      * constructor; assumption.
      * constructor; [exact E|].
        revert Hall. apply List.Forall_impl. intros a Ha.
        apply (lt_trans _ _ _ E Ha).
    + apply ltb_ge in E; [|exact Hxy]. constructor.
      * apply IH; assumption.
      * apply List.Forall_forall. intros a Ha.
        apply (Permutation_in (l' := List.map key (x :: l))) in Ha.
        -- cbn in Ha. destruct Ha as [<-|Ha]; [exact E|].
           rewrite List.Forall_forall in Hall. apply Hall. exact Ha.
        -- apply Permutation_map. apply insert_sorted_perm.
Qed.

Lemma fold_insert_strongly (l acc : list A) :
  StronglySorted lt (List.map key acc) ->
  List.NoDup (List.map key l) ->
  (forall x, In x l -> ~ In (key x) (List.map key acc)) ->
  StronglySorted lt
    (List.map key (fold_left (fun acc x => insert_sorted ltb x acc) l acc)).
Proof.
  revert acc. induction l as [|x l IH]; intros acc Hs Hnd Hfresh;
    cbn [fold_left]; [exact Hs|].
  cbn [List.map] in Hnd. apply List.NoDup_cons_iff in Hnd.
  destruct Hnd as [Hx Hnd].
  apply IH.
  - apply insert_sorted_strongly; [exact Hs|]. apply Hfresh. left. reflexivity.
  - exact Hnd.
  - intros z Hz Hin.
    apply (Permutation_in (l' := List.map key (x :: acc))) in Hin.
    + cbn in Hin. destruct Hin as [E|Hin].
      * apply Hx. rewrite E. apply in_map. exact Hz.
      * apply (Hfresh z); [right; exact Hz | exact Hin].
    + apply Permutation_map. apply insert_sorted_perm.
Qed.

Lemma py_sorted_strongly (l : list A) :
  List.NoDup (List.map key l) ->
  StronglySorted lt (List.map key (py_sorted ltb l)).
Proof.
  intros Hnd. unfold py_sorted. apply fold_insert_strongly.
  - constructor.
  - exact Hnd.
  - intros x _ [].
Qed.

End Sorting.


(** ** The grid of the font table *)

Lemma qcjw_table_chars (chars : list Z) :
  forall row column,
    exists rest,
      List.filter (fun c => negb (c <=? 0x7F)) chars
      = List.map (fun t => fst (fst t)) (qcjw_table chars row column) ++ rest
      /\ (Forall (fun c => is_scalar c = true) chars -> rest = []).
Proof.
  induction chars as [|c chars IH]; intros row column.
  - exists []. split; reflexivity.
  - cbn [qcjw_table List.filter]. destruct (c <=? 127); cbn [negb].
    + destruct (IH row column) as (rest & E & Hr). exists rest.
      split; [exact E|]. intros H. apply Hr. inversion H; assumption.
    + cbn [List.map fst app]. destruct (is_scalar c) eqn:Es.
      * assert (Hgo : forall row' column',
                  exists rest,
                    c :: List.filter (fun c => negb (c <=? 127)) chars
                    = c :: List.map (fun t => fst (fst t))
                             (qcjw_table chars row' column') ++ rest
                    /\ (Forall (fun c => is_scalar c = true) (c :: chars) ->
                        rest = [])).
        { intros row' column'.
          destruct (IH row' column') as (rest & E & Hr). exists rest.
          split; [rewrite E; reflexivity|].
          intros H. apply Hr. inversion H; assumption. }
        destruct (column <? 63); apply Hgo.
      * exists (List.filter (fun c => negb (c <=? 127)) chars).
        split; [reflexivity|]. intros H. inversion H. congruence.
Qed.

Lemma qcjw_table_cells (chars : list Z) :
  forall (row column : Z) (k : nat) (c r cl : Z),
    0 <= column < 64 ->
    nth_error (qcjw_table chars row column) k = Some (c, r, cl) ->
    64 * r + cl = 64 * row + column + Z.of_nat k /\ 0 <= cl < 64.
Proof.
  induction chars as [|ch chars IH]; intros row column k c r cl Hc Hk.
  - destruct k; discriminate.
  - cbn [qcjw_table] in Hk. destruct (ch <=? 127).
    + apply (IH _ _ _ _ _ _ Hc Hk).
    + destruct k as [|k].
      * injection Hk as <- <- <-. lia.
      * cbn [nth_error] in Hk. destruct (is_scalar ch).
        -- destruct (column <? 63) eqn:E; apply IH in Hk; lia.
        -- destruct k; discriminate.
Qed.

Lemma StronglySorted_filter (p : Z -> bool) (l : list Z) :
  StronglySorted Z.lt l -> StronglySorted Z.lt (List.filter p l).
Proof.
  induction 1 as [|x l Hs IH Hall]; cbn [List.filter]; [constructor|].
  destruct (p x); [|exact IH].
  constructor; [exact IH|].
  apply List.Forall_forall. intros y Hy. apply List.filter_In in Hy.
  rewrite List.Forall_forall in Hall. apply Hall. apply Hy.
Qed.

Lemma StronglySorted_prefix (a b : list Z) :
  StronglySorted Z.lt (a ++ b) -> StronglySorted Z.lt a.
Proof.
  induction a as [|x a IH]; intros H; [constructor|].
  cbn [app] in H. apply StronglySorted_inv in H. destruct H as [Hs Hall].
  constructor; [apply IH; exact Hs|].
  apply List.Forall_app in Hall. apply Hall.
Qed.

(** X14.  The font table of [generate_qcjw_stuff] lists characters of the
    collection above U+007F, each at most once and in ascending order, all
    of them when the collection holds only scalar values; and it gives the
    character of index [k] in this order the row [k / 64] and the column
    [k mod 64]: rows of 64 cells, filled from left to right. *)
Theorem generate_qcjw_stuff_grid (m_WideCharCollection : gset Z) :
  let table := generate_qcjw_stuff m_WideCharCollection in
  let chars := List.map (fun t => fst (fst t)) table in
  StronglySorted Z.lt chars
  /\ (forall c, In c chars -> c ∈ m_WideCharCollection /\ 0x7F < c)
  /\ ((forall c, c ∈ m_WideCharCollection -> is_scalar c = true) ->
      forall c, c ∈ m_WideCharCollection -> 0x7F < c -> In c chars)
  /\ forall (k : nat) (c row column : Z),
       nth_error table k = Some (c, row, column) ->
       row = Z.of_nat k / 64 /\ column = Z.of_nat k mod 64.
Proof.
  cbv zeta. unfold generate_qcjw_stuff.
  set (sorted := py_sorted Z.ltb (elements m_WideCharCollection)).
  destruct (qcjw_table_chars sorted 0 0) as (rest & E & Hrest).
  assert (Hsorted : StronglySorted Z.lt sorted).
  { rewrite <- (List.map_id sorted).
    apply (py_sorted_strongly Z.ltb (fun c => c) Z.lt).
    - intros x y z. lia.
    - intros x y H. lia.
    - intros x y H Hne. lia.
    - rewrite List.map_id. apply NoDup_ListNoDup, NoDup_elements. }
  assert (Hmem : forall c, In c sorted <-> c ∈ m_WideCharCollection).
  { intros c. split; intros H.
    - apply (Permutation_in _ (py_sorted_perm _ _)) in H.
      apply list_elem_of_In, elem_of_elements in H. exact H.
    - apply (Permutation_in _ (Permutation_sym (py_sorted_perm _ _))).
      apply list_elem_of_In, elem_of_elements. exact H. }
  split; [|split; [|split]].
  - apply (StronglySorted_prefix _ rest). rewrite <- E.
    apply StronglySorted_filter. exact Hsorted.
  - intros c Hc.
    assert (Hf : In c (List.filter (fun c => negb (c <=? 127)) sorted))
      by (rewrite E; apply in_or_app; left; exact Hc).
    apply List.filter_In in Hf. destruct Hf as [Hin Hhigh].
    split; [apply Hmem; exact Hin|lia].
  - intros Hscalar c Hin Hc.
    rewrite Hrest in E.
    + rewrite app_nil_r in E. rewrite <- E. apply List.filter_In.
      split; [apply Hmem; exact Hin|lia].
    + apply List.Forall_forall. intros x Hx. apply Hscalar, Hmem. exact Hx.
  - intros k c row column Hk.
    apply qcjw_table_cells in Hk; [|lia].
    destruct Hk as [Hsum Hcl].
    split.
    + apply (Z.div_unique _ _ _ column); lia.
    + apply (Z.mod_unique _ _ row); lia.
Qed.

(** ** The hash of the San Andreas keys *)

Lemma CRC32_TABLE_steps :
  forallb (fun i => nth (Z.to_nat i) CRC32_TABLE 0 =? crc_steps 8 i)
    (List.map Z.of_nat (seq 0 256)) = true.
Proof. vm_compute. reflexivity. Qed.

Lemma CRC32_TABLE_entry (i : Z) :
  0 <= i < 256 -> nth (Z.to_nat i) CRC32_TABLE 0 = crc_steps 8 i.
Proof.
  intros Hi. pose proof CRC32_TABLE_steps as H.
  rewrite forallb_forall in H. apply Z.eqb_eq. apply H.
  apply in_map_iff. exists (Z.to_nat i). split; [lia|].
  apply in_seq. lia.
Qed.

Lemma crc_step_lxor (a hi : Z) (k : Z) :
  0 <= k ->
  crc_step (Z.lxor a (Z.shiftl hi (k + 1)))
  = Z.lxor (crc_step a) (Z.shiftl hi k).
Proof.
  intros Hk. unfold crc_step.
  rewrite Z.lxor_spec, (Z.shiftl_spec_low hi (k + 1) 0) by lia.
  rewrite xorb_false_r, Z.shiftr_lxor.
  rewrite Z.shiftr_shiftl_l by lia.
  replace (k + 1 - 1) with k by lia.
  destruct (Z.testbit a 0); [|reflexivity].
  rewrite !Z.lxor_assoc. f_equal. apply Z.lxor_comm.
Qed.

Lemma crc_steps_lxor (k : nat) :
  forall a hi : Z,
    crc_steps k (Z.lxor a (Z.shiftl hi (Z.of_nat k)))
    = Z.lxor (crc_steps k a) hi.
Proof.
  induction k as [|k IH]; intros a hi.
  - cbn [crc_steps]. rewrite Z.shiftl_0_r. reflexivity.
  - cbn [crc_steps]. rewrite Nat2Z.inj_succ, <- Z.add_1_r.
    rewrite crc_step_lxor by lia. apply IH.
Qed.

Lemma split_low_byte (x : Z) :
  x = Z.lxor (Z.land x 0xFF) (Z.shiftl (Z.shiftr x 8) 8).
Proof.
  apply Z.bits_inj'. intros n Hn.
  rewrite Z.lxor_spec, Z.land_spec.
  change 255 with (Z.ones 8).
  destruct (Z_lt_dec n 8).
  - rewrite Z.ones_spec_low, Z.shiftl_spec_low by lia.
    rewrite andb_true_r, xorb_false_r. reflexivity.
  - rewrite Z.ones_spec_high, Z.shiftl_spec, Z.shiftr_spec by lia.
    rewrite andb_false_r. cbn [xorb]. f_equal. lia.
Qed.

(** One round of the table-driven loop is eight steps of the register. *)
Lemma gta_sa_hash_round (hash_val c_byte : Z) :
  0 <= c_byte < 256 ->
  Z.lxor (nth (Z.to_nat (Z.land (Z.lxor hash_val c_byte) 0xFF)) CRC32_TABLE 0)
    (Z.shiftr hash_val 8)
  = crc_steps 8 (Z.lxor hash_val c_byte).
Proof.
  intros Hc.
  assert (Hidx : 0 <= Z.land (Z.lxor hash_val c_byte) 0xFF < 256).
  { change 255 with (Z.ones 8). rewrite Z.land_ones by lia.
    apply Z.mod_pos_bound. lia. }
  rewrite (CRC32_TABLE_entry _ Hidx).
  rewrite (split_low_byte (Z.lxor hash_val c_byte)) at 2.
  pose proof (crc_steps_lxor 8 (Z.land (Z.lxor hash_val c_byte) 0xFF)
                (Z.shiftr (Z.lxor hash_val c_byte) 8)) as Hq.
  change (Z.of_nat 8) with 8 in Hq. rewrite Hq. f_equal.
  rewrite Z.shiftr_lxor.
  assert (E : Z.shiftr c_byte 8 = 0).
  { rewrite Z.shiftr_div_pow2 by lia. apply Z.div_small. lia. }
  rewrite E, Z.lxor_0_r. reflexivity.
Qed.

Lemma land_byte_range (x : Z) : 0 <= Z.land x 0xFF < 256.
Proof.
  change 255 with (Z.ones 8). rewrite Z.land_ones by lia.
  apply Z.mod_pos_bound. lia.
Qed.

Lemma gta_sa_hash_from_crc (upper : Z -> list Z) (key uppers : list Z) :
  forall hash_val : Z,
    Forall2 (fun char c_upper => upper char = [c_upper]) key uppers ->
    gta_sa_hash_from upper hash_val key
    = Some (crc_bytes hash_val
              (List.map (fun c_upper => Z.land c_upper 0xFF) uppers)).
Proof.
  intros hash_val H. revert hash_val.
  induction H as [|char c_upper key uppers Hu _ IH]; intros hash_val.
  - reflexivity.
  - cbn [gta_sa_hash_from List.map]. rewrite Hu. cbv zeta.
    rewrite gta_sa_hash_round by apply land_byte_range.
    rewrite IH. reflexivity.
Qed.

Lemma crc_table_u32 :
  forallb (fun x => (0 <=? x) && (x <? 2 ^ 32)) CRC32_TABLE = true.
Proof. vm_compute. reflexivity. Qed.

Lemma lxor_u32 (a b : Z) :
  0 <= a < 2 ^ 32 -> 0 <= b < 2 ^ 32 -> 0 <= Z.lxor a b < 2 ^ 32.
Proof.
  intros Ha Hb. split; [apply Z.lxor_nonneg; lia|].
  destruct (Z.eq_dec (Z.lxor a b) 0) as [->|Hne]; [lia|].
  apply Z.log2_lt_pow2; [pose proof (Z.lxor_nonneg a b); lia|].
  apply Z.le_lt_trans with (Z.max (Z.log2 a) (Z.log2 b)).
  - apply Z.log2_lxor; lia.
  - destruct (Z.eq_dec a 0) as [->|Ha0], (Z.eq_dec b 0) as [->|Hb0];
      cbn [Z.log2]; try lia.
    + apply Z.max_lub_lt; [lia|]. apply Z.log2_lt_pow2; lia.
    + apply Z.max_lub_lt; [|lia]. apply Z.log2_lt_pow2; lia.
    + apply Z.max_lub_lt; apply Z.log2_lt_pow2; lia.
Qed.

Lemma nth_CRC32_TABLE_range (i : nat) : 0 <= nth i CRC32_TABLE 0 < 2 ^ 32.
Proof.
  pose proof crc_table_u32 as H. rewrite forallb_forall in H.
  destruct (Nat.lt_ge_cases i (List.length CRC32_TABLE)) as [Hi|Hi].
  - specialize (H _ (nth_In CRC32_TABLE 0 Hi)). lia.
  - rewrite nth_overflow by exact Hi. lia.
Qed.

Lemma gta_sa_hash_from_range (upper : Z -> list Z) (key : list Z) :
  forall hash_val h : Z,
    0 <= hash_val < 2 ^ 32 ->
    gta_sa_hash_from upper hash_val key = Some h ->
    0 <= h < 2 ^ 32.
Proof.
  induction key as [|char key IH]; intros hash_val h Hr Hh.
  - injection Hh as <-. exact Hr.
  - cbn [gta_sa_hash_from] in Hh.
    destruct (upper char) as [|c_upper [|]]; try discriminate.
    apply IH in Hh; [exact Hh|].
    apply lxor_u32; [apply nth_CRC32_TABLE_range|].
    rewrite Z.shiftr_div_pow2 by lia. split.
    + apply Z.div_pos; lia.
    + apply Z.div_lt_upper_bound; lia.
Qed.

(** X15.  [gta_sa_hash] is the register of the reflected CRC-32 with the
    polynomial [0xEDB88320], started at [0xFFFFFFFF] and not inverted at the
    end, run over the low bytes of the upper-cased characters of the key:
    each of the 256 entries of [CRC32_TABLE] is eight steps of this
    register.  The hash fits in 32 bits. *)
Theorem gta_sa_hash_is_crc (upper : Z -> list Z) (key uppers : list Z) :
  Forall2 (fun char c_upper => upper char = [c_upper]) key uppers ->
  gta_sa_hash upper key
  = Some (crc_bytes 0xFFFFFFFF
            (List.map (fun c_upper => Z.land c_upper 0xFF) uppers))
  /\ 0 <= crc_bytes 0xFFFFFFFF
            (List.map (fun c_upper => Z.land c_upper 0xFF) uppers) < 2 ^ 32.
Proof.
  intros H. unfold gta_sa_hash.
  pose proof (gta_sa_hash_from_crc upper key uppers 0xFFFFFFFF H) as E.
  split; [exact E|].
  apply (gta_sa_hash_from_range upper key 0xFFFFFFFF); [lia|exact E].
Qed.

Lemma gta_sa_hash_is_crc_witness :
  gta_sa_hash (fun c => [ascii_upper c]) (codes "Intro")
  = Some (crc_bytes 0xFFFFFFFF
            (List.map (fun c_upper => Z.land c_upper 0xFF) (codes "INTRO"))).
Proof.
  apply (gta_sa_hash_is_crc (fun c => [ascii_upper c]) (codes "Intro")
           (codes "INTRO")).
  repeat constructor.
Defined.

(** ** What [load_text] keeps true of the object *)

Lemma take_while_Forall (p : Z -> bool) (s : list Z) :
  Forall (fun c => p c = true) (take_while p s).
Proof.
  induction s as [|c s IH]; cbn [take_while]; [constructor|].
  destruct (p c) eqn:E; constructor; assumption.
Qed.

Lemma table_format_match_name (line group1 : list Z) :
  table_format_match line = Some group1 ->
  table_name_ok (List.map ascii_upper group1).
Proof.
  unfold table_format_match. destruct line as [|c rest]; [discriminate|].
  cbv zeta. destruct (drop_while is_name_char rest) as [|d tail];
    [discriminate|].
  destruct ((c =? 91) && (d =? 93)
            && (1 <=? len (take_while is_name_char rest))
            && (len (take_while is_name_char rest) <=? 7)
            && forallb py_isspace tail) eqn:E; [|discriminate].
  intros H. injection H as <-.
  split.
  - unfold len in *. rewrite List.length_map. lia.
  - apply List.Forall_map.
    pose proof (take_while_Forall is_name_char rest) as Hall.
    revert Hall. apply List.Forall_impl. intros a Ha.
    unfold is_name_char, validate_digit_char, validate_english_char in Ha.
    unfold ascii_upper.
    destruct ((97 <=? a) && (a <=? 122)) eqn:El; lia.
Qed.

Lemma MAIN_name_ok : table_name_ok MAIN.
Proof.
  change MAIN with [77; 65; 73; 78]. split; [unfold len; cbn; lia|].
  repeat (constructor; [lia|]). constructor.
Qed.

Lemma entry_hash_key_range (upper : Z -> list Z) (raw_key : list Z) (h : Z) :
  entry_hash_key upper raw_key = Some h -> 0 <= h < 2 ^ 32.
Proof.
  unfold entry_hash_key. destruct (hex_check raw_key) eqn:E.
  - intros H. injection H as <-. unfold hex_check in E.
    apply andb_true_iff in E. destruct E as [E Hd].
    pose proof (int16_from_range raw_key 0 ltac:(lia) Hd) as Hr.
    unfold int16. unfold len in E.
    assert (16 ^ Z.of_nat (List.length raw_key) <= 16 ^ 8)
      by (apply Z.pow_le_mono_r; lia).
    change (16 ^ 8) with (2 ^ 32) in *. lia.
  - unfold gta_sa_hash. apply gta_sa_hash_from_range. lia.
Qed.

Lemma loader_ok_widen (data : gmap (list Z) (gmap Z (list Z)))
  (W W' : gset Z) (cur cur' : option (list Z)) (out out' : list message) :
  W ⊆ W' ->
  (forall name, cur' = Some name -> is_Some (data !! name)) ->
  loader_ok (mkLoader data W cur out) ->
  loader_ok (mkLoader data W' cur' out').
Proof.
  intros Hsub Hcur [Hd _]. split; [|exact Hcur]. cbn in *.
  intros name table Hn. destruct (Hd name table Hn) as [Hname Hent].
  split; [exact Hname|]. intros h v Hv.
  destruct (Hent h v Hv) as [Hr Hc]. split; [exact Hr|].
  revert Hc. apply List.Forall_impl. intros c Hc. apply Hsub. exact Hc.
Qed.

Lemma loader_ok_new_table (st : loader) (name : list Z) (out : list message) :
  table_name_ok name ->
  loader_ok st ->
  loader_ok
    (mkLoader
       (match m_GxtData st !! name with
        | Some _ => m_GxtData st
        | None => <[name := ∅]> (m_GxtData st)
        end)
       (m_WideCharCollection st) (Some name) out).
Proof.
  intros Hname [Hd Hcur]. split; cbn.
  - intros name' table Hn.
    destruct (m_GxtData st !! name) as [t|] eqn:E.
    + apply (Hd name' table Hn).
    + destruct (decide (name' = name)) as [->|Hne].
      * rewrite lookup_insert_eq in Hn. injection Hn as <-.
        split; [exact Hname|]. intros h v Hv.
        rewrite lookup_empty in Hv. discriminate.
      * rewrite lookup_insert_ne in Hn by congruence.
        apply (Hd name' table Hn).
  - intros name' H. injection H as <-.
    destruct (m_GxtData st !! name) as [t|] eqn:E.
    + rewrite E. eexists. reflexivity.
    + rewrite lookup_insert_eq. eexists. reflexivity.
Qed.

Lemma load_table_header_ok (group1 : list Z) (line : list Z) (st : loader) :
  table_format_match line = Some group1 ->
  loader_ok st -> loader_ok (load_table_header group1 st).
Proof.
  intros Hm Hok. unfold load_table_header.
  apply loader_ok_new_table; [|exact Hok].
  apply (table_format_match_name line). exact Hm.
Qed.

Lemma loader_ok_store (st : loader) (name : list Z) (h : Z) (v : list Z)
  (out : list message) :
  0 <= h < 2 ^ 32 ->
  current_table st = Some name ->
  loader_ok st ->
  loader_ok
    (mkLoader
       (<[name := <[h := v]> (table_of (m_GxtData st) name)]> (m_GxtData st))
       (m_WideCharCollection st ∪ list_to_set v) (Some name) out).
Proof.
  intros Hh Hc [Hd Hcur].
  destruct (Hcur name Hc) as [t Ht].
  split; cbn.
  - intros name' table Hn.
    destruct (decide (name' = name)) as [->|Hne].
    + rewrite lookup_insert_eq in Hn. injection Hn as <-.
      destruct (Hd name t Ht) as [Hname Hent]. split; [exact Hname|].
      intros h' v' Hv'.
      destruct (decide (h' = h)) as [->|Hneh].
      * rewrite lookup_insert_eq in Hv'. injection Hv' as <-.
        split; [exact Hh|]. apply List.Forall_forall. intros c Hin.
        apply elem_of_union_r, elem_of_list_to_set, list_elem_of_In. exact Hin.
      * rewrite lookup_insert_ne in Hv' by congruence.
        unfold table_of in Hv'. rewrite Ht in Hv'. cbn in Hv'.
        destruct (Hent h' v' Hv') as [Hr Hall]. split; [exact Hr|].
        revert Hall. apply List.Forall_impl. intros c Hin.
        apply elem_of_union_l. exact Hin.
    + rewrite lookup_insert_ne in Hn by congruence.
      destruct (Hd name' table Hn) as [Hname Hent]. split; [exact Hname|].
      intros h' v' Hv'. destruct (Hent h' v' Hv') as [Hr Hall].
      split; [exact Hr|].
      revert Hall. apply List.Forall_impl. intros c Hin.
      apply elem_of_union_l. exact Hin.
  - intros name' H. injection H as <-. rewrite lookup_insert_eq.
    eexists. reflexivity.
Qed.

Lemma load_entry_ok (upper : Z -> list Z) (line_no : Z)
  (raw_key text_value : list Z) (st : loader) :
  loader_ok st ->
  loader_ok (snd (load_entry upper line_no raw_key text_value st)).
Proof.
  intros Hok. unfold load_entry.
  set (st1 :=
         match current_table st with
         | Some name => mkLoader (m_GxtData st) (m_WideCharCollection st)
                          (Some name) (stdout st)
         | None =>
             mkLoader
               (match m_GxtData st !! MAIN with
                | Some _ => m_GxtData st
                | None => <[MAIN := ∅]> (m_GxtData st)
                end)
               (m_WideCharCollection st) (Some MAIN)
               (stdout st ++ [NoTableWarning line_no])
         end).
  assert (Hok1 : loader_ok st1).
  { subst st1. destruct (current_table st) as [name|] eqn:Ec.
    - destruct st as [d w c o]. cbn in *. subst c. exact Hok.
    - apply loader_ok_new_table; [apply MAIN_name_ok|exact Hok]. }
  assert (Hc1 : exists name, current_table st1 = Some name
                             /\ name = match current_table st with
                                       | Some n => n | None => MAIN end).
  { subst st1. destruct (current_table st); eexists; split; reflexivity. }
  destruct Hc1 as (name & Hc1 & Hname).
  assert (Hw1 : m_WideCharCollection st1 = m_WideCharCollection st)
    by (subst st1; destruct (current_table st); reflexivity).
  replace (let '(data, name, out) :=
             match current_table st with
             | Some name => (m_GxtData st, name, stdout st)
             | None =>
                 (match m_GxtData st !! MAIN with
                  | Some _ => m_GxtData st
                  | None => <[MAIN := ∅]> (m_GxtData st)
                  end, MAIN, stdout st ++ [NoTableWarning line_no])
             end in
           match entry_hash_key upper raw_key with
           | Some hash_key =>
               let table := table_of data name in
               let out0 :=
                 match table !! hash_key with
                 | Some existing =>
                     if decide (existing = text_value) then out
                     else out ++ [CollisionWarning line_no raw_key hash_key
                                    existing text_value]
                 | None => out
                 end in
               (true,
                {| m_GxtData := <[name := <[hash_key := text_value]> table]> data;
                   m_WideCharCollection :=
                     m_WideCharCollection st ∪ list_to_set text_value;
                   current_table := Some name;
                   stdout := out0 |})
           | None =>
               (false,
                {| m_GxtData := data;
                   m_WideCharCollection := m_WideCharCollection st;
                   current_table := Some name;
                   stdout := out |})
           end)
    with (match entry_hash_key upper raw_key with
          | Some hash_key =>
              (true,
               mkLoader
                 (<[name := <[hash_key := text_value]>
                              (table_of (m_GxtData st1) name)]> (m_GxtData st1))
                 (m_WideCharCollection st1 ∪ list_to_set text_value)
                 (Some name)
                 (match table_of (m_GxtData st1) name !! hash_key with
                  | Some existing =>
                      if decide (existing = text_value) then stdout st1
                      else stdout st1
                           ++ [CollisionWarning line_no raw_key hash_key
                                 existing text_value]
                  | None => stdout st1
                  end))
          | None =>
              (false,
               mkLoader (m_GxtData st1) (m_WideCharCollection st1) (Some name)
                 (stdout st1))
          end)
    by (subst st1 name; destruct (current_table st); reflexivity).
  destruct (entry_hash_key upper raw_key) as [h|] eqn:Eh; cbn [snd].
  - apply loader_ok_store; [|exact Hc1|exact Hok1].
    apply (entry_hash_key_range upper raw_key). exact Eh.
  - destruct st1 as [d w c o]. cbn in *. subst c. exact Hok1.
Qed.

Lemma load_text_line_ok (upper : Z -> list Z) (line_no : Z)
  (raw_line : list Z) (st : loader) :
  loader_ok st -> loader_ok (snd (load_text_line upper line_no raw_line st)).
Proof.
  intros Hok. unfold load_text_line. cbv zeta.
  destruct (strip raw_line) as [|c line]; [exact Hok|].
  destruct (c =? 59); [exact Hok|].
  destruct (table_format_match (c :: line)) as [group1|] eqn:Et.
  - cbn [snd]. apply (load_table_header_ok group1 (c :: line)); assumption.
  - destruct (entry_format_match (c :: line)) as [[raw_key text_value]|].
    + apply load_entry_ok. exact Hok.
    + cbn [snd]. destruct st as [d w cu o].
      apply (loader_ok_widen d w w cu cu o); [set_solver| |exact Hok].
      destruct Hok as [_ Hc]. exact Hc.
Qed.

Lemma load_text_lines_ok (upper : Z -> list Z) (lines : list (list Z)) :
  forall (line_no : Z) (st : loader),
    loader_ok st -> loader_ok (snd (load_text_lines upper line_no lines st)).
Proof.
  induction lines as [|line lines IH]; intros line_no st Hok; [exact Hok|].
  cbn [load_text_lines].
  pose proof (load_text_line_ok upper line_no line st Hok) as H1.
  destruct (load_text_line upper line_no line st) as [[|] st']; cbn [snd] in *.
  - apply IH. exact H1.
  - exact H1.
Qed.

(** X16.  Whatever the file holds and however [load_text] ends, the state
    it leaves is well formed: every table name has one to seven characters,
    each a digit, an upper-case letter or the underscore; every key fits in
    32 bits; every character of every stored value is in
    [m_WideCharCollection]. *)
Theorem load_text_well_formed (upper : Z -> list Z) (raw_content : list Z)
  (name : list Z) (table : gmap Z (list Z)) (h : Z) (v : list Z) :
  let st := snd (load_text upper raw_content) in
  m_GxtData st !! name = Some table ->
  table !! h = Some v ->
  table_name_ok name
  /\ 0 <= h < 2 ^ 32
  /\ forall c, In c v -> c ∈ m_WideCharCollection st.
Proof.
  cbv zeta. intros Hn Hv.
  assert (Hok : loader_ok (snd (load_text upper raw_content))).
  { unfold load_text. apply load_text_lines_ok. split; cbn.
    - intros name' table' H. rewrite lookup_empty in H. discriminate.
    - intros name' H. discriminate. }
  destruct Hok as [Hd _]. destruct (Hd name table Hn) as [Hname Hent].
  destruct (Hent h v Hv) as [Hr Hall].
  split; [exact Hname|]. split; [exact Hr|].
  rewrite List.Forall_forall in Hall. exact Hall.
Qed.

Lemma load_text_well_formed_witness :
  table_name_ok MAIN
  /\ 0 <= 0xBEEF < 2 ^ 32
  /\ forall c, In c (codes "hi") ->
       c ∈ m_WideCharCollection
             (snd (load_text (fun c => [ascii_upper c])
                     (codes "[main]" ++ [10] ++ codes "BEEF = hi"))).
Proof.
  apply (load_text_well_formed (fun c => [ascii_upper c])
           (codes "[main]" ++ [10] ++ codes "BEEF = hi")
           MAIN (<[0xBEEF := codes "hi"]> ∅) 0xBEEF (codes "hi")).
  - vm_compute. reflexivity.
  - vm_compute. reflexivity.
Defined.

(** ** The values of a written table *)

Lemma byte_at_app_l (l post : list Z) (i : Z) :
  0 <= i < len l -> byte_at (l ++ post) i = byte_at l i.
Proof.
  intros Hi. unfold byte_at, len in *. apply app_nth1. lia.
Qed.

Lemma byte_at_terminator (l : list Z) : byte_at (l ++ [0]) (len l) = 0.
Proof.
  rewrite <- (Z.add_0_r (len l)). rewrite byte_at_app_r by lia. reflexivity.
Qed.

Lemma data_block_size_perm (l l' : list (list Z)) :
  Permutation l l' -> data_block_size_of l = data_block_size_of l'.
Proof.
  induction 1 as [|x l l' _ IH|x y l|l l' l'' _ IH1 _ IH2].
  - reflexivity.
  - cbn [data_block_size_of]. rewrite IH. reflexivity.
  - cbn [data_block_size_of].
    destruct (utf8_encode x), (utf8_encode y), (data_block_size_of l);
      try reflexivity.
    f_equal. lia.
  - congruence.
Qed.

Lemma sorted_items_block_size (entries : gmap Z (list Z)) :
  data_block_size_of
    (List.map snd (py_sorted item_ltb (map_to_list entries)))
  = _get_data_block_size entries.
Proof.
  unfold _get_data_block_size. apply data_block_size_perm.
  apply Permutation_map. apply py_sorted_perm.
Qed.

Lemma save_entries_end (tdat_offset : Z) (items : list (Z * list Z)) :
  forall (f : file) (D P : Z) (f' : file) (D' P' : Z),
    save_entries tdat_offset items f D P = Some (f', D', P') ->
    data_block_size_of (List.map snd items) = Some (D' - D).
Proof.
  induction items as [|[hash_key value] items IH]; intros f D P f' D' P' Hs.
  - cbn in Hs. injection Hs as <- <- <-. cbn. f_equal. lia.
  - cbn [save_entries] in Hs. cbn [List.map snd data_block_size_of].
    destruct (utf8_encode value) as [encoded|]; [|discriminate].
    destruct (pack_u32 (D - tdat_offset - 8)) as [o|]; [|discriminate].
    destruct (pack_u32 hash_key) as [h|]; [|discriminate].
    unfold tell in Hs. rewrite fpos_write, fpos_seek in Hs.
    apply IH in Hs. rewrite Hs. f_equal.
    rewrite len_app. change (len [0]) with 1. lia.
Qed.

Lemma save_entries_texts (tdat_offset : Z) (items : list (Z * list Z)) :
  forall (f : file) (D P : Z) (f' : file) (D' P' : Z),
    0 <= P -> P + 8 * len items <= D ->
    save_entries tdat_offset items f D P = Some (f', D', P') ->
    forall (i : nat) (item : Z * list Z),
      nth_error items i = Some item ->
      exists encoded,
        utf8_encode (snd item) = Some encoded
        /\ D <= tdat_offset + 8 + fword f' (P + 8 * Z.of_nat i)
        /\ tdat_offset + 8 + fword f' (P + 8 * Z.of_nat i) + len encoded + 1
           <= D'
        /\ (forall j, 0 <= j < len encoded ->
            fbyte f' (tdat_offset + 8 + fword f' (P + 8 * Z.of_nat i) + j)
            = byte_at encoded j)
        /\ fbyte f' (tdat_offset + 8 + fword f' (P + 8 * Z.of_nat i)
                     + len encoded) = 0.
Proof.
  induction items as [|[hash_key value] items IH];
    intros f D P f' D' P' HP HD Hs i item Hi.
  - destruct i; discriminate.
  - rewrite len_cons in HD. pose proof (len_nonneg items) as Hn.
    cbn [save_entries] in Hs.
    destruct (utf8_encode value) as [encoded|] eqn:Ev; [|discriminate].
    destruct (pack_u32 (D - tdat_offset - 8)) as [o|] eqn:Eo; [|discriminate].
    destruct (pack_u32 hash_key) as [h|] eqn:Eh; [|discriminate].
    apply pack_u32_inv in Eo. destruct Eo as [-> Ho].
    apply pack_u32_inv in Eh. destruct Eh as [-> Hh].
    unfold tell, SizeOfTKEY in Hs. rewrite fpos_write, fpos_seek in Hs.
    pose proof (len_nonneg encoded) as Hle.
    assert (Hl : len (encoded ++ [0]) = len encoded + 1)
      by (rewrite len_app; reflexivity).
    rewrite Hl in Hs.
    assert (H1 : 0 <= P + 8) by lia.
    assert (H2 : 0 <= D + (len encoded + 1)) by lia.
    assert (H3 : P + 8 + 8 * len items <= D + (len encoded + 1)) by lia.
    destruct (save_entries_frame _ _ _ _ _ _ _ _ H1 H2 Hs)
      as (HP' & HD' & Hframe).
    destruct i as [|i].
    + injection Hi as <-. cbn [snd]. exists encoded.
      split; [exact Ev|].
      replace (P + 8 * Z.of_nat 0) with P by lia.
      set (g := write (le32 (D - tdat_offset - 8) ++ le32 hash_key)
                  (seek P (write (encoded ++ [0]) (seek D f)))) in *.
      assert (Hword : fword f' P = D - tdat_offset - 8).
      { transitivity (fword g P).
        - apply fword_ext. intros j Hj. apply Hframe; lia.
        - subst g.
          change (le32 (D - tdat_offset - 8) ++ le32 hash_key)
            with ([] ++ le32 (D - tdat_offset - 8) ++ le32 hash_key).
          apply fword_write_le32; rewrite ?fpos_seek; try lia.
          change (len (@nil Z)) with 0. lia. }
      rewrite Hword.
      replace (tdat_offset + 8 + (D - tdat_offset - 8)) with D by lia.
      assert (Htext : forall j, 0 <= j < len encoded + 1 ->
                fbyte f' (D + j) = byte_at (encoded ++ [0]) j).
      { intros j Hj. rewrite Hframe by lia. subst g.
        rewrite fbyte_write_out
          by (rewrite ?fpos_seek, ?len_app, ?len_le32; lia).
        rewrite fbyte_seek.
        rewrite fbyte_write_in by (rewrite ?fpos_seek; lia).
        rewrite fpos_seek. f_equal. lia. }
      split; [lia|]. split; [lia|]. split.
      * intros j Hj. rewrite Htext by lia. apply byte_at_app_l. exact Hj.
      * rewrite Htext by lia. apply byte_at_terminator.
    + cbn [nth_error] in Hi.
      destruct (IH _ _ _ _ _ _ H1 H3 Hs i item Hi)
        as (enc & He & Hlo & Hhi & Hb & Hz).
      replace (P + 8 * Z.of_nat (Datatypes.S i))
        with (P + 8 + 8 * Z.of_nat i) by lia.
      exists enc. split; [exact He|]. split; [lia|]. split; [exact Hhi|].
      split; assumption.
Qed.

Lemma save_table_unfold_size (table_name : list Z) (entries : gmap Z (list Z))
  (f : file) (T S K : Z) (r : file * Z * Z * Z) :
  save_table table_name entries f T S K = Some r ->
  exists dbs f' D' P',
    _get_data_block_size entries = Some dbs
    /\ 0 <= dbs < 2 ^ 32
    /\ 0 <= K < 2 ^ 32
    /\ 0 <= Z.of_nat (size entries) * 8 < 2 ^ 32
    /\ save_entries (S + tkey_skip table_name + 8 + Z.of_nat (size entries) * 8)
         (py_sorted item_ltb (map_to_list entries))
         (table_header table_name K (Z.of_nat (size entries) * 8) dbs f T S)
         (S + tkey_skip table_name + 8 + Z.of_nat (size entries) * 8 + 8)
         (S + tkey_skip table_name + 8)
       = Some (f', D', P')
    /\ r = (f', T + 12, D', D').
Proof.
  intros Hs. unfold save_table in Hs.
  destruct (_get_data_block_size entries) as [dbsz|]; [|discriminate].
  destruct (pack_u32 K) as [kbo|] eqn:EK; [|discriminate].
  destruct (pack_u32 (Z.of_nat (size entries) * SizeOfTKEY)) as [kbs|] eqn:EB;
    [|discriminate].
  destruct (pack_u32 dbsz) as [dbs|] eqn:ED; [|discriminate].
  apply pack_u32_inv in EK. destruct EK as [-> HK].
  apply pack_u32_inv in EB. destruct EB as [-> HB].
  apply pack_u32_inv in ED. destruct ED as [-> HD].
  unfold SizeOfTKEY, SizeOfTABL, tell in *.
  assert (Epos : forall g : file,
            fpos (write (le32 (Z.of_nat (size entries) * 8))
                    (write (codes "TKEY")
                       (if str_eqb table_name MAIN then seek S g
                        else write (padded_name table_name) (seek S g))))
            = S + tkey_skip table_name + 8).
  { intros g. unfold tkey_skip. destruct (str_eqb table_name MAIN); file_pos. }
  cbv zeta in Hs. rewrite !Epos in Hs.
  rewrite !fpos_write, !fpos_seek, len_TDAT, len_le32 in Hs.
  match type of Hs with
  | match save_entries ?a ?b ?c ?d ?e with _ => _ end = _ =>
      destruct (save_entries a b c d e) as [[[f' D'] P']|] eqn:ES;
        [|discriminate]
  end.
  injection Hs as <-.
  exists dbsz, f', D', P'. split; [reflexivity|]. split; [exact HD|].
  split; [exact HK|]. split; [exact HB|].
  split; [|reflexivity].
  rewrite <- ES. unfold table_header. f_equal. lia.
Qed.

Lemma table_header_tdat (table_name : list Z) (K kbs dbs : Z) (f : file)
  (T S : Z) :
  0 <= S -> 0 <= kbs -> 0 <= dbs < 2 ^ 32 ->
  let g := table_header table_name K kbs dbs f T S in
  let tdat := S + tkey_skip table_name + 8 + kbs in
  (forall k, 0 <= k < 4 -> fbyte g (tdat + k) = byte_at (codes "TDAT") k)
  /\ fword g (tdat + 4) = dbs.
Proof.
  intros HS Hk Hd g tdat. subst g tdat. unfold table_header. cbv zeta.
  pose proof (tkey_skip_range table_name) as Hskip.
  split.
  - intros k Hk4.
    rewrite fbyte_write_out by file_pos.
    rewrite fbyte_write_in by file_pos. f_equal. file_pos.
  - match goal with
    | |- fword (write (le32 dbs) ?h) ?off = _ =>
        replace off with (fpos h) by file_pos
    end.
    apply fword_write_word; [file_pos|exact Hd].
Qed.

Lemma save_table_texts (table_name : list Z) (entries : gmap Z (list Z))
  (f : file) (T S K : Z) (f' : file) (T' S' K' : Z) :
  0 <= T -> T + 12 <= S ->
  save_table table_name entries f T S K = Some (f', T', S', K') ->
  let P := S + tkey_skip table_name + 8 in
  let tdat := P + 8 * Z.of_nat (size entries) in
  (forall k, 0 <= k < 4 -> fbyte f' (tdat + k) = byte_at (codes "TDAT") k)
  /\ Some (fword f' (tdat + 4)) = _get_data_block_size entries
  /\ S' = tdat + 8 + fword f' (tdat + 4)
  /\ forall (i : nat) (item : Z * list Z),
       nth_error (py_sorted item_ltb (map_to_list entries)) i = Some item ->
       exists encoded,
         utf8_encode (snd item) = Some encoded
         /\ 0 <= fword f' (P + 8 * Z.of_nat i)
         /\ fword f' (P + 8 * Z.of_nat i) + len encoded + 1
            <= fword f' (tdat + 4)
         /\ (forall j, 0 <= j < len encoded ->
             fbyte f' (tdat + 8 + fword f' (P + 8 * Z.of_nat i) + j)
             = byte_at encoded j)
         /\ fbyte f' (tdat + 8 + fword f' (P + 8 * Z.of_nat i) + len encoded)
            = 0.
Proof.
  intros HT HS Hs P tdat.
  apply save_table_unfold_size in Hs.
  destruct Hs as (dbs & g & D' & P' & Hsize & Hdbs & HK & Hn & Hloop & Hr).
  injection Hr as -> -> -> ->.
  pose proof (tkey_skip_range table_name) as Hskip.
  set (n := Z.of_nat (size entries)) in *.
  fold P in Hloop.
  replace (P + n * 8) with tdat in Hloop by (subst tdat; lia).
  assert (HP : 0 <= P) by (subst P; lia).
  assert (Hn0 : 0 <= n) by (subst n; lia).
  set (h := table_header table_name K (n * 8) dbs f T S) in Hloop.
  destruct (table_header_tdat table_name K (n * 8) dbs f T S
              ltac:(lia) ltac:(lia) Hdbs) as (Hh1 & Hh2).
  fold h in Hh1, Hh2. fold P in Hh1, Hh2.
  replace (P + n * 8) with tdat in Hh1, Hh2 by (subst tdat; lia).
  assert (HD : 0 <= tdat + 8) by (subst tdat; lia).
  destruct (save_entries_frame _ _ _ _ _ _ _ _ HP HD Hloop)
    as (HP' & HD' & Hframe).
  rewrite sorted_items_length in HP'. fold n in HP'.
  assert (Hfit : P + 8 * len (py_sorted item_ltb (map_to_list entries))
                 <= tdat + 8).
  { rewrite sorted_items_length. fold n. subst tdat. lia. }
  pose proof (save_entries_texts _ _ _ _ _ _ _ _ HP Hfit Hloop) as Htexts.
  pose proof (save_entries_end _ _ _ _ _ _ _ _ Hloop) as Hend.
  rewrite sorted_items_block_size, Hsize in Hend.
  injection Hend as Hend.
  assert (Hw : fword g (tdat + 4) = dbs).
  { rewrite <- Hh2. apply fword_ext. intros j Hj.
    apply Hframe; subst tdat; lia. }
  rewrite Hw. split; [|split; [|split]].
  - intros k Hk. rewrite <- Hh1 by exact Hk. apply Hframe; subst tdat; lia.
  - symmetry. exact Hsize.
  - lia.
  - intros i item Hi.
    destruct (Htexts i item Hi) as (enc & He & Hlo & Hhi & Hb & Hz).
    exists enc. split; [exact He|]. split; [lia|]. split; [lia|].
    split; assumption.
Qed.

Lemma save_tables_texts (tables : list (list Z * gmap Z (list Z))) :
  forall (f : file) (T S : Z) (f' : file),
    0 <= T -> T + 12 * len tables <= S ->
    save_tables tables f T S S = Some f' ->
    forall (i : nat) (table_name : list Z) (entries : gmap Z (list Z)),
      nth_error tables i = Some (table_name, entries) ->
      table_data_at f' (T + 12 * Z.of_nat i) table_name entries.
Proof.
  induction tables as [|[table_name entries] tables IH];
    intros f T S f' HT HS Hs i name ents Hi.
  - destruct i; discriminate.
  - rewrite len_cons in HS. pose proof (len_nonneg tables) as Hl.
    cbn [save_tables] in Hs.
    destruct (save_table table_name entries f T S S)
      as [[[[f1 T1] S1] K1]|] eqn:Et; [|discriminate].
    assert (HS12 : T + 12 <= S) by lia.
    destruct (save_table_written _ _ _ _ _ _ _ _ _ _ HT HS12 Et)
      as (-> & -> & Hend & Hw1 & _).
    destruct (save_table_texts _ _ _ _ _ _ _ _ _ _ HT HS12 Et)
      as (Ht1 & Ht2 & Ht3 & Ht4).
    pose proof (tkey_skip_range table_name) as Hskip.
    assert (HT1 : 0 <= T + 12) by lia.
    assert (HS1 : T + 12 + 12 * len tables <= S1) by lia.
    destruct i as [|i].
    + injection Hi as <- <-.
      destruct (save_tables_written _ _ _ _ _ HT1 HS1 Hs) as (_ & IHf).
      assert (Hkeep : forall a, S <= a -> a + 4 <= S1 ->
                fword f' a = fword f1 a).
      { intros a Ha1 Ha2. apply fword_ext. intros j Hj. apply IHf; lia. }
      assert (Hdir : fword f' (T + 8) = S).
      { rewrite <- Hw1. apply fword_ext. intros j Hj. apply IHf; lia. }
      set (n := Z.of_nat (size entries)) in *.
      assert (Hn0 : 0 <= n) by (subst n; lia).
      assert (Hsz0 : 0 <= fword f1 (S + tkey_skip table_name + 8 + 8 * n + 4)).
      { destruct (_get_data_block_size entries) as [d|] eqn:Ed;
          [|discriminate].
        injection Ht2 as Ht2. rewrite Ht2.
        unfold _get_data_block_size in Ed.
        clear - Ed. revert d Ed.
        induction (snd <$> map_to_list entries) as [|v l IHl]; intros d Ed.
        - injection Ed as <-. lia.
        - cbn [data_block_size_of] in Ed.
          destruct (utf8_encode v) as [bs|]; [|discriminate].
          destruct (data_block_size_of l) as [m|]; [|discriminate].
          injection Ed as <-. specialize (IHl m eq_refl).
          pose proof (len_nonneg bs). lia. }
      unfold table_data_at.
      replace (T + 12 * Z.of_nat 0) with T by lia.
      rewrite Hdir. cbv zeta. fold n.
      rewrite (Hkeep (S + tkey_skip table_name + 8 + 8 * n + 4)) by lia.
      split; [|split].
      * intros k Hk. rewrite <- Ht1 by exact Hk. apply IHf; lia.
      * exact Ht2.
      * intros k item Hk.
        assert (Hk' : (k < List.length
                              (py_sorted item_ltb (map_to_list entries)))%nat)
          by (apply nth_error_Some; rewrite Hk; discriminate).
        assert (Hlen := sorted_items_length entries). unfold len in Hlen.
        fold n in Hlen.
        destruct (Ht4 k item Hk) as (enc & He & Hlo & Hhi & Hb & Hz).
        pose proof (len_nonneg enc) as Hle.
        exists enc. split; [exact He|].
        rewrite (Hkeep (S + tkey_skip table_name + 8 + 8 * Z.of_nat k)) by lia.
        split; [exact Hlo|]. split; [exact Hhi|]. split.
        -- intros j Hj. rewrite <- (Hb j Hj). apply IHf; lia.
        -- rewrite <- Hz. apply IHf; lia.
    + cbn [nth_error] in Hi.
      replace (T + 12 * Z.of_nat (Datatypes.S i))
        with (T + 12 + 12 * Z.of_nat i) by lia.
      apply (IH _ _ _ _ HT1 HS1 Hs i name ents Hi).
Qed.

(** X17.  Every value of a document that [save_as_gxt] writes can be read
    back from the file: for an entry of a table, one of the key records of
    the table holds its hash and an offset; after the key records stand the
    tag [TDAT] and the size of the data block, which is the sum that
    [_get_data_block_size] computes; and at this offset in the data block
    stand the UTF-8 bytes of the value and a null byte, all inside the
    block. *)
Theorem gxt_entry_lookup (data : gmap (list Z) (gmap Z (list Z)))
  (out : list Z) (i : nat) (table_name : list Z)
  (entries : gmap Z (list Z)) (h : Z) (v : list Z) :
  save_as_gxt data = Some out ->
  nth_error (sorted_tables data) i = Some (table_name, entries) ->
  entries !! h = Some v ->
  let key_block_offset := read_u32 out (12 + 12 * Z.of_nat i + 8) in
  let tkey := key_block_offset + tkey_skip table_name in
  let tdat := tkey + 8 + 8 * Z.of_nat (size entries) in
  (forall k, 0 <= k < 4 -> byte_at out (tdat + k) = byte_at (codes "TDAT") k)
  /\ Some (read_u32 out (tdat + 4)) = _get_data_block_size entries
  /\ exists (k : nat) (encoded : list Z),
       (k < size entries)%nat
       /\ utf8_encode v = Some encoded
       /\ read_u32 out (tkey + 8 + 8 * Z.of_nat k + 4) = h
       /\ let data_offset := read_u32 out (tkey + 8 + 8 * Z.of_nat k) in
          0 <= data_offset
          /\ data_offset + len encoded + 1 <= read_u32 out (tdat + 4)
          /\ (forall j, 0 <= j < len encoded ->
              byte_at out (tdat + 8 + data_offset + j) = byte_at encoded j)
          /\ byte_at out (tdat + 8 + data_offset + len encoded) = 0.
Proof.
  intros Hsave Hi Hv. unfold save_as_gxt in Hsave.
  destruct (pack_u32 (Z.of_nat (size data) * SizeOfTABL)) as [tbs|] eqn:Et;
    [|discriminate].
  apply pack_u32_inv in Et. destruct Et as [-> Htbs].
  match type of Hsave with
  | match save_tables ?l ?f0 ?T ?S ?K with _ => _ end = _ =>
      destruct (save_tables l f0 T S K) as [f|] eqn:Es; [|discriminate]
  end.
  injection Hsave as <-.
  unfold SizeOfTABL in Es, Htbs.
  pose proof Es as Es'.
  apply save_tables_written in Es;
    [|lia|rewrite sorted_tables_length; lia].
  apply save_tables_texts with (i := i) (table_name := table_name)
    (entries := entries) in Es';
    [|lia|rewrite sorted_tables_length; lia|exact Hi].
  destruct Es as [Hat _].
  specialize (Hat i table_name entries Hi).
  unfold table_at, fword, fbyte in Hat. destruct Hat as (_ & _ & Hrec).
  unfold table_data_at, fword, fbyte in Es'.
  destruct Es' as (Htag & Hsize & Htext).
  cbv zeta. split; [exact Htag|]. split; [exact Hsize|].
  assert (Hin : In (h, v) (py_sorted item_ltb (map_to_list entries))).
  { apply (Permutation_in _ (Permutation_sym (py_sorted_perm _ _))).
    apply list_elem_of_In, elem_of_map_to_list. exact Hv. }
  apply In_nth_error in Hin. destruct Hin as [k Hk].
  assert (Hk' : (k < size entries)%nat).
  { assert (Hlen := sorted_items_length entries). unfold len in Hlen.
    apply Nat2Z.inj in Hlen. rewrite <- Hlen.
    apply nth_error_Some. rewrite Hk. discriminate. }
  destruct (Htext k (h, v) Hk) as (enc & He & Hrest).
  exists k, enc. split; [exact Hk'|]. split; [exact He|].
  split; [apply (Hrec k (h, v) Hk)|]. exact Hrest.
Qed.

Lemma gxt_entry_lookup_witness :
  exists (k : nat) (encoded : list Z),
    (k < size example_main)%nat
    /\ utf8_encode (codes "two") = Some encoded
    /\ read_u32 example_gxt
         (read_u32 example_gxt (12 + 12 * Z.of_nat 0 + 8) + tkey_skip MAIN
          + 8 + 8 * Z.of_nat k + 4) = 1.
Proof.
  assert (H1 : save_as_gxt example_tables = Some example_gxt)
    by (vm_compute; reflexivity).
  assert (H2 : nth_error (sorted_tables example_tables) 0
               = Some (MAIN, example_main))
    by (vm_compute; reflexivity).
  assert (H3 : example_main !! 1 = Some (codes "two"))
    by (vm_compute; reflexivity).
  destruct (gxt_entry_lookup example_tables example_gxt 0 MAIN
              example_main 1 (codes "two") H1 H2 H3)
    as (_ & _ & k & enc & Hk & He & Hh & _).
  exists k, enc. split; [exact Hk|]. split; [exact He|exact Hh].
Defined.

(** ** The order of the tables in the file *)

Lemma str_ltb_irrefl (a : list Z) : str_ltb a a = false.
Proof.
  induction a as [|x a IH]; [reflexivity|].
  cbn [str_ltb]. rewrite IH, Z.ltb_irrefl. apply andb_false_r.
Qed.

Lemma str_ltb_trans (a : list Z) :
  forall b c, str_ltb a b = true -> str_ltb b c = true -> str_ltb a c = true.
Proof.
  induction a as [|x a IH]; intros [|y b] [|z c] Hab Hbc;
    cbn [str_ltb] in *; try discriminate; try reflexivity.
  apply orb_true_iff in Hab, Hbc. apply orb_true_iff.
  destruct Hab as [Hab|Hab], Hbc as [Hbc|Hbc];
    rewrite ?andb_true_iff in *.
  - left. lia.
  - left. lia.
  - left. lia.
  - right. destruct Hab as [Exy Hab], Hbc as [Eyz Hbc].
    split; [lia|]. apply (IH b c Hab Hbc).
Qed.

Lemma str_ltb_total (a : list Z) :
  forall b, str_ltb a b = false -> a <> b -> str_ltb b a = true.
Proof.
  induction a as [|x a IH]; intros [|y b] Hab Hne; cbn [str_ltb] in *;
    try congruence.
  apply orb_false_iff in Hab. destruct Hab as [Hlt Hab].
  destruct (Z.eqb_spec x y) as [->|Hxy].
  - cbn [andb] in Hab. rewrite Z.ltb_irrefl, Z.eqb_refl. cbn [orb andb].
    apply IH; [exact Hab|]. intros ->. apply Hne. reflexivity.
  - assert (E : (y <? x) = true) by lia. rewrite E. reflexivity.
Qed.

Lemma table_ltb_spec {V : Type} (a b : list Z * V) :
  table_ltb a b = true <-> name_before (fst a) (fst b).
Proof.
  unfold table_ltb, name_before, str_eqb.
  destruct (decide (fst a = MAIN)) as [Ea|Ea],
           (decide (fst b = MAIN)) as [Eb|Eb]; cbn.
  - rewrite Ea, Eb, str_ltb_irrefl. split; [discriminate|tauto].
  - split; [auto|reflexivity].
  - split; [discriminate|tauto].
  - split.
    + intros H. auto.
    + intros [_ [H|H]]; [contradiction|exact H].
Qed.

Lemma name_before_trans (x y z : list Z) :
  name_before x y -> name_before y z -> name_before x z.
Proof.
  intros [Hy Hxy] [Hz Hyz]. split; [exact Hz|].
  destruct Hxy as [->|Hxy]; [left; reflexivity|].
  destruct Hyz as [->|Hyz]; [contradiction|].
  right. apply (str_ltb_trans x y z Hxy Hyz).
Qed.

Lemma table_ltb_total {V : Type} (a b : list Z * V) :
  table_ltb a b = false -> fst a <> fst b -> name_before (fst b) (fst a).
Proof.
  intros Hf Hne. unfold name_before.
  destruct (decide (fst a = MAIN)) as [Ea|Ea].
  - exfalso. assert (Ht : table_ltb a b = true); [|congruence].
    apply table_ltb_spec. split; [congruence|left; exact Ea].
  - split; [exact Ea|].
    destruct (decide (fst b = MAIN)) as [Eb|Eb]; [left; exact Eb|].
    right. apply str_ltb_total; [|exact Hne].
    destruct (str_ltb (fst a) (fst b)) eqn:E; [|reflexivity].
    assert (Ht : table_ltb a b = true); [|congruence].
    apply table_ltb_spec. split; [exact Eb|right; exact E].
Qed.

Lemma sorted_tables_names_sorted
  (data : gmap (list Z) (gmap Z (list Z))) :
  StronglySorted name_before (List.map fst (sorted_tables data)).
Proof.
  unfold sorted_tables.
  apply (py_sorted_strongly table_ltb fst name_before).
  - apply name_before_trans.
  - intros x y H. apply table_ltb_spec. exact H.
  - intros x y. apply table_ltb_total.
  - apply NoDup_ListNoDup, NoDup_fst_map_to_list.
Qed.

(** X18.  The tables are written in the order of [_table_sort]: the table
    directory lists every table of the document once, the table [MAIN]
    first when there is one, and the other tables in the ascending order of
    their names. *)
Theorem sorted_tables_order (data : gmap (list Z) (gmap Z (list Z))) :
  let names := List.map fst (sorted_tables data) in
  (forall name entries,
     In (name, entries) (sorted_tables data) <-> data !! name = Some entries)
  /\ StronglySorted name_before names
  /\ (forall i : nat, nth_error names i = Some MAIN -> i = O)
  /\ forall (i j : nat) (a b : list Z),
       (i < j)%nat -> nth_error names i = Some a -> nth_error names j = Some b ->
       a <> MAIN -> str_ltb a b = true.
Proof.
  cbv zeta. pose proof (sorted_tables_names_sorted data) as Hs.
  assert (Hpair : forall (i j : nat) (a b : list Z),
            (i < j)%nat ->
            nth_error (List.map fst (sorted_tables data)) i = Some a ->
            nth_error (List.map fst (sorted_tables data)) j = Some b ->
            name_before a b).
  { revert Hs. generalize (List.map fst (sorted_tables data)).
    intros l Hs. induction Hs as [|x l Hs IH Hall]; intros i j a b Hij Hi Hj.
    - destruct i; discriminate.
    - destruct j as [|j]; [lia|]. cbn [nth_error] in Hj.
      destruct i as [|i].
      + injection Hi as <-. rewrite List.Forall_forall in Hall.
        apply Hall. apply (nth_error_In _ _ Hj).
      + cbn [nth_error] in Hi. apply (IH i j a b); [lia|exact Hi|exact Hj]. }
  split; [|split; [exact Hs|split]].
  - intros name entries. unfold sorted_tables. split; intros H.
    + apply (Permutation_in _ (py_sorted_perm _ _)) in H.
      apply list_elem_of_In, elem_of_map_to_list in H. exact H.
    + apply (Permutation_in _ (Permutation_sym (py_sorted_perm _ _))).
      apply list_elem_of_In, elem_of_map_to_list. exact H.
  - intros i Hi. destruct i as [|i]; [reflexivity|]. exfalso.
    destruct (nth_error (List.map fst (sorted_tables data)) 0) as [a|] eqn:E0.
    + destruct (Hpair 0%nat (Datatypes.S i) a MAIN ltac:(lia) E0 Hi) as [Hne _].
      apply Hne. reflexivity.
    + apply nth_error_None in E0.
      assert (Hlt : (Datatypes.S i
                     < List.length (List.map fst (sorted_tables data)))%nat)
        by (apply nth_error_Some; rewrite Hi; discriminate).
      lia.
  - intros i j a b Hij Hi Hj Ha.
    destruct (Hpair i j a b Hij Hi Hj) as [_ [E|E]]; [contradiction|exact E].
Qed.

(** ** When [save_as_gxt] succeeds, and the length of the file *)

Lemma flen_write (bs : list Z) (f : file) :
  0 <= fpos f -> bs <> [] ->
  len (fbytes (write bs f)) = Z.max (len (fbytes f)) (fpos f + len bs).
Proof.
  intros Hp Hbs. unfold write. destruct bs as [|b bs]; [congruence|].
  cbn [fbytes]. unfold len.
  rewrite !length_app, length_firstn, length_skipn, !length_app,
    repeat_length.
  lia.
Qed.

Lemma flen_seek (p : Z) (f : file) : len (fbytes (seek p f)) = len (fbytes f).
Proof. reflexivity. Qed.

Lemma utf8_encode_no_surrogate (s : list Z) :
  Forall (fun c => is_surrogate c = false) s ->
  exists bs, utf8_encode s = Some bs.
Proof.
  induction 1 as [|c s Hc _ [bs IH]]; [exists []; reflexivity|].
  cbn [utf8_encode]. rewrite Hc, IH. eexists. reflexivity.
Qed.

Lemma data_block_size_nonneg (values : list (list Z)) (d : Z) :
  data_block_size_of values = Some d -> 0 <= d.
Proof.
  revert d. induction values as [|v l IH]; intros d Ed.
  - injection Ed as <-. lia.
  - cbn [data_block_size_of] in Ed.
    destruct (utf8_encode v) as [bs|]; [|discriminate].
    destruct (data_block_size_of l) as [m|]; [|discriminate].
    injection Ed as <-. specialize (IH m eq_refl).
    pose proof (len_nonneg bs). lia.
Qed.

Lemma data_block_size_some (values : list (list Z)) :
  Forall (fun v => Forall (fun c => is_surrogate c = false) v) values ->
  exists d, data_block_size_of values = Some d.
Proof.
  induction 1 as [|v l Hv _ [d IH]]; [exists 0; reflexivity|].
  destruct (utf8_encode_no_surrogate v Hv) as [bs Hbs].
  cbn [data_block_size_of]. rewrite Hbs, IH. eexists. reflexivity.
Qed.

Lemma save_entries_succeeds (tdat_offset : Z) (items : list (Z * list Z)) :
  forall (f : file) (D P total : Z),
    0 <= P -> P + 8 * len items <= D ->
    tdat_offset + 8 <= D ->
    len (fbytes f) = D ->
    Forall (fun item => 0 <= fst item < 2 ^ 32) items ->
    data_block_size_of (List.map snd items) = Some total ->
    D + total - tdat_offset - 8 < 2 ^ 32 ->
    exists f',
      save_entries tdat_offset items f D P
      = Some (f', D + total, P + 8 * len items)
      /\ len (fbytes f') = D + total.
Proof.
  induction items as [|[hash_key value] items IH];
    intros f D P total HP HD Ht Hlen Hkeys Htotal Hfit.
  - cbn in Htotal. injection Htotal as <-. exists f.
    change (len (@nil (Z * list Z))) with 0. cbn [save_entries].
    split; [f_equal; f_equal; [f_equal; lia|lia]|lia].
  - rewrite len_cons in *. pose proof (len_nonneg items) as Hn.
    cbn [List.map snd data_block_size_of] in Htotal.
    destruct (utf8_encode value) as [encoded|] eqn:Ev; [|discriminate].
    destruct (data_block_size_of (List.map snd items)) as [rest|] eqn:Er;
      [|discriminate].
    injection Htotal as <-.
    pose proof (data_block_size_nonneg _ _ Er) as Hrest.
    pose proof (len_nonneg encoded) as Hle.
    apply List.Forall_cons_iff in Hkeys. destruct Hkeys as [Hh Hkeys].
    cbn [fst] in Hh.
    cbn [save_entries]. rewrite Ev.
    rewrite (pack_u32_bytes (D - tdat_offset - 8)) by lia.
    rewrite (pack_u32_bytes hash_key) by exact Hh.
    unfold tell, SizeOfTKEY. rewrite fpos_write, fpos_seek.
    assert (Hl : len (encoded ++ [0]) = len encoded + 1)
      by (rewrite len_app; reflexivity).
    rewrite Hl.
    set (g := write (le32 (D - tdat_offset - 8) ++ le32 hash_key)
                (seek P (write (encoded ++ [0]) (seek D f)))).
    assert (Hg : len (fbytes g) = D + (len encoded + 1)).
    { subst g. rewrite flen_write;
        [|rewrite fpos_seek; lia|destruct (le32 (D - tdat_offset - 8)) eqn:E;
                                  [discriminate|discriminate]].
      rewrite flen_seek, flen_write;
        [|rewrite fpos_seek; lia|destruct encoded; discriminate].
      rewrite !fpos_seek, flen_seek, Hl, len_app, !len_le32. lia. }
    assert (Hrec : exists f',
              save_entries tdat_offset items g (D + (len encoded + 1)) (P + 8)
              = Some (f', D + (len encoded + 1) + rest, P + 8 + 8 * len items)
              /\ len (fbytes f') = D + (len encoded + 1) + rest).
    { apply IH; try assumption; try lia. reflexivity. }
    destruct Hrec as (f' & Hs & Hf').
    exists f'. split.
    + rewrite Hs. f_equal. f_equal; [f_equal; lia|lia].
    + rewrite Hf'. lia.
Qed.

Lemma table_header_flen (table_name : list Z) (K kbs dbs : Z) (f : file)
  (T S : Z) :
  0 <= T -> T + 12 <= S -> len (fbytes f) <= S -> 0 <= kbs ->
  len (fbytes (table_header table_name K kbs dbs f T S))
  = S + tkey_skip table_name + 8 + kbs + 8.
Proof.
  intros HT HS Hlen Hk. unfold table_header. cbv zeta.
  assert (Hne : forall x, le32 x <> []) by (intros x; discriminate).
  assert (Hpn : padded_name table_name <> []).
  { intros E. pose proof (padded_name_length table_name) as Hl.
    rewrite E in Hl. discriminate. }
  assert (Htk : codes "TKEY" <> []) by discriminate.
  assert (Htd : codes "TDAT" <> []) by discriminate.
  unfold tkey_skip.
  destruct (str_eqb table_name MAIN);
    repeat first
      [ rewrite flen_seek
      | rewrite flen_write by (first [file_pos | assumption | apply Hne]) ];
    file_simpl; lia.
Qed.

Lemma sorted_items_writable (entries : gmap Z (list Z)) :
  table_writable entries ->
  Forall (fun item => 0 <= fst item < 2 ^ 32)
    (py_sorted item_ltb (map_to_list entries))
  /\ exists d, _get_data_block_size entries = Some d /\ 0 <= d.
Proof.
  intros Hw. split.
  - apply List.Forall_forall. intros [h v] Hin.
    apply (Permutation_in _ (py_sorted_perm _ _)) in Hin.
    apply list_elem_of_In, elem_of_map_to_list in Hin.
    apply (Hw h v Hin).
  - unfold _get_data_block_size.
    destruct (data_block_size_some (snd <$> map_to_list entries)) as [d Hd].
    + apply List.Forall_forall. intros v Hin.
      apply list_elem_of_In, list_elem_of_fmap in Hin.
      destruct Hin as ([h v'] & -> & Hin).
      apply elem_of_map_to_list in Hin. apply (Hw h v' Hin).
    + exists d. split; [exact Hd|]. apply (data_block_size_nonneg _ _ Hd).
Qed.

Lemma save_table_succeeds (table_name : list Z) (entries : gmap Z (list Z))
  (f : file) (T S : Z) (d : Z) :
  0 <= T -> T + 12 <= S -> len (fbytes f) <= S ->
  table_writable entries ->
  _get_data_block_size entries = Some d ->
  S + tkey_skip table_name + 8 + 8 * Z.of_nat (size entries) + 8 + d < 2 ^ 32 ->
  exists f',
    save_table table_name entries f T S S
    = Some (f', T + 12,
            S + tkey_skip table_name + 8 + 8 * Z.of_nat (size entries) + 8 + d,
            S + tkey_skip table_name + 8 + 8 * Z.of_nat (size entries) + 8 + d)
    /\ len (fbytes f')
       = S + tkey_skip table_name + 8 + 8 * Z.of_nat (size entries) + 8 + d.
Proof.
  intros HT HS Hlen Hw Hd Hfit.
  destruct (sorted_items_writable entries Hw) as (Hkeys & d' & Hd' & Hd0).
  rewrite Hd in Hd'. injection Hd' as <-.
  pose proof (tkey_skip_range table_name) as Hskip.
  set (n := Z.of_nat (size entries)) in *.
  assert (Hn0 : 0 <= n) by (subst n; lia).
  unfold save_table. rewrite Hd.
  rewrite (pack_u32_bytes S) by lia.
  unfold SizeOfTKEY, SizeOfTABL, tell. fold n.
  rewrite (pack_u32_bytes (n * 8)) by lia.
  rewrite (pack_u32_bytes d) by lia.
  assert (Epos : forall g : file,
            fpos (write (le32 (n * 8))
                    (write (codes "TKEY")
                       (if str_eqb table_name MAIN then seek S g
                        else write (padded_name table_name) (seek S g))))
            = S + tkey_skip table_name + 8).
  { intros g. unfold tkey_skip. destruct (str_eqb table_name MAIN); file_pos. }
  cbv zeta. rewrite !Epos.
  rewrite !fpos_write, !fpos_seek, len_TDAT, len_le32.
  set (P := S + tkey_skip table_name + 8).
  pose proof (table_header_flen table_name S (n * 8) d f T S HT HS Hlen
                ltac:(lia)) as Hhl.
  unfold table_header in Hhl. cbv zeta in Hhl. fold P in Hhl.
  match goal with
  | |- context [save_entries ?a ?b ?c ?dd ?e] =>
      destruct (save_entries_succeeds a b c dd e d) as (f' & Hs & Hf')
  end.
  - subst P. lia.
  - rewrite sorted_items_length. fold n. lia.
  - lia.
  - refine (eq_trans _ (eq_trans Hhl _)); [reflexivity|lia].
  - exact Hkeys.
  - rewrite sorted_items_block_size. exact Hd.
  - lia.
  - rewrite Hs. exists f'. split.
    + subst P. repeat (f_equal; try lia).
    + rewrite Hf'. subst P. lia.
Qed.

Lemma block_size_default_nonneg (entries : gmap Z (list Z)) :
  0 <= default 0 (_get_data_block_size entries).
Proof.
  destruct (_get_data_block_size entries) as [d|] eqn:E; cbn; [|lia].
  apply (data_block_size_nonneg _ _ E).
Qed.

Lemma tables_end_ge (tables : list (list Z * gmap Z (list Z))) :
  forall S, S <= tables_end tables S.
Proof.
  induction tables as [|[table_name entries] tables IH]; intros S;
    cbn [tables_end]; [lia|].
  pose proof (tkey_skip_range table_name).
  pose proof (block_size_default_nonneg entries).
  etransitivity; [|apply IH]. lia.
Qed.

Lemma save_tables_succeeds (tables : list (list Z * gmap Z (list Z))) :
  forall (f : file) (T S : Z),
    0 <= T -> T + 12 * len tables <= S ->
    len (fbytes f) <= S ->
    (tables = [] -> len (fbytes f) = S) ->
    Forall (fun t => table_writable (snd t)) tables ->
    tables_end tables S < 2 ^ 32 ->
    exists f',
      save_tables tables f T S S = Some f'
      /\ len (fbytes f') = tables_end tables S.
Proof.
  induction tables as [|[table_name entries] tables IH];
    intros f T S HT HS Hlen Hnil Hw Hfit.
  - exists f. split; [reflexivity|]. apply Hnil. reflexivity.
  - rewrite len_cons in HS. pose proof (len_nonneg tables) as Hl.
    apply List.Forall_cons_iff in Hw. destruct Hw as [Hw1 Hw].
    cbn [snd] in Hw1.
    destruct (sorted_items_writable entries Hw1) as (_ & d & Hd & Hd0).
    cbn [tables_end] in Hfit |- *. rewrite Hd in Hfit |- *.
    change (default 0 (Some d)) with d in *.
    remember (S + tkey_skip table_name + 8 + 8 * Z.of_nat (size entries)
              + 8 + d) as S1 eqn:ES1 in *.
    pose proof (tables_end_ge tables S1) as Hge.
    pose proof (tkey_skip_range table_name) as Hskip.
    assert (Hfirst : exists f1,
              save_table table_name entries f T S S
              = Some (f1, T + 12, S1, S1)
              /\ len (fbytes f1) = S1).
    { rewrite ES1. apply save_table_succeeds; try assumption; lia. }
    destruct Hfirst as (f1 & Hs & Hf1).
    cbn [save_tables]. rewrite Hs.
    apply IH; try assumption; try lia.
Qed.

Lemma save_as_gxt_writes (data : gmap (list Z) (gmap Z (list Z))) :
  (forall name table, data !! name = Some table -> table_writable table) ->
  gxt_length data < 2 ^ 32 ->
  exists out, save_as_gxt data = Some out /\ len out = gxt_length data.
Proof.
  intros Hw Hfit. unfold gxt_length in *.
  pose proof (tables_end_ge (sorted_tables data)
                (12 + 12 * Z.of_nat (size data))) as Hge.
  unfold save_as_gxt, SizeOfTABL.
  rewrite (pack_u32_bytes (Z.of_nat (size data) * 12)) by lia.
  cbv zeta.
  set (f0 := write (le32 (Z.of_nat (size data) * 12))
               (write (codes "TABL")
                  (write [8; 0] (write [4; 0] {| fpos := 0; fbytes := [] |})))).
  assert (Hf0 : len (fbytes f0) = 12).
  { subst f0.
    rewrite flen_write; [|vm_compute; discriminate|discriminate].
    rewrite len_le32. reflexivity. }
  assert (Hall : exists f',
            save_tables (sorted_tables data) f0 12
              (12 + Z.of_nat (size data) * 12)
              (12 + Z.of_nat (size data) * 12) = Some f'
            /\ len (fbytes f')
               = tables_end (sorted_tables data)
                   (12 + Z.of_nat (size data) * 12));
    [apply save_tables_succeeds|].
  - lia.
  - rewrite sorted_tables_length. lia.
  - lia.
  - intros E. pose proof (sorted_tables_length data) as Hl.
    rewrite E in Hl. change (len (@nil (list Z * gmap Z (list Z)))) with 0 in Hl.
    lia.
  - apply List.Forall_forall. intros [name table] Hin. cbn [snd].
    unfold sorted_tables in Hin.
    apply (Permutation_in _ (py_sorted_perm _ _)) in Hin.
    apply list_elem_of_In, elem_of_map_to_list in Hin.
    apply (Hw name table Hin).
  - replace (12 + Z.of_nat (size data) * 12)
      with (12 + 12 * Z.of_nat (size data)) by lia. exact Hfit.
  - destruct Hall as (f' & Hs & Hf').
    rewrite Hs. exists (fbytes f'). split; [reflexivity|].
    rewrite Hf'. f_equal. lia.
Qed.

(** X19.  [save_as_gxt] writes the whole file whenever every key fits in
    32 bits, no value holds a surrogate code point and the length of the
    file, which is the header, 12 bytes for each table and the blocks of the
    tables, is below 2^32; the file then has exactly this length. *)
Theorem save_as_gxt_succeeds (data : gmap (list Z) (gmap Z (list Z))) :
  (forall name table, data !! name = Some table -> table_writable table) ->
  gxt_length data < 2 ^ 32 ->
  exists out, save_as_gxt data = Some out /\ len out = gxt_length data.
Proof. apply save_as_gxt_writes. Qed.

Lemma save_as_gxt_succeeds_witness :
  exists out,
    save_as_gxt example_tables = Some out
    /\ len out = gxt_length example_tables.
Proof.
  apply (save_as_gxt_succeeds example_tables).
  - intros name table Hn. unfold example_tables in Hn.
    apply lookup_insert_Some in Hn.
    destruct Hn as [[_ <-]|[_ Hn]]; [|rewrite lookup_empty in Hn; discriminate].
    intros h v Hv. unfold example_main in Hv.
    apply lookup_insert_Some in Hv. destruct Hv as [[<- <-]|[_ Hv]].
    + split; [lia|]. repeat constructor.
    + apply lookup_insert_Some in Hv.
      destruct Hv as [[<- <-]|[_ Hv]];
        [|rewrite lookup_empty in Hv; discriminate].
      split; [lia|]. repeat constructor.
  - vm_compute. reflexivity.
Defined.

(** ** The header and the names in the file *)

Lemma table_header_names (table_name : list Z) (K kbs dbs : Z) (f : file)
  (T S : Z) :
  0 <= T -> T + 12 <= S -> 0 <= kbs ->
  let g := table_header table_name K kbs dbs f T S in
  (forall k, 0 <= k < 8 ->
     fbyte g (T + k) = byte_at (padded_name table_name) k)
  /\ (table_name <> MAIN ->
      forall k, 0 <= k < 8 ->
        fbyte g (S + k) = byte_at (padded_name table_name) k).
Proof.
  intros HT HS Hk g. subst g. unfold table_header. cbv zeta.
  unfold tkey_skip, str_eqb.
  destruct (decide (table_name = MAIN)) as [E|E].
  - split; [|intros H; contradiction].
    intros k Hk8. peel. rewrite fbyte_write_in by file_pos.
    f_equal. file_pos.
  - split.
    + intros k Hk8. peel. rewrite fbyte_write_in by file_pos.
      f_equal. file_pos.
    + intros _ k Hk8. peel. rewrite fbyte_write_in by file_pos.
      f_equal. file_pos.
Qed.

Lemma save_table_names (table_name : list Z) (entries : gmap Z (list Z))
  (f : file) (T S K : Z) (f' : file) (T' S' K' : Z) :
  0 <= T -> T + 12 <= S ->
  save_table table_name entries f T S K = Some (f', T', S', K') ->
  (forall k, 0 <= k < 8 ->
     fbyte f' (T + k) = byte_at (padded_name table_name) k)
  /\ (table_name <> MAIN ->
      forall k, 0 <= k < 8 ->
        fbyte f' (S + k) = byte_at (padded_name table_name) k).
Proof.
  intros HT HS Hs.
  apply save_table_unfold in Hs.
  destruct Hs as (dbs & g & D' & P' & HK & Hn & Hloop & Hr).
  injection Hr as -> -> -> ->.
  pose proof (tkey_skip_range table_name) as Hskip.
  destruct (table_header_names table_name K (Z.of_nat (size entries) * 8) dbs
              f T S HT HS ltac:(lia)) as (Hn1 & Hn2).
  assert (HP : 0 <= S + tkey_skip table_name + 8) by lia.
  assert (HD : 0 <= S + tkey_skip table_name + 8
                    + Z.of_nat (size entries) * 8 + 8) by lia.
  destruct (save_entries_frame _ _ _ _ _ _ _ _ HP HD Hloop)
    as (HP' & HD' & Hframe).
  split.
  - intros k Hk. rewrite <- (Hn1 k Hk). apply Hframe; lia.
  - intros Hne k Hk. rewrite <- (Hn2 Hne k Hk).
    assert (Hs8 : tkey_skip table_name = 8).
    { unfold tkey_skip, str_eqb.
      destruct (decide (table_name = MAIN)); [contradiction|reflexivity]. }
    apply Hframe; lia.
Qed.

Lemma save_tables_names (tables : list (list Z * gmap Z (list Z))) :
  forall (f : file) (T S : Z) (f' : file),
    0 <= T -> T + 12 * len tables <= S ->
    save_tables tables f T S S = Some f' ->
    forall (i : nat) (table_name : list Z) (entries : gmap Z (list Z)),
      nth_error tables i = Some (table_name, entries) ->
      (forall k, 0 <= k < 8 ->
         fbyte f' (T + 12 * Z.of_nat i + k)
         = byte_at (padded_name table_name) k)
      /\ (table_name <> MAIN ->
          forall k, 0 <= k < 8 ->
            fbyte f' (fword f' (T + 12 * Z.of_nat i + 8) + k)
            = byte_at (padded_name table_name) k).
Proof.
  induction tables as [|[table_name entries] tables IH];
    intros f T S f' HT HS Hs i name ents Hi.
  - destruct i; discriminate.
  - rewrite len_cons in HS. pose proof (len_nonneg tables) as Hl.
    cbn [save_tables] in Hs.
    destruct (save_table table_name entries f T S S)
      as [[[[f1 T1] S1] K1]|] eqn:Et; [|discriminate].
    assert (HS12 : T + 12 <= S) by lia.
    destruct (save_table_written _ _ _ _ _ _ _ _ _ _ HT HS12 Et)
      as (-> & -> & Hend & Hw1 & _).
    destruct (save_table_names _ _ _ _ _ _ _ _ _ _ HT HS12 Et) as (Hn1 & Hn2).
    pose proof (tkey_skip_range table_name) as Hskip.
    assert (HT1 : 0 <= T + 12) by lia.
    assert (HS1 : T + 12 + 12 * len tables <= S1) by lia.
    destruct i as [|i].
    + injection Hi as <- <-.
      destruct (save_tables_written _ _ _ _ _ HT1 HS1 Hs) as (_ & IHf).
      assert (Hdir : fword f' (T + 8) = S).
      { rewrite <- Hw1. apply fword_ext. intros j Hj. apply IHf; lia. }
      replace (T + 12 * Z.of_nat 0) with T by lia. rewrite Hdir. split.
      * intros k Hk. rewrite <- (Hn1 k Hk). apply IHf; lia.
      * intros Hne k Hk. rewrite <- (Hn2 Hne k Hk).
        assert (Hs8 : tkey_skip table_name = 8).
        { unfold tkey_skip, str_eqb.
          destruct (decide (table_name = MAIN)); [contradiction|reflexivity]. }
        apply IHf; lia.
    + cbn [nth_error] in Hi.
      replace (T + 12 * Z.of_nat (Datatypes.S i))
        with (T + 12 + 12 * Z.of_nat i) by lia.
      apply (IH _ _ _ _ HT1 HS1 Hs i name ents Hi).
Qed.

Lemma padded_name_ok (table_name : list Z) :
  table_name_ok table_name ->
  padded_name table_name
  = table_name ++ repeat 0 (8 - List.length table_name).
Proof.
  intros [Hlen Hall]. unfold padded_name.
  assert (Hf : List.filter (fun c => c <? 128) table_name = table_name).
  { clear Hlen. induction Hall as [|c l Hc _ IH]; [reflexivity|].
    cbn [List.filter]. assert (E : (c <? 128) = true) by lia.
    rewrite E, IH. reflexivity. }
  rewrite Hf. unfold len in Hlen.
  rewrite firstn_all2 by lia. reflexivity.
Qed.

(** X20.  A file that [save_as_gxt] writes starts with the version 4, the
    character width 8, the tag [TABL] and 12 times the number of tables;
    the directory entry of each table starts with its name cut to its first
    seven ASCII characters and filled with zeros to eight bytes, and a
    table other than [MAIN] repeats these eight bytes at the start of its
    key block.  A name as [load_text] stores it is written whole. *)
Theorem gxt_header_and_names (data : gmap (list Z) (gmap Z (list Z)))
  (out : list Z) (i : nat) (table_name : list Z)
  (entries : gmap Z (list Z)) :
  save_as_gxt data = Some out ->
  nth_error (sorted_tables data) i = Some (table_name, entries) ->
  let entry := 12 + 12 * Z.of_nat i in
  (forall k, 0 <= k < 12 ->
     byte_at out k
     = byte_at ([4; 0; 8; 0] ++ codes "TABL"
                ++ le32 (12 * Z.of_nat (size data))) k)
  /\ (forall k, 0 <= k < 8 ->
        byte_at out (entry + k) = byte_at (padded_name table_name) k)
  /\ (table_name <> MAIN ->
      forall k, 0 <= k < 8 ->
        byte_at out (read_u32 out (entry + 8) + k)
        = byte_at (padded_name table_name) k)
  /\ (table_name_ok table_name ->
      padded_name table_name
      = table_name ++ repeat 0 (8 - List.length table_name)).
Proof.
  intros Hsave Hi. unfold save_as_gxt in Hsave.
  destruct (pack_u32 (Z.of_nat (size data) * SizeOfTABL)) as [tbs|] eqn:Et;
    [|discriminate].
  apply pack_u32_inv in Et. destruct Et as [-> Htbs].
  match type of Hsave with
  | match save_tables ?l ?g ?T ?S ?K with _ => _ end = _ =>
      set (f0 := g) in *;
      destruct (save_tables l f0 T S K) as [f|] eqn:Es; [|discriminate]
  end.
  injection Hsave as <-.
  unfold SizeOfTABL in Es, Htbs.
  pose proof Es as Es'.
  apply save_tables_written in Es;
    [|lia|rewrite sorted_tables_length; lia].
  apply save_tables_names with (i := i) (table_name := table_name)
    (entries := entries) in Es';
    [|lia|rewrite sorted_tables_length; lia|exact Hi].
  destruct Es as [_ Hframe]. destruct Es' as [Hn1 Hn2].
  unfold fbyte, fword in *. cbv zeta.
  split; [|split; [exact Hn1|split; [exact Hn2|apply padded_name_ok]]].
  intros k Hk. rewrite Hframe by lia. subst f0.
  fold (fbyte (write (le32 (Z.of_nat (size data) * SizeOfTABL))
                 (write (codes "TABL")
                    (write [8; 0] (write [4; 0] {| fpos := 0; fbytes := [] |}))))
          k).
  unfold SizeOfTABL.
  replace (12 * Z.of_nat (size data)) with (Z.of_nat (size data) * 12) by lia.
  generalize (le32 (Z.of_nat (size data) * 12)) (len_le32 (Z.of_nat (size data) * 12)).
  intros w Hw. destruct w as [|w0 [|w1 [|w2 [|w3 [|w4 w]]]]];
    try (unfold len in Hw; cbn in Hw; lia).
  assert (Hcases : k = 0 \/ k = 1 \/ k = 2 \/ k = 3 \/ k = 4 \/ k = 5
                   \/ k = 6 \/ k = 7 \/ k = 8 \/ k = 9 \/ k = 10 \/ k = 11)
    by lia.
  repeat destruct Hcases as [->|Hcases]; try subst k; reflexivity.
Qed.

Lemma gxt_header_and_names_witness :
  byte_at example_gxt (12 + 12 * Z.of_nat 0 + 3)
  = byte_at (padded_name MAIN) 3.
Proof.
  assert (H1 : save_as_gxt example_tables = Some example_gxt)
    by (vm_compute; reflexivity).
  assert (H2 : nth_error (sorted_tables example_tables) 0
               = Some (MAIN, example_main))
    by (vm_compute; reflexivity).
  destruct (gxt_header_and_names example_tables example_gxt 0 MAIN
              example_main H1 H2) as (_ & Hn & _).
  apply Hn. lia.
Defined.

(** ** From the text file to the binary file *)

Lemma lstrip_Forall (P : Z -> Prop) (s : list Z) :
  Forall P s -> Forall P (lstrip s).
Proof.
  induction 1 as [|c s Hc Hs IH]; cbn [lstrip]; [constructor|].
  destruct (py_isspace c); [exact IH|constructor; assumption].
Qed.

Lemma strip_Forall (P : Z -> Prop) (s : list Z) :
  Forall P s -> Forall P (strip s).
Proof.
  intros H. unfold strip.
  apply List.Forall_rev, lstrip_Forall, List.Forall_rev, lstrip_Forall.
  exact H.
Qed.

Lemma drop_while_Forall (P : Z -> Prop) (p : Z -> bool) (s : list Z) :
  Forall P s -> Forall P (drop_while p s).
Proof.
  induction 1 as [|c s Hc Hs IH]; cbn [drop_while]; [constructor|].
  destruct (p c); [exact IH|constructor; assumption].
Qed.

Lemma entry_format_match_Forall (P : Z -> Prop) (line raw_key v : list Z) :
  Forall P line ->
  entry_format_match line = Some (raw_key, v) -> Forall P v.
Proof.
  intros Hl. unfold entry_format_match. cbv zeta.
  destruct (take_while is_key_char (lstrip line)) as [|k ks]; [discriminate|].
  pose proof (lstrip_Forall P _
                (drop_while_Forall P is_key_char _ (lstrip_Forall P _ Hl)))
    as Hrest.
  destruct (lstrip (drop_while is_key_char (lstrip line))) as [|c rest];
    [discriminate|].
  destruct (c =? 61); [|discriminate].
  intros H. injection H as _ <-.
  apply lstrip_Forall. inversion Hrest; assumption.
Qed.

Lemma splitlines_from_Forall (P : Z -> Prop) (s : list Z) :
  forall cur,
    Forall P cur -> Forall P s ->
    Forall (Forall P) (splitlines_from cur s).
Proof.
  assert (Hgen : forall (n : nat) (s : list Z) (cur : list Z),
            (List.length s <= n)%nat ->
            Forall P cur -> Forall P s ->
            Forall (Forall P) (splitlines_from cur s)).
  { clear s. induction n as [|n IH]; intros s cur Hn Hcur Hs;
      assert (Hrev : Forall P (rev cur)) by (apply List.Forall_rev; exact Hcur).
    - destruct s; [|cbn in Hn; lia]. cbn [splitlines_from].
      destruct cur; [constructor|]. constructor; [exact Hrev|constructor].
    - destruct s as [|c s]; cbn [splitlines_from].
      + destruct cur; [constructor|]. constructor; [exact Hrev|constructor].
      + inversion Hs as [|c' s' Hc Hs']; subst. cbn in Hn.
        destruct (c =? 13).
        * destruct s as [|d s'']; [constructor; [exact Hrev|constructor]|].
          cbn in Hn.
          destruct (d =? 10).
          -- constructor; [exact Hrev|]. apply IH; [lia|constructor|].
             inversion Hs'; assumption.
          -- constructor; [exact Hrev|].
             apply IH; [cbn; lia|constructor|exact Hs'].
        * destruct (is_linebreak c).
          -- constructor; [exact Hrev|]. apply IH; [lia|constructor|exact Hs'].
          -- apply IH; [lia|constructor; assumption|exact Hs']. }
  intros cur. apply (Hgen (List.length s)). lia.
Qed.

Lemma values_from_new_table (P : Z -> Prop)
  (data : gmap (list Z) (gmap Z (list Z))) (name : list Z) :
  values_from P data ->
  values_from P
    (match data !! name with
     | Some _ => data
     | None => <[name := ∅]> data
     end).
Proof.
  intros Hd. destruct (data !! name) eqn:E; [exact Hd|].
  intros name' table h v Hn Hv.
  destruct (decide (name' = name)) as [->|Hne].
  - rewrite lookup_insert_eq in Hn. injection Hn as <-.
    rewrite lookup_empty in Hv. discriminate.
  - rewrite lookup_insert_ne in Hn by congruence. apply (Hd _ _ _ _ Hn Hv).
Qed.

Lemma values_from_store (P : Z -> Prop)
  (data : gmap (list Z) (gmap Z (list Z))) (name : list Z) (h : Z)
  (v : list Z) :
  values_from P data -> Forall P v ->
  values_from P (<[name := <[h := v]> (table_of data name)]> data).
Proof.
  intros Hd Hv name' table h' v' Hn Hv'.
  destruct (decide (name' = name)) as [->|Hne].
  - rewrite lookup_insert_eq in Hn. injection Hn as <-.
    destruct (decide (h' = h)) as [->|Hneh].
    + rewrite lookup_insert_eq in Hv'. injection Hv' as <-. exact Hv.
    + rewrite lookup_insert_ne in Hv' by congruence.
      unfold table_of in Hv'.
      destruct (data !! name) as [t|] eqn:Et; cbn in Hv'.
      * apply (Hd _ _ _ _ Et Hv').
      * rewrite lookup_empty in Hv'. discriminate.
  - rewrite lookup_insert_ne in Hn by congruence. apply (Hd _ _ _ _ Hn Hv').
Qed.

Lemma load_entry_values (P : Z -> Prop) (upper : Z -> list Z) (line_no : Z)
  (raw_key text_value : list Z) (st : loader) :
  Forall P text_value ->
  values_from P (m_GxtData st) ->
  values_from P
    (m_GxtData (snd (load_entry upper line_no raw_key text_value st))).
Proof.
  intros Hv Hd. unfold load_entry.
  destruct (current_table st) as [name|].
  - destruct (entry_hash_key upper raw_key); cbn [snd m_GxtData];
      [apply values_from_store; assumption|exact Hd].
  - pose proof (values_from_new_table P (m_GxtData st) MAIN Hd) as Hd'.
    destruct (entry_hash_key upper raw_key); cbn [snd m_GxtData];
      [apply values_from_store; assumption|exact Hd'].
Qed.

Lemma load_text_line_values (P : Z -> Prop) (upper : Z -> list Z)
  (line_no : Z) (raw_line : list Z) (st : loader) :
  Forall P raw_line ->
  values_from P (m_GxtData st) ->
  values_from P (m_GxtData (snd (load_text_line upper line_no raw_line st))).
Proof.
  intros Hl Hd. unfold load_text_line. cbv zeta.
  pose proof (strip_Forall P raw_line Hl) as Hs.
  destruct (strip raw_line) as [|c line]; [exact Hd|].
  destruct (c =? 59); [exact Hd|].
  destruct (table_format_match (c :: line)) as [group1|].
  - cbn [snd load_table_header m_GxtData]. apply values_from_new_table.
    exact Hd.
  - destruct (entry_format_match (c :: line)) as [[raw_key text_value]|] eqn:E.
    + apply load_entry_values; [|exact Hd].
      apply (entry_format_match_Forall P (c :: line) raw_key text_value Hs E).
    + exact Hd.
Qed.

Lemma load_text_lines_values (P : Z -> Prop) (upper : Z -> list Z)
  (lines : list (list Z)) :
  forall (line_no : Z) (st : loader),
    Forall (Forall P) lines ->
    values_from P (m_GxtData st) ->
    values_from P (m_GxtData (snd (load_text_lines upper line_no lines st))).
Proof.
  induction lines as [|line lines IH]; intros line_no st Hl Hd; [exact Hd|].
  inversion Hl as [|l ls Hline Hrest]; subst.
  cbn [load_text_lines].
  pose proof (load_text_line_values P upper line_no line st Hline Hd) as H1.
  destruct (load_text_line upper line_no line st) as [[|] st']; cbn [snd] in *.
  - apply IH; assumption.
  - exact H1.
Qed.

Lemma load_text_values (P : Z -> Prop) (upper : Z -> list Z)
  (raw_content : list Z) :
  Forall P raw_content ->
  values_from P (m_GxtData (snd (load_text upper raw_content))).
Proof.
  intros Hc. unfold load_text. apply load_text_lines_values.
  - unfold splitlines. apply splitlines_from_Forall; [constructor|].
    destruct raw_content as [|c rest]; [constructor|].
    destruct (c =? 65279); [inversion Hc; assumption|exact Hc].
  - intros name table h v Hn. cbn in Hn. rewrite lookup_empty in Hn.
    discriminate.
Qed.

(** X21.  What [load_text] read, [save_as_gxt] can write: for a text
    without surrogate code points, as every decoded file is, the tables
    [load_text] leaves are written whole whenever the length of the file to
    write is below 2^32, whatever the lines held. *)
Theorem load_text_then_save_as_gxt (upper : Z -> list Z)
  (raw_content : list Z) :
  Forall (fun c => is_surrogate c = false) raw_content ->
  let data := m_GxtData (snd (load_text upper raw_content)) in
  gxt_length data < 2 ^ 32 ->
  exists out, save_as_gxt data = Some out /\ len out = gxt_length data.
Proof.
  intros Hc data Hfit. apply save_as_gxt_writes; [|exact Hfit].
  intros name table Hn h v Hv.
  pose proof (load_text_values _ upper raw_content Hc name table h v Hn Hv)
    as Hval.
  assert (Hok : loader_ok (snd (load_text upper raw_content))).
  { unfold load_text. apply load_text_lines_ok. split; cbn.
    - intros name' table' H. rewrite lookup_empty in H. discriminate.
    - intros name' H. discriminate. }
  destruct Hok as [Hd _]. destruct (Hd name table Hn) as [_ Hent].
  destruct (Hent h v Hv) as [Hr _].
  split; [exact Hr|exact Hval].
Qed.

Lemma load_text_then_save_as_gxt_witness :
  exists out,
    save_as_gxt
      (m_GxtData
         (snd (load_text (fun c => [ascii_upper c])
                 (codes "[main]" ++ [10] ++ codes "BEEF = hi"))))
    = Some out
    /\ len out
       = gxt_length
           (m_GxtData
              (snd (load_text (fun c => [ascii_upper c])
                      (codes "[main]" ++ [10] ++ codes "BEEF = hi")))).
Proof.
  apply (load_text_then_save_as_gxt (fun c => [ascii_upper c])
           (codes "[main]" ++ [10] ++ codes "BEEF = hi")).
  - apply List.Forall_forall. intros c Hc. vm_compute in Hc.
    repeat (destruct Hc as [<-|Hc]; [reflexivity|]). contradiction.
  - vm_compute. reflexivity.
Defined.

(** ** From the ledgers to the database *)

Lemma LoadText_hashes (lines : list (list Z)) :
  Forall (fun e => 0 <= hash e < 2 ^ 32) (LoadText lines).
Proof.
  apply List.Forall_forall. intros e Hin.
  unfold LoadText in Hin. apply in_flat_map in Hin.
  destruct Hin as (raw & _ & He). apply line_entries_In in He.
  apply (load_line_matched _ _ _ _ He).
Qed.

(** X22.  [GenerateDataBase] cannot fail on a hash that [LoadText] read:
    for the entries of any ledger files, in the order of the files and of
    their lines, it writes the count, a row for each entry, the size of the
    data block and the data block, 8 + 8 n bytes and the block in all,
    whenever the count and the data block fit in 32 bits. *)
Theorem ledgers_to_database (files : list (list (list Z))) :
  let texts := flat_map LoadText files in
  len texts < 2 ^ 32 ->
  len (blob_of texts) < 2 ^ 32 ->
  exists data,
    GenerateDataBase texts = Some data
    /\ data = le32 (len texts) ++ row_bytes (rows_of 0 texts)
              ++ le32 (len (blob_of texts)) ++ blob_of texts
    /\ len data = 8 + 8 * len texts + len (blob_of texts).
Proof.
  intros texts Hcount Hblob.
  assert (Hh : Forall (fun e => 0 <= hash e < 2 ^ 32) texts).
  { subst texts. apply List.Forall_flat_map.
    apply List.Forall_forall. intros lines _. apply LoadText_hashes. }
  pose proof (len_nonneg texts) as Hn0.
  pose proof (len_nonneg (blob_of texts)) as Hb0.
  assert (Hrows : Forall (fun r => 0 <= row_hash r < 2 ^ 32
                                   /\ 0 <= row_offset r < 2 ^ 32)
                    (rows_of 0 texts)).
  { apply rows_of_in_range; [lia | exact Hh | lia]. }
  assert (Hrl : len (rows_of 0 texts) = len texts).
  { unfold len. rewrite rows_of_length. reflexivity. }
  eexists. split; [|split; [reflexivity|]].
  - unfold GenerateDataBase.
    rewrite build_blob_layout
      by (try exact Hh; change (len (@nil Z)) with 0; lia).
    change (len (@nil Z)) with 0. cbn [app].
    rewrite Hrl, !pack_u32_bytes by lia.
    rewrite pack_rows_bytes by exact Hrows. reflexivity.
  - rewrite !len_app, !len_le32, len_row_bytes, Hrl. lia.
Qed.

Lemma ledgers_to_database_witness :
  exists data,
    GenerateDataBase
      (flat_map LoadText [[codes "0x0000000A=a"]; [codes "0x0000000B=b"]])
    = Some data.
Proof.
  destruct (ledgers_to_database
              [[codes "0x0000000A=a"]; [codes "0x0000000B=b"]])
    as (data & Hd & _).
  - vm_compute. reflexivity.
  - vm_compute. reflexivity.
  - exists data. exact Hd.
Defined.

(** ** Keys that differ in case *)

(** X23.  [gta_sa_hash] does not tell apart keys that differ only in case:
    two keys whose characters have the same single upper-case characters
    have the same hash, so [load_text] stores their entries under one key
    of the table. *)
Theorem gta_sa_hash_case_insensitive (upper : Z -> list Z)
  (key1 key2 uppers : list Z) :
  Forall2 (fun char c_upper => upper char = [c_upper]) key1 uppers ->
  Forall2 (fun char c_upper => upper char = [c_upper]) key2 uppers ->
  gta_sa_hash upper key1 = gta_sa_hash upper key2
  /\ (hex_check key1 = false -> hex_check key2 = false ->
      entry_hash_key upper key1 = entry_hash_key upper key2).
Proof.
  intros H1 H2.
  assert (E : gta_sa_hash upper key1 = gta_sa_hash upper key2).
  { unfold gta_sa_hash.
    rewrite (gta_sa_hash_from_crc upper key1 uppers _ H1),
      (gta_sa_hash_from_crc upper key2 uppers _ H2).
    reflexivity. }
  split; [exact E|]. intros Hx1 Hx2. unfold entry_hash_key.
  rewrite Hx1, Hx2. exact E.
Qed.

Lemma gta_sa_hash_case_insensitive_witness :
  gta_sa_hash (fun c => [ascii_upper c]) (codes "Intro_1")
  = gta_sa_hash (fun c => [ascii_upper c]) (codes "INTRO_1").
Proof.
  apply (gta_sa_hash_case_insensitive (fun c => [ascii_upper c])
           (codes "Intro_1") (codes "INTRO_1") (codes "INTRO_1"));
    repeat constructor.
Defined.

(** ** From the database to the text written *)

Lemma GenerateDataBase_stored (texts : list ExportedTextEntry) :
  GenerateDataBase texts = GenerateDataBase (List.map stored_entry texts).
Proof.
  unfold GenerateDataBase. rewrite build_blob_stored. reflexivity.
Qed.

(** X24.  What the database tool writes back for the entries it was given:
    for entries whose texts are storable, whose count and data block fit in
    32 bits, and whatever their hashes, [GenerateDataBase] writes a database
    from which [ParseWhmTable] builds the list of the same texts, in order,
    each with its hash modulo 2^32 as the [c_uint] field of its row holds
    it, and writes for each entry the line made of this hash in eight
    upper-case hexadecimal digits after [0x], the equals sign and the text
    as it is. *)
Theorem database_dump_lines (texts : list ExportedTextEntry) :
  Forall (fun e => storable (str e)) texts ->
  len texts < 2 ^ 32 ->
  len (blob_of texts) < 2 ^ 32 ->
  exists data,
    GenerateDataBase texts = Some data
    /\ ParseWhmTable_results data
       = inr (List.map (fun e => (c_uint (hash e), str e)) texts)
    /\ ParseWhmTable data
       = inr (flat_map
                (fun e => codes "0x" ++ hex8 (c_uint (hash e)) ++ codes "="
                          ++ str e ++ [10])
                texts).
Proof.
  intros Hs Hcount Hblob.
  assert (Hok : Forall (fun e => 0 <= hash e < 2 ^ 32 /\ storable (str e))
                  (List.map stored_entry texts)).
  { apply List.Forall_map. revert Hs. apply List.Forall_impl.
    intros e He. cbn [stored_entry hash str].
    split; [apply c_uint_range|exact He]. }
  assert (Hlen : len (List.map stored_entry texts) = len texts)
    by (unfold len; rewrite List.length_map; reflexivity).
  destruct (database_round_trip_results (List.map stored_entry texts) Hok)
    as (Hgen & Hres).
  { rewrite Hlen. exact Hcount. }
  { rewrite blob_of_stored. exact Hblob. }
  eexists. split; [rewrite GenerateDataBase_stored; exact Hgen|].
  assert (Hmap : List.map (fun e => (hash e, str e))
                   (List.map stored_entry texts)
                 = List.map (fun e => (c_uint (hash e), str e)) texts)
    by (rewrite List.map_map; reflexivity).
  split; [rewrite Hres, Hmap; reflexivity|].
  unfold ParseWhmTable. rewrite Hres, Hmap.
  f_equal. clear. induction texts as [|e texts IH]; [reflexivity|].
  cbn [List.map flat_map]. rewrite IH. f_equal.
  unfold result_line. cbn [fst snd].
  rewrite (format_08X_hex8 _ (c_uint_range (hash e))). reflexivity.
Qed.

Lemma database_dump_lines_witness :
  exists data,
    GenerateDataBase two_entries = Some data
    /\ ParseWhmTable data
       = inr (flat_map
                (fun e => codes "0x" ++ hex8 (c_uint (hash e)) ++ codes "="
                          ++ str e ++ [10])
                two_entries).
Proof.
  assert (Hs : Forall (fun e => storable (str e)) two_entries).
  { unfold two_entries, storable.
    repeat constructor; try discriminate; cbn; lia. }
  destruct (database_dump_lines two_entries Hs
              ltac:(vm_compute; reflexivity) ltac:(vm_compute; reflexivity))
    as (data & Hgen & _ & Hout).
  exists data. split; [exact Hgen | exact Hout].
Defined.
